(** * Order management API

    A shallow embedding of the Express/PostgreSQL backend: the JavaScript
    number and string primitives the controllers rely on, the relational
    tables, the user and product services with their controllers, the
    order-placement workflow, the migration runner and the configuration.

    Conventions.  A field of a request body has its declared type or is
    absent.  A price is counted in hundredths, the scale of NUMERIC(10,2);
    a stock is an integer.  A call runs against a [World]: the tables, the
    sequences, the clock, and the faults the connection is going to suffer;
    a service is a function from worlds to an outcome (a value returned or
    an error thrown) and a new world.  The timestamp of a response, the
    console, and the payments table play no part and are left out. *)

From Stdlib Require Import ZArith Lia Bool Ascii String.
From stdpp Require Import base option list sorting strings pretty gmap.

Local Open Scope string_scope.
Local Open Scope Z_scope.

Set Warnings "-register-all".

(** ** JavaScript primitives *)

Module JS.

(** The numbers that flow through the controllers are produced by
    [parseInt] and by [+], [-], [*] on its results, so they are IEEE-754
    doubles with an integral value, or NaN, or an infinity.  [Fin z] is the
    double whose value is the integer [z]; the two zeros are identified
    (no operation below observes the sign of zero). *)
Inductive number : Type :=
| NaN
| NegInf
| Fin (z : Z)
| PosInf.

#[global] Instance number_eq_dec : EqDecision number.
Proof. solve_decision. Defined.

(** Round-to-nearest, ties-to-even, of a positive integer to a 53-bit
    significand. *)
Definition round53 (n : Z) : Z :=
  let bits := Z.log2 n + 1 in
  if bits <=? 53 then n
  else
    let sh := bits - 53 in
    let q := Z.shiftr n sh in
    let r := n - Z.shiftl q sh in
    let half := Z.shiftl 1 (sh - 1) in
    let q' := if (half <? r) || ((r =? half) && Z.odd q) then q + 1 else q in
    Z.shiftl q' sh.

(** The double nearest to a mathematical integer; magnitudes that round to
    2^1024 or more overflow to an infinity. *)
Definition of_Z (n : Z) : number :=
  if n =? 0 then Fin 0
  else
    let m := round53 (Z.abs n) in
    if 1024 <=? Z.log2 m then (if n <? 0 then NegInf else PosInf)
    else Fin (Z.sgn n * m).

Definition isNaN (x : number) : bool :=
  match x with NaN => true | _ => false end.

(** ToBoolean on a number: NaN and zero are falsy. *)
Definition truthy (x : number) : bool :=
  match x with
  | NaN => false
  | Fin z => negb (z =? 0)
  | _ => true
  end.

(** [a || b] on numbers. *)
Definition or (a b : number) : number := if truthy a then a else b.

(** [a < b]; false as soon as one side is NaN. *)
Definition lt (a b : number) : bool :=
  match a, b with
  | NaN, _ | _, NaN => false
  | NegInf, NegInf => false
  | NegInf, _ => true
  | _, NegInf => false
  | PosInf, _ => false
  | Fin _, PosInf => true
  | Fin x, Fin y => x <? y
  end.

(** [a <= b]; false as soon as one side is NaN. *)
Definition le (a b : number) : bool :=
  match a, b with
  | NaN, _ | _, NaN => false
  | _, _ => negb (lt b a)
  end.

Definition Math_max (a b : number) : number :=
  match a, b with
  | NaN, _ | _, NaN => NaN
  | _, _ => if lt a b then b else a
  end.

Definition Math_min (a b : number) : number :=
  match a, b with
  | NaN, _ | _, NaN => NaN
  | _, _ => if lt b a then b else a
  end.

Definition sub (a b : number) : number :=
  match a, b with
  | NaN, _ | _, NaN => NaN
  | PosInf, PosInf | NegInf, NegInf => NaN
  | PosInf, _ | _, NegInf => PosInf
  | NegInf, _ | _, PosInf => NegInf
  | Fin x, Fin y => of_Z (x - y)
  end.

Definition mul (a b : number) : number :=
  match a, b with
  | NaN, _ | _, NaN => NaN
  | Fin x, Fin y => of_Z (x * y)
  | Fin x, PosInf | PosInf, Fin x =>
      if x =? 0 then NaN else if x <? 0 then NegInf else PosInf
  | Fin x, NegInf | NegInf, Fin x =>
      if x =? 0 then NaN else if x <? 0 then PosInf else NegInf
  | PosInf, PosInf | NegInf, NegInf => PosInf
  | PosInf, NegInf | NegInf, PosInf => NegInf
  end.

(** [Math.ceil(a / b)], exact as long as the quotient stays below 2^53. *)
Definition ceil_div (a b : number) : number :=
  match a, b with
  | NaN, _ | _, NaN => NaN
  | Fin x, Fin y =>
      if y =? 0 then
        (if x =? 0 then NaN else if x <? 0 then NegInf else PosInf)
      else of_Z (- ((- x) / y))
  | Fin _, _ => Fin 0
  | PosInf, Fin y => if y <? 0 then NegInf else PosInf
  | NegInf, Fin y => if y <? 0 then PosInf else NegInf
  | _, _ => NaN
  end.

(** *** Strings.  A string is a sequence of code units below 256. *)

Definition code (c : ascii) : Z := Z.of_N (N_of_ascii c).

(** StrWhiteSpaceChar: TAB, LF, VT, FF, CR, SP, NBSP. *)
Definition is_white_space (c : ascii) : bool :=
  let n := code c in
  ((9 <=? n) && (n <=? 13)) || (n =? 32) || (n =? 160).

Fixpoint trim_start (s : string) : string :=
  match s with
  | String c s' => if is_white_space c then trim_start s' else s
  | EmptyString => EmptyString
  end.

Definition digit_value (c : ascii) : option Z :=
  let n := code c in
  if (48 <=? n) && (n <=? 57) then Some (n - 48)
  else if (97 <=? n) && (n <=? 122) then Some (n - 87)
  else if (65 <=? n) && (n <=? 90) then Some (n - 55)
  else None.

(** The value of the longest prefix of [s] made of radix-[R] digits, read
    after the digits accumulated in [acc]; [None] when no digit was read. *)
Fixpoint digits (R : Z) (s : string) (acc : option Z) : option Z :=
  match s with
  | String c s' =>
      match digit_value c with
      | Some d =>
          if d <? R then digits R s' (Some (default 0 acc * R + d)) else acc
      | None => acc
      end
  | EmptyString => acc
  end.

Definition strip_sign (s : string) : bool * string :=
  match s with
  | String "-" r => (true, r)
  | String "+" r => (false, r)
  | _ => (false, s)
  end.

Definition strip_hex_prefix (s : string) : option string :=
  match s with
  | String "0" (String "x" r) | String "0" (String "X" r) => Some r
  | _ => None
  end.

(** [parseInt(string, radix)]; [radix = None] is the one-argument call. *)
Definition parseInt (s : string) (radix : option Z) : number :=
  let '(neg, s1) := strip_sign (trim_start s) in
  let R0 := default 0 radix in
  if negb (R0 =? 0) && ((R0 <? 2) || (36 <? R0)) then NaN
  else
    let stripPrefix := (R0 =? 0) || (R0 =? 16) in
    let R1 := if R0 =? 0 then 10 else R0 in
    let '(R, s2) :=
      match (if stripPrefix then strip_hex_prefix s1 else None) with
      | Some r => (16, r)
      | None => (R1, s1)
      end in
    match digits R s2 None with
    | None => NaN
    | Some v => of_Z (if neg then - v else v)
    end.

(** A number inside a template literal.  Integers print in decimal; the
    exponent form JavaScript switches to from 1e21 on is not reproduced. *)
Definition show (x : number) : string :=
  match x with
  | NaN => "NaN"
  | NegInf => "-Infinity"
  | Fin z => pretty z
  | PosInf => "Infinity"
  end.

(** [s.includes(sub)]. *)
Fixpoint includes (s sub : string) : bool :=
  String.prefix sub s ||
  match s with
  | String _ s' => includes s' sub
  | EmptyString => false
  end.

(** What Express may hand over as [req.query.x]. *)
Inductive QueryValue : Type :=
| QUndefined
| QString (s : string)
| QArray (l : list QueryValue)
| QObject.

(** ToString, as [parseInt] applies it to its first argument. *)
Fixpoint toString (q : QueryValue) : string :=
  match q with
  | QUndefined => "undefined"
  | QString s => s
  | QArray l =>
      String.concat ","
        (map (fun e => match e with QUndefined => "" | _ => toString e end) l)
  | QObject => "[object Object]"
  end.

End JS.

(** ** The relational data model (migrations 001-003 and the entity types) *)

Module User.
Record t : Type := mk { id : Z; name : string; email : string; created_at : Z }.
End User.

Module Product.
(** [price] is the NUMERIC(10,2) column counted in hundredths; [stock] is
    the INT column. *)
Record t : Type :=
  mk { id : Z; name : string; price : Z; stock : Z; created_at : Z }.
End Product.

Inductive OrderStatus : Type := PENDING | CONFIRMED | SHIPPED | DELIVERED | CANCELLED.

Module Order.
Record t : Type :=
  mk { id : Z; user_id : Z; total_amount : Z; status : OrderStatus; created_at : Z }.
End Order.

Module OrderItem.
Record t : Type :=
  mk { id : Z; order_id : Z; product_id : Z; quantity : Z; price : Z }.
End OrderItem.

#[global] Instance User_eq_dec : EqDecision User.t.
Proof. solve_decision. Defined.
#[global] Instance Product_eq_dec : EqDecision Product.t.
Proof. solve_decision. Defined.
#[global] Instance OrderStatus_eq_dec : EqDecision OrderStatus.
Proof. solve_decision. Defined.
#[global] Instance Order_eq_dec : EqDecision Order.t.
Proof. solve_decision. Defined.
#[global] Instance OrderItem_eq_dec : EqDecision OrderItem.t.
Proof. solve_decision. Defined.

(** The rows of every table.  The order_items table is the one of the
    README (its migration is not among the sources).  [order_keys] is
    modelled from the spec: the idempotency record of the order workflow,
    which order was created under which client key. *)
Record Db : Type := mkDb {
  users : list User.t;
  products : list Product.t;
  orders : list Order.t;
  order_items : list OrderItem.t;
  order_keys : list (string * Z);
}.

(** The SERIAL sequences: the value the next [nextval] hands out.  Sequences
    are not transactional, so they live beside the tables. *)
Record Sequences : Type := mkSeq {
  users_id_seq : Z;
  products_id_seq : Z;
  orders_id_seq : Z;
  order_items_id_seq : Z;
}.

(** What a call runs against: the tables, the sequences, the value of NOW(),
    the fate of the coming round trips to the server ([Some e]: that round
    trip throws the driver error [e]; an exhausted list: no more faults), and
    the number of INSERT, UPDATE and DELETE statements sent so far. *)
Record World : Type := mkWorld {
  db : Db;
  seqs : Sequences;
  clock : Z;
  faults : list (option string);
  mutations : nat;
}.

Definition set_db (d : Db) (w : World) : World :=
  mkWorld d (seqs w) (clock w) (faults w) (mutations w).
Definition set_seqs (s : Sequences) (w : World) : World :=
  mkWorld (db w) s (clock w) (faults w) (mutations w).
Definition set_faults (f : list (option string)) (w : World) : World :=
  mkWorld (db w) (seqs w) (clock w) f (mutations w).
Definition set_mutations (n : nat) (w : World) : World :=
  mkWorld (db w) (seqs w) (clock w) (faults w) n.

Definition set_users (l : list User.t) (d : Db) : Db :=
  mkDb l (products d) (orders d) (order_items d) (order_keys d).
Definition set_products (l : list Product.t) (d : Db) : Db :=
  mkDb (users d) l (orders d) (order_items d) (order_keys d).
Definition set_orders (l : list Order.t) (d : Db) : Db :=
  mkDb (users d) (products d) l (order_items d) (order_keys d).
Definition set_order_items (l : list OrderItem.t) (d : Db) : Db :=
  mkDb (users d) (products d) (orders d) l (order_keys d).
Definition set_order_keys (l : list (string * Z)) (d : Db) : Db :=
  mkDb (users d) (products d) (orders d) (order_items d) l.

(** ** Calls that may throw: a state-and-exception monad over [World] *)

Inductive Outcome (E A : Type) : Type :=
| Return (a : A)
| Throw (e : E).
Arguments Return {E A} a.
Arguments Throw {E A} e.

Definition M (E A : Type) : Type := World -> Outcome E A * World.

#[global] Instance M_ret {E} : MRet (M E) :=
  fun A a w => (Return a, w).
#[global] Instance M_bind {E} : MBind (M E) :=
  fun A B k m w =>
    match m w with
    | (Return a, w') => k a w'
    | (Throw e, w') => (Throw e, w')
    end.

Definition throw {E A} (e : E) : M E A := fun w => (Throw e, w).

(** [try { m } catch (error) { h error }]. *)
Definition try_catch {E E' A} (m : M E A) (h : E -> M E' A) : M E' A :=
  fun w =>
    match m w with
    | (Return a, w') => (Return a, w')
    | (Throw e, w') => h e w'
    end.

(** A computed outcome, returned or thrown. *)
Definition lift {E A} (o : Outcome E A) : M E A := fun w => (o, w).

(** The services' catch blocks: every thrown value is an [Error], so it is
    rethrown as [new Error(`${what}: ${error.message}`)]. *)
Definition rethrow {A} (what : string) (m : M string A) : M string A :=
  try_catch m (fun e => throw (what +:+ ": " +:+ e)).

(** ** The SQL statements, as the server runs them *)

Module Sql.

(** One round trip to the server: it goes through unless a fault is due. *)
Definition roundtrip : M string unit :=
  fun w =>
    let w' := set_faults (tail (faults w)) w in
    match head (faults w) with
    | Some (Some e) => (Throw e, w')
    | _ => (Return (), w')
    end.

(** The round trip of an INSERT, UPDATE or DELETE. *)
Definition mutation : M string unit :=
  fun w => roundtrip (set_mutations (S (mutations w)) w).

Definition read {A} (f : Db -> A) : M string A :=
  fun w => (Return (f (db w)), w).

(** What the server does once the statement has reached it. *)
Definition exec {A} (f : World -> Outcome string A * World) : M string A := f.

(** *** Parameters.  A JavaScript number bound to an INT parameter must be
    an integer of 32 bits; the messages leave out the offending literal. *)
Definition int4_of_Z (z : Z) : Outcome string Z :=
  if (-2147483648 <=? z) && (z <=? 2147483647) then Return z
  else Throw "value is out of range for type integer".

Definition int4 (x : JS.number) : Outcome string Z :=
  match x with
  | JS.Fin z => int4_of_Z z
  | _ => Throw "invalid input syntax for type integer"
  end.

(** NUMERIC(10,2), in hundredths: fewer than ten digits before the scale. *)
Definition numeric_10_2 (c : Z) : Outcome string Z :=
  if Z.abs c <? 10000000000 then Return c
  else Throw "numeric field overflow".

(** The operand of LIMIT or OFFSET: a non-negative BIGINT. *)
Definition row_count (clause : string) (x : JS.number) : Outcome string nat :=
  match x with
  | JS.Fin z =>
      if z <? 0 then Throw (clause +:+ " must not be negative")
      else if z <=? 9223372036854775807 then Return (Z.to_nat z)
      else Throw "value is out of range for type bigint"
  | _ => Throw "invalid input syntax for type bigint"
  end.

Definition nonempty {A} (rows : list A) : bool :=
  match rows with [] => false | _ :: _ => true end.

(** ORDER BY key DESC.  The server leaves the order of rows with equal keys
    open; here they keep their table order, and what is said of a listing
    as a whole is said for tables whose keys are distinct. *)
Fixpoint insert_desc {A} (key : A -> Z) (x : A) (l : list A) : list A :=
  match l with
  | [] => [x]
  | y :: l' => if key y <=? key x then x :: l else y :: insert_desc key x l'
  end.

Definition order_by_desc {A} (key : A -> Z) (l : list A) : list A :=
  foldr (insert_desc key) [] l.

(** *** users *)

(** SELECT id FROM users WHERE email = $1 *)
Definition select_user_ids_by_email (email : string) : M string (list Z) :=
  _ ← roundtrip;
  read (fun d => User.id <$> filter (fun u => User.email u = email) (users d)).

(** SELECT id FROM users WHERE email = $1 AND id != $2 *)
Definition select_other_user_ids_by_email (email : string) (id : JS.number)
  : M string (list Z) :=
  _ ← roundtrip;
  i ← lift (int4 id);
  read (fun d =>
          User.id <$> filter (fun u => User.email u = email ∧ User.id u ≠ i) (users d)).

(** INSERT INTO users (name, email) VALUES ($1, $2) RETURNING ... ; the
    id is drawn from the sequence, [email] is UNIQUE. *)
Definition insert_user (name email : string) : M string (list User.t) :=
  _ ← mutation;
  exec (fun w =>
    let i := users_id_seq (seqs w) in
    let s := seqs w in
    let w1 := set_seqs (mkSeq (i + 1) (products_id_seq s) (orders_id_seq s)
                              (order_items_id_seq s)) w in
    if nonempty (filter (fun u => User.email u = email) (users (db w))) then
      (Throw "duplicate key value violates unique constraint users_email_key", w1)
    else if nonempty (filter (fun u => User.id u = i) (users (db w))) then
      (Throw "duplicate key value violates unique constraint users_pkey", w1)
    else
      let row := User.mk i name email (clock w) in
      (Return [row], set_db (set_users (users (db w) ++ [row]) (db w)) w1)).

(** SELECT id, name, email, created_at FROM users WHERE id = $1 *)
Definition select_user_by_id (id : JS.number) : M string (list User.t) :=
  _ ← roundtrip;
  i ← lift (int4 id);
  read (fun d => filter (fun u => User.id u = i) (users d)).

(** SELECT id, name, email, created_at FROM users WHERE email = $1 *)
Definition select_user_by_email (email : string) : M string (list User.t) :=
  _ ← roundtrip;
  read (fun d => filter (fun u => User.email u = email) (users d)).

(** SELECT 1 FROM users WHERE id = $1 *)
Definition select_1_from_users (id : JS.number) : M string (list Z) :=
  _ ← roundtrip;
  i ← lift (int4 id);
  read (fun d => (fun _ => 1) <$> filter (fun u => User.id u = i) (users d)).

(** SELECT COUNT( * ) as count FROM users *)
Definition count_users : M string (list Z) :=
  _ ← roundtrip;
  read (fun d => [Z.of_nat (length (users d))]).

(** SELECT ... FROM users ORDER BY created_at DESC LIMIT $1 OFFSET $2 *)
Definition select_users_page (limit offset : JS.number) : M string (list User.t) :=
  _ ← roundtrip;
  l ← lift (row_count "LIMIT" limit);
  o ← lift (row_count "OFFSET" offset);
  read (fun d => take l (drop o (order_by_desc User.created_at (users d)))).

(** The row an UPDATE of users writes over [u] when it targets id [i]. *)
Definition updated_user (i : Z) (name email : string) (u : User.t) : User.t :=
  if decide (User.id u = i)
  then User.mk (User.id u) name email (User.created_at u)
  else u.

(** UPDATE users SET name = $1, email = $2 WHERE id = $3 RETURNING ... *)
Definition update_user (name email : string) (id : JS.number)
  : M string (list User.t) :=
  _ ← mutation;
  i ← lift (int4 id);
  exec (fun w =>
    let us := users (db w) in
    if nonempty (filter (fun u => User.id u = i) us)
       && nonempty (filter (fun u => User.email u = email ∧ User.id u ≠ i) us)
    then (Throw "duplicate key value violates unique constraint users_email_key", w)
    else
      let us' := updated_user i name email <$> us in
      (Return (filter (fun u => User.id u = i) us'),
       set_db (set_users us' (db w)) w)).

(** DELETE FROM users WHERE id = $1.  Orders reference users ON DELETE
    CASCADE, and order items and key records reference orders likewise. *)
Definition delete_user (id : JS.number) : M string unit :=
  _ ← mutation;
  i ← lift (int4 id);
  exec (fun w =>
    let d := db w in
    let gone (o : Order.t) := bool_decide (Order.user_id o = i) in
    let dead := Order.id <$> List.filter gone (orders d) in
    (Return (),
     set_db (mkDb (filter (fun u => User.id u ≠ i) (users d))
                  (products d)
                  (List.filter (fun o => negb (gone o)) (orders d))
                  (filter (fun it => OrderItem.order_id it ∉ dead) (order_items d))
                  (filter (fun k => k.2 ∉ dead) (order_keys d))) w)).

(** *** products *)

(** SELECT id FROM products WHERE name = $1 *)
Definition select_product_ids_by_name (name : string) : M string (list Z) :=
  _ ← roundtrip;
  read (fun d => Product.id <$> filter (fun p => Product.name p = name) (products d)).

(** SELECT id FROM products WHERE name = $1 AND id != $2 *)
Definition select_other_product_ids_by_name (name : string) (id : JS.number)
  : M string (list Z) :=
  _ ← roundtrip;
  i ← lift (int4 id);
  read (fun d =>
          Product.id <$>
            filter (fun p => Product.name p = name ∧ Product.id p ≠ i) (products d)).

(** INSERT INTO products (name, price, stock) VALUES ($1, $2, $3)
    RETURNING ... ; no constraint but the primary key and the column types. *)
Definition insert_product (name : string) (price stock : Z)
  : M string (list Product.t) :=
  _ ← mutation;
  price ← lift (numeric_10_2 price);
  stock ← lift (int4_of_Z stock);
  exec (fun w =>
    let i := products_id_seq (seqs w) in
    let s := seqs w in
    let w1 := set_seqs (mkSeq (users_id_seq s) (i + 1) (orders_id_seq s)
                              (order_items_id_seq s)) w in
    if nonempty (filter (fun p => Product.id p = i) (products (db w))) then
      (Throw "duplicate key value violates unique constraint products_pkey", w1)
    else
      let row := Product.mk i name price stock (clock w) in
      (Return [row], set_db (set_products (products (db w) ++ [row]) (db w)) w1)).

(** SELECT id, name, price, stock, created_at FROM products WHERE id = $1 *)
Definition select_product_by_id (id : JS.number) : M string (list Product.t) :=
  _ ← roundtrip;
  i ← lift (int4 id);
  read (fun d => filter (fun p => Product.id p = i) (products d)).

(** SELECT COUNT( * ) as count FROM products *)
Definition count_products : M string (list Z) :=
  _ ← roundtrip;
  read (fun d => [Z.of_nat (length (products d))]).

(** SELECT ... FROM products ORDER BY created_at DESC LIMIT $1 OFFSET $2 *)
Definition select_products_page (limit offset : JS.number)
  : M string (list Product.t) :=
  _ ← roundtrip;
  l ← lift (row_count "LIMIT" limit);
  o ← lift (row_count "OFFSET" offset);
  read (fun d => take l (drop o (order_by_desc Product.created_at (products d)))).

(** The row an UPDATE of products writes over [p] when it targets id [i]. *)
Definition updated_product (i : Z) (name : string) (price stock : Z) (p : Product.t)
  : Product.t :=
  if decide (Product.id p = i)
  then Product.mk (Product.id p) name price stock (Product.created_at p)
  else p.

(** UPDATE products SET name = $1, price = $2, stock = $3 WHERE id = $4
    RETURNING ... *)
Definition update_product (name : string) (price stock : Z) (id : JS.number)
  : M string (list Product.t) :=
  _ ← mutation;
  price ← lift (numeric_10_2 price);
  stock ← lift (int4_of_Z stock);
  i ← lift (int4 id);
  exec (fun w =>
    let ps := updated_product i name price stock <$> products (db w) in
    (Return (filter (fun p => Product.id p = i) ps),
     set_db (set_products ps (db w)) w)).

(** DELETE FROM products WHERE id = $1.  Order items reference products
    without a cascade (README, order_items), so a referenced product
    cannot be deleted. *)
Definition delete_product (id : JS.number) : M string unit :=
  _ ← mutation;
  i ← lift (int4 id);
  exec (fun w =>
    let d := db w in
    if nonempty (filter (fun it => OrderItem.product_id it = i) (order_items d)) then
      (Throw "update or delete on table products violates foreign key constraint", w)
    else
      (Return (), set_db (set_products (filter (fun p => Product.id p ≠ i) (products d)) d) w)).

End Sql.

(** ** Request types (src/types) *)

Module CreateUserRequest.
Record t : Type := mk { name : string; email : string }.
End CreateUserRequest.

Module UpdateUserRequest.
Record t : Type := mk { name : option string; email : option string }.
End UpdateUserRequest.

Module CreateProductRequest.
Record t : Type := mk { name : string; price : Z; stock : Z }.
End CreateProductRequest.

Module UpdateProductRequest.
Record t : Type :=
  mk { name : option string; price : option Z; stock : option Z }.
End UpdateProductRequest.

(** ToBoolean of an optional string or number field: [undefined], the empty
    string and zero are falsy. *)
Definition truthy_str (s : option string) : bool :=
  match s with
  | Some s => negb (String.eqb s "")
  | None => false
  end.

Definition truthy_num (z : option Z) : bool :=
  match z with
  | Some z => negb (z =? 0)
  | None => false
  end.

(** [a ?? b]. *)
Definition nullish {A} (a : option A) (b : A) : A := default b a.
Infix "??" := nullish (at level 45, left associativity).

(** ** services/userService.ts *)

Module userService.

Definition createUser (userData : CreateUserRequest.t) : M string User.t :=
  rethrow "Failed to create user"
    (existingUser ← Sql.select_user_ids_by_email (CreateUserRequest.email userData);
     if Sql.nonempty existingUser then
       throw ("Email " +:+ CreateUserRequest.email userData +:+ " is already in use")
     else
       result ← Sql.insert_user (CreateUserRequest.name userData)
                                (CreateUserRequest.email userData);
       match result with
       | [] => throw "Failed to create user"
       | user :: _ => mret user
       end).

Definition getUserById (id : JS.number) : M string (option User.t) :=
  rethrow "Failed to fetch user"
    (result ← Sql.select_user_by_id id;
     mret (head result)).

Definition getAllUsers (page limit : JS.number) : M string (list User.t * Z) :=
  rethrow "Failed to fetch users"
    (let offset := JS.mul (JS.sub page (JS.Fin 1)) limit in
     countResult ← Sql.count_users;
     let total := default 0 (head countResult) in
     users ← Sql.select_users_page limit offset;
     mret (users, total)).

Definition getUserByEmail (email : string) : M string (option User.t) :=
  rethrow "Failed to fetch user by email"
    (result ← Sql.select_user_by_email email;
     mret (head result)).

Definition updateUser (id : JS.number) (updateData : UpdateUserRequest.t)
  : M string User.t :=
  rethrow "Failed to update user"
    (user ← getUserById id;
     match user with
     | None => throw ("User with ID " +:+ JS.show id +:+ " not found")
     | Some user =>
         _ ← (if truthy_str (UpdateUserRequest.email updateData)
                 && negb (bool_decide (UpdateUserRequest.email updateData
                                       = Some (User.email user)))
              then
                existingUser ← Sql.select_other_user_ids_by_email
                                 (UpdateUserRequest.email updateData ?? "") id;
                if Sql.nonempty existingUser then
                  throw ("Email " +:+ (UpdateUserRequest.email updateData ?? "")
                         +:+ " is already in use")
                else mret ()
              else mret ());
         result ← Sql.update_user
                    (UpdateUserRequest.name updateData ?? User.name user)
                    (UpdateUserRequest.email updateData ?? User.email user) id;
         match result with
         | [] => throw "Failed to update user"
         | user' :: _ => mret user'
         end
     end).

Definition deleteUser (id : JS.number) : M string bool :=
  rethrow "Failed to delete user"
    (user ← getUserById id;
     match user with
     | None => throw ("User with ID " +:+ JS.show id +:+ " not found")
     | Some _ =>
         _ ← Sql.delete_user id;
         mret true
     end).

Definition userExists (id : JS.number) : M string bool :=
  rethrow "Failed to check user existence"
    (result ← Sql.select_1_from_users id;
     mret (Sql.nonempty result)).

End userService.

(** ** services/productService.ts *)

Module productService.

Definition createProduct (productData : CreateProductRequest.t)
  : M string Product.t :=
  rethrow "Failed to create product"
    (existingProduct ← Sql.select_product_ids_by_name
                         (CreateProductRequest.name productData);
     if Sql.nonempty existingProduct then
       throw ("Name " +:+ CreateProductRequest.name productData +:+ " is already in use")
     else
       result ← Sql.insert_product (CreateProductRequest.name productData)
                                   (CreateProductRequest.price productData)
                                   (CreateProductRequest.stock productData);
       match result with
       | [] => throw "Failed to create product"
       | product :: _ => mret product
       end).

Definition getAllProducts (page limit : JS.number)
  : M string (list Product.t * Z) :=
  rethrow "Failed to fetch products"
    (let offset := JS.mul (JS.sub page (JS.Fin 1)) limit in
     countResult ← Sql.count_products;
     let total := default 0 (head countResult) in
     products ← Sql.select_products_page limit offset;
     mret (products, total)).

Definition getProductById (id : JS.number) : M string (option Product.t) :=
  rethrow "Failed to fetch product"
    (result ← Sql.select_product_by_id id;
     mret (head result)).

Definition updateProduct (id : JS.number) (updateData : UpdateProductRequest.t)
  : M string Product.t :=
  rethrow "Failed to update product"
    (product ← getProductById id;
     match product with
     | None => throw ("Product with ID " +:+ JS.show id +:+ " not found")
     | Some product =>
         _ ← (if truthy_str (UpdateProductRequest.name updateData)
                 && negb (bool_decide (UpdateProductRequest.name updateData
                                       = Some (Product.name product)))
              then
                existingProduct ← Sql.select_other_product_ids_by_name
                                    (UpdateProductRequest.name updateData ?? "") id;
                if Sql.nonempty existingProduct then
                  throw ("Name " +:+ (UpdateProductRequest.name updateData ?? "")
                         +:+ " is already in use")
                else mret ()
              else mret ());
         result ← Sql.update_product
                    (UpdateProductRequest.name updateData ?? Product.name product)
                    (UpdateProductRequest.price updateData ?? Product.price product)
                    (UpdateProductRequest.stock updateData ?? Product.stock product)
                    id;
         match result with
         | [] => throw "Failed to update product"
         | product' :: _ => mret product'
         end
     end).

Definition deleteProduct (id : JS.number) : M string bool :=
  rethrow "Failed to delete product"
    (product ← getProductById id;
     match product with
     | None => throw ("Product with ID " +:+ JS.show id +:+ " not found")
     | Some _ =>
         _ ← Sql.delete_product id;
         mret true
     end).

End productService.

(** ** The request layer: controllers/userController.ts and the product
    controller *)

(** The JSON envelope sent with [res.status(statusCode).json(...)]; the
    timestamp is left out. *)
Record Response (D : Type) : Type := mkResponse {
  statusCode : Z;
  status : string;
  message : string;
  data : option D;
}.
Arguments mkResponse {D} _ _ _ _.
Arguments statusCode {D} _.
Arguments status {D} _.
Arguments message {D} _.
Arguments data {D} _.

Definition success {D} (code : Z) (msg : string) (d : option D) : Response D :=
  mkResponse code "success" msg d.
Definition error {D} (code : Z) (msg : string) : Response D :=
  mkResponse code "error" msg None.

(** A page of rows with the [pagination] object. *)
Record Page (A : Type) : Type := mkPage {
  rows : list A;
  page : JS.number;
  limit : JS.number;
  total : Z;
  totalPages : JS.number;
}.
Arguments mkPage {A} _ _ _ _ _.
Arguments rows {A} _.
Arguments page {A} _.
Arguments limit {A} _.
Arguments total {A} _.
Arguments totalPages {A} _.

(** A handler runs a service call inside [try]/[catch] and always answers. *)
Definition Handler (D : Type) : Type := World -> Response D * World.

Definition answer {D} (r : Response D) : Handler D := fun w => (r, w).

Definition try_service {A D} (call : M string A)
    (on_value : A -> Response D) (on_error : string -> Response D) : Handler D :=
  fun w =>
    match call w with
    | (Return a, w') => (on_value a, w')
    | (Throw msg, w') => (on_error msg, w')
    end.

(** [Math.max(1, parseInt(req.query.page as string) || 1)] *)
Definition page_param (q : JS.QueryValue) : JS.number :=
  JS.Math_max (JS.Fin 1) (JS.or (JS.parseInt (JS.toString q) None) (JS.Fin 1)).

(** [Math.min(100, Math.max(1, parseInt(req.query.limit as string) || 10))] *)
Definition limit_param (q : JS.QueryValue) : JS.number :=
  JS.Math_min (JS.Fin 100)
    (JS.Math_max (JS.Fin 1) (JS.or (JS.parseInt (JS.toString q) None) (JS.Fin 10))).

Module userController.

Definition createUser (body : UpdateUserRequest.t) : Handler User.t :=
  let name := UpdateUserRequest.name body in
  let email := UpdateUserRequest.email body in
  if negb (truthy_str name) || negb (truthy_str email) then
    answer (error 400 "Name and email are required")
  else
    try_service
      (userService.createUser (CreateUserRequest.mk (name ?? "") (email ?? "")))
      (fun user => success 201 "User created successfully" (Some user))
      (fun message => error 400 message).

Definition getUserById (id : string) : Handler User.t :=
  let userId := JS.parseInt id (Some 10) in
  if JS.isNaN userId then answer (error 400 "Invalid user ID")
  else
    try_service (userService.getUserById userId)
      (fun user =>
         match user with
         | None => error 404 "User not found"
         | Some user => success 200 "User retrieved successfully" (Some user)
         end)
      (fun message => error 500 message).

Definition getAllUsers (query_page query_limit : JS.QueryValue)
  : Handler (Page User.t) :=
  let page := page_param query_page in
  let limit := limit_param query_limit in
  try_service (userService.getAllUsers page limit)
    (fun '(users, total) =>
       let totalPages := JS.ceil_div (JS.Fin total) limit in
       success 200 "Users retrieved successfully"
         (Some (mkPage users page limit total totalPages)))
    (fun message => error 500 message).

Definition updateUser (id : string) (body : UpdateUserRequest.t) : Handler User.t :=
  let userId := JS.parseInt id (Some 10) in
  if JS.isNaN userId then answer (error 400 "Invalid user ID")
  else
    let name := UpdateUserRequest.name body in
    let email := UpdateUserRequest.email body in
    if negb (truthy_str name) && negb (truthy_str email) then
      answer (error 400 "At least one field (name or email) must be provided for update")
    else
      try_service (userService.updateUser userId (UpdateUserRequest.mk name email))
        (fun user => success 200 "User updated successfully" (Some user))
        (fun message =>
           let statusCode := if JS.includes message "not found" then 404 else 400 in
           error statusCode message).

Definition deleteUser (id : string) : Handler User.t :=
  let userId := JS.parseInt id (Some 10) in
  if JS.isNaN userId then answer (error 400 "Invalid user ID")
  else
    try_service (userService.deleteUser userId)
      (fun _ => success 200 "User deleted successfully" None)
      (fun message =>
         let statusCode := if JS.includes message "not found" then 404 else 400 in
         error statusCode message).

End userController.

Module productController.

Definition createProduct (body : UpdateProductRequest.t) : Handler Product.t :=
  let name := UpdateProductRequest.name body in
  let price := UpdateProductRequest.price body in
  let stock := UpdateProductRequest.stock body in
  if negb (truthy_str name) || negb (truthy_num price) || negb (truthy_num stock) then
    answer (error 400 "Name, price and stock are required")
  else
    try_service
      (productService.createProduct
         (CreateProductRequest.mk (name ?? "") (price ?? 0) (stock ?? 0)))
      (fun product => success 201 "Product created successfully" (Some product))
      (fun message => error 400 message).

Definition getAllProducts (query_page query_limit : JS.QueryValue)
  : Handler (Page Product.t) :=
  let page := page_param query_page in
  let limit := limit_param query_limit in
  try_service (productService.getAllProducts page limit)
    (fun '(products, total) =>
       let totalPages := JS.ceil_div (JS.Fin total) limit in
       success 200 "Products retrieved successfully"
         (Some (mkPage products page limit total totalPages)))
    (fun message => error 500 message).

Definition getProductById (id : string) : Handler Product.t :=
  let productId := JS.parseInt id (Some 10) in
  if JS.isNaN productId then answer (error 400 "Invalid product ID")
  else
    try_service (productService.getProductById productId)
      (fun product =>
         match product with
         | None => error 404 "Product not found"
         | Some product => success 200 "Product retrieved successfully" (Some product)
         end)
      (fun message => error 500 message).

Definition updateProduct (id : string) (body : UpdateProductRequest.t)
  : Handler Product.t :=
  let productId := JS.parseInt id (Some 10) in
  if JS.isNaN productId then answer (error 400 "Invalid product ID")
  else
    let name := UpdateProductRequest.name body in
    let price := UpdateProductRequest.price body in
    let stock := UpdateProductRequest.stock body in
    if negb (truthy_str name) && negb (truthy_num price) && negb (truthy_num stock) then
      answer (error 400
                "At least one field (name, price or stock) must be provided for update")
    else
      try_service
        (productService.updateProduct productId (UpdateProductRequest.mk name price stock))
        (fun product => success 200 "Product updated successfully" (Some product))
        (fun message =>
           let statusCode := if JS.includes message "not found" then 404 else 400 in
           error statusCode message).

Definition deleteProduct (id : string) : Handler Product.t :=
  let productId := JS.parseInt id (Some 10) in
  if JS.isNaN productId then answer (error 400 "Invalid product ID")
  else
    try_service (productService.deleteProduct productId)
      (fun _ => success 200 "Product deleted successfully" None)
      (fun message =>
         let statusCode := if JS.includes message "not found" then 404 else 400 in
         error statusCode message).

End productController.

(** ** The order-placement workflow (services/orderService.ts)

    The repository declares the request types and the orders table, but the
    service itself is not part of the sources; it is modelled from its
    specification. *)

Module OrderItemInput.
(** [OrderItemInput] of src/types. *)
Record t : Type := mk { product_id : Z; quantity : Z }.
End OrderItemInput.

Module CreateOrderRequest.
(** [CreateOrderRequest] of src/types, with two fields modelled from the
    spec, which the order service (missing from the sources) is to receive:
    [idempotencyKey], the optional client key, and [totalAmount], a total
    the client may have put in the payload. *)
Record t : Type := mk {
  user_id : Z;
  items : list OrderItemInput.t;
  idempotencyKey : option string;
  totalAmount : option Z;
}.
End CreateOrderRequest.

(** Modelled from the spec: the machine-readable kinds of failure of the
    missing order service. *)
Inductive ErrorKind : Type :=
| validation_error
| not_found
| insufficient_stock
| transient_error.

#[global] Instance ErrorKind_eq_dec : EqDecision ErrorKind.
Proof. solve_decision. Defined.

(** Modelled from the spec: the typed failures of the missing order
    service, each with its human-readable message; a stock failure names
    the offending product and the quantity available. *)
Inductive OrderError : Type :=
| ValidationError (message : string)
| NotFoundError (message : string) (product_id : Z)
| InsufficientStockError (message : string) (product_id available : Z)
| TransientError (message : string).

(** Modelled from the spec: the kind a failure of the missing order service
    carries. *)
Definition kind (e : OrderError) : ErrorKind :=
  match e with
  | ValidationError _ => validation_error
  | NotFoundError _ _ => not_found
  | InsufficientStockError _ _ _ => insufficient_stock
  | TransientError _ => transient_error
  end.

(** Modelled from the spec: the status code the request layer of the
    missing order service is to send for each kind. *)
Definition spec_status_of_kind (k : ErrorKind) : Z :=
  match k with
  | validation_error => 400
  | not_found => 404
  | insufficient_stock => 409
  | transient_error => 503
  end.

Module Line.
(** Modelled from the spec: one line of the order the missing order service
    builds: product, quantity, and the unit price read under the row lock. *)
Record t : Type := mk { product_id : Z; quantity : Z; price : Z }.
End Line.

Module PlacedOrder.
(** Modelled from the spec: what the missing order service returns, the
    created order with its items. *)
Record t : Type := mk { order : Order.t; items : list OrderItem.t }.
End PlacedOrder.

#[global] Instance PlacedOrder_eq_dec : EqDecision PlacedOrder.t.
Proof. solve_decision. Defined.

Module orderService.

(** Modelled from the spec: the statements of the missing order service.
    SELECT id, name, price, stock, created_at FROM products WHERE id = $1
    FOR UPDATE: takes the row lock and reads the row. *)
Definition select_product_for_update (id : Z) : M string (list Product.t) :=
  _ ← Sql.roundtrip;
  Sql.read (fun d => filter (fun p => Product.id p = id) (products d)).

(** Modelled from the spec: INSERT INTO orders (user_id, total_amount)
    VALUES ($1, $2) RETURNING ... of the missing order service; the id is
    drawn from the sequence and the status defaults to pending. *)
Definition insert_order (user_id total_amount : Z) : M string (list Order.t) :=
  _ ← Sql.mutation;
  Sql.exec (fun w =>
    let i := orders_id_seq (seqs w) in
    let s := seqs w in
    let w1 := set_seqs (mkSeq (users_id_seq s) (products_id_seq s) (i + 1)
                              (order_items_id_seq s)) w in
    if Sql.nonempty (filter (fun o => Order.id o = i) (orders (db w))) then
      (Throw "duplicate key value violates unique constraint orders_pkey", w1)
    else
      let row := Order.mk i user_id total_amount PENDING (clock w) in
      (Return [row], set_db (set_orders (orders (db w) ++ [row]) (db w)) w1)).

(** Modelled from the spec: INSERT INTO order_items (order_id, product_id,
    quantity, price) VALUES ($1, $2, $3, $4) RETURNING ... of the missing
    order service. *)
Definition insert_order_item (order_id product_id quantity price : Z)
  : M string (list OrderItem.t) :=
  _ ← Sql.mutation;
  Sql.exec (fun w =>
    let i := order_items_id_seq (seqs w) in
    let s := seqs w in
    let w1 := set_seqs (mkSeq (users_id_seq s) (products_id_seq s) (orders_id_seq s)
                              (i + 1)) w in
    if Sql.nonempty (filter (fun it => OrderItem.id it = i) (order_items (db w))) then
      (Throw "duplicate key value violates unique constraint order_items_pkey", w1)
    else
      let row := OrderItem.mk i order_id product_id quantity price in
      (Return [row],
       set_db (set_order_items (order_items (db w) ++ [row]) (db w)) w1)).

(** Modelled from the spec: the row the stock decrement of the missing order
    service writes over [p] when it targets product [id]. *)
Definition with_stock_less (quantity id : Z) (p : Product.t) : Product.t :=
  if decide (Product.id p = id)
  then Product.mk (Product.id p) (Product.name p) (Product.price p)
                  (Product.stock p - quantity) (Product.created_at p)
  else p.

(** Modelled from the spec: UPDATE products SET stock = stock - $1 WHERE
    id = $2 of the missing order service. *)
Definition decrement_stock (quantity id : Z) : M string unit :=
  _ ← Sql.mutation;
  Sql.exec (fun w =>
    (Return (),
     set_db (set_products (with_stock_less quantity id <$> products (db w)) (db w)) w)).

(** Modelled from the spec: the statement of the missing order service that
    records under which idempotency key an order was created. *)
Definition insert_order_key (key : string) (order_id : Z) : M string unit :=
  _ ← Sql.mutation;
  Sql.exec (fun w =>
    (Return (), set_db (set_order_keys (order_keys (db w) ++ [(key, order_id)]) (db w)) w)).

(** Modelled from the spec: a step of the missing workflow; a storage
    failure during the transaction surfaces as a [TransientError]. *)
Definition step {A} (stmt : M string A) : M OrderError A :=
  try_catch stmt (fun e => throw (TransientError e)).

(** Modelled from the spec: the transactional scope of the missing workflow.
    BEGIN, the body, COMMIT; when the body or the commit fails, the tables
    are what they were at BEGIN. *)
Definition transaction {A} (body : M OrderError A) : M OrderError A :=
  fun w =>
    match step Sql.roundtrip w with
    | (Throw e, w0) => (Throw e, w0)
    | (Return _, w0) =>
        match body w0 with
        | (Return a, w1) =>
            match step Sql.roundtrip w1 with
            | (Return _, w2) => (Return a, w2)
            | (Throw e, w2) => (Throw e, set_db (db w) w2)
            end
        | (Throw e, w1) => (Throw e, set_db (db w) w1)
        end
    end.

(** Modelled from the spec: the duplicate-line policy of the missing
    workflow.  Lines for the same product are merged (their quantities
    added), and the lines are kept in ascending order of product id, the
    order in which the row locks are taken. *)
Fixpoint add_line (product_id quantity : Z) (lines : list OrderItemInput.t)
  : list OrderItemInput.t :=
  match lines with
  | [] => [OrderItemInput.mk product_id quantity]
  | l :: ls =>
      if decide (product_id = OrderItemInput.product_id l) then
        OrderItemInput.mk product_id (OrderItemInput.quantity l + quantity) :: ls
      else if product_id <? OrderItemInput.product_id l then
        OrderItemInput.mk product_id quantity :: l :: ls
      else l :: add_line product_id quantity ls
  end.

(** Modelled from the spec: merging of the request lines, see [add_line]. *)
Definition merge_items (items : list OrderItemInput.t) : list OrderItemInput.t :=
  foldr (fun it acc =>
           add_line (OrderItemInput.product_id it) (OrderItemInput.quantity it) acc)
        [] items.

(** Modelled from the spec: step 2 of the missing workflow, the check of
    one line against the row read under the lock.  An absent product is a
    [NotFoundError], a quantity above the stock an [InsufficientStockError];
    otherwise the line carries the price read. *)
Definition check_line (it : OrderItemInput.t) (found : list Product.t)
  : Outcome OrderError Line.t :=
  let pid := OrderItemInput.product_id it in
  let q := OrderItemInput.quantity it in
  match found with
  | [] => Throw (NotFoundError ("Product with ID " +:+ pretty pid +:+ " not found") pid)
  | p :: _ =>
      if Product.stock p <? q then
        Throw (InsufficientStockError ("Insufficient stock for product " +:+ pretty pid)
                                      pid (Product.stock p))
      else Return (Line.mk pid q (Product.price p))
  end.

(** Modelled from the spec: steps 1 and 2 of the missing workflow.  In lock
    order, lock and read each product, and check the line against it. *)
Fixpoint lock_and_check (items : list OrderItemInput.t) : M OrderError (list Line.t) :=
  match items with
  | [] => mret []
  | it :: rest =>
      found ← step (select_product_for_update (OrderItemInput.product_id it));
      line ← lift (check_line it found);
      lines ← lock_and_check rest;
      mret (line :: lines)
  end.

(** Modelled from the spec: step 3 of the missing workflow, the total as the
    sum of snapshot price times quantity. *)
Definition compute_total (lines : list Line.t) : Z :=
  foldr (fun l acc => Line.price l * Line.quantity l + acc) 0 lines.

(** Modelled from the spec: step 4 of the missing workflow, one OrderItem
    row per line with the snapshot price. *)
Fixpoint insert_items (order_id : Z) (lines : list Line.t)
  : M OrderError (list OrderItem.t) :=
  match lines with
  | [] => mret []
  | l :: rest =>
      inserted ← step (insert_order_item order_id (Line.product_id l)
                                         (Line.quantity l) (Line.price l));
      match inserted with
      | [] => throw (TransientError "Failed to create order item")
      | row :: _ =>
          rows ← insert_items order_id rest;
          mret (row :: rows)
      end
  end.

(** Modelled from the spec: step 4 of the missing workflow, the stock
    decrement of every line. *)
Fixpoint decrement_all (lines : list Line.t) : M OrderError unit :=
  match lines with
  | [] => mret ()
  | l :: rest =>
      _ ← step (decrement_stock (Line.quantity l) (Line.product_id l));
      decrement_all rest
  end.

(** Modelled from the spec: the idempotency lookup of the missing workflow,
    the order created under [key] with its items, if there is one. *)
Definition find_order_by_key (key : option string) (d : Db) : option PlacedOrder.t :=
  k ← key;
  entry ← head (filter (fun e => e.1 = k) (order_keys d));
  o ← head (filter (fun o => Order.id o = entry.2) (orders d));
  Some (PlacedOrder.mk o
          (filter (fun it => OrderItem.order_id it = Order.id o) (order_items d))).

(** Modelled from the spec: the validation of the missing workflow, checked
    before any write.  The user lookup is the query of
    [userService.userExists]. *)
Definition validate (request : CreateOrderRequest.t) (d : Db) : option string :=
  if negb (Sql.nonempty (CreateOrderRequest.items request)) then
    Some "items must not be empty"
  else if negb (forallb (fun it => 0 <? OrderItemInput.quantity it)
                        (CreateOrderRequest.items request)) then
    Some "every quantity must be a positive integer"
  else if negb (Sql.nonempty
                  (filter (fun u => User.id u = CreateOrderRequest.user_id request)
                          (users d))) then
    Some "userId does not reference an existing user"
  else None.

(** Modelled from the spec: the writes of the missing workflow for the
    checked lines, inside the transaction. *)
Definition create_order (request : CreateOrderRequest.t) (lines : list Line.t)
  : M OrderError PlacedOrder.t :=
  created ← step (insert_order (CreateOrderRequest.user_id request)
                               (compute_total lines));
  match created with
  | [] => throw (TransientError "Failed to create order")
  | o :: _ =>
      rows ← insert_items (Order.id o) lines;
      _ ← decrement_all lines;
      _ ← match CreateOrderRequest.idempotencyKey request with
          | Some k => step (insert_order_key k (Order.id o))
          | None => mret ()
          end;
      mret (PlacedOrder.mk o rows)
  end.

(** Modelled from the spec: [placeOrder], the entry point of the missing
    order service.  Validation first, then the idempotency lookup, then the
    transaction: lock and check in ascending product order, compute the
    total, insert the order and its items, decrement the stock, commit. *)
Definition placeOrder (request : CreateOrderRequest.t) : M OrderError PlacedOrder.t :=
  fun w =>
    match validate request (db w) with
    | Some msg => (Throw (ValidationError msg), w)
    | None =>
        match find_order_by_key (CreateOrderRequest.idempotencyKey request) (db w) with
        | Some existing => (Return existing, w)
        | None =>
            transaction
              (lines ← lock_and_check (merge_items (CreateOrderRequest.items request));
               create_order request lines) w
        end
    end.

End orderService.

(** ** Concurrent placements

    Modelled from the spec: the missing order service run by several clients
    at once.  Every round trip of a placement is one atomic step of the
    server; a row lock taken by [select_product_for_update] is held until
    the client's transaction ends, and the writes of a transaction become
    visible together, at its commit. *)

Module Concurrent.

(** Modelled from the spec: where a client of the missing order service
    stands.  [Locking todo lines]: inside the transaction, [lines] checked
    under their locks, [todo] still to lock. *)
Inductive Phase : Type :=
| Ready
| Locking (todo : list OrderItemInput.t) (lines : list Line.t)
| Finished (result : Outcome OrderError PlacedOrder.t).

(** Modelled from the spec: a client of the missing order service. *)
Record Client : Type := mkClient {
  request : CreateOrderRequest.t;
  phase : Phase;
}.

(** Modelled from the spec: the server shared by the clients of the missing
    order service; [locks] pairs a locked product id with the index of the
    client holding the lock. *)
Record State : Type := mkState {
  world : World;
  locks : list (Z * nat);
  clients : list Client;
}.

(** Modelled from the spec: the end of a transaction releases its locks. *)
Definition release (i : nat) (held : list (Z * nat)) : list (Z * nat) :=
  filter (fun l => l.2 ≠ i) held.

(** Modelled from the spec: a row lock held by another client blocks. *)
Definition held_by_other (pid : Z) (i : nat) (held : list (Z * nat)) : bool :=
  Sql.nonempty (filter (fun l => l.1 = pid ∧ l.2 ≠ i) held).

(** Modelled from the spec: client [i] leaves with [result]. *)
Definition finish (i : nat) (req : CreateOrderRequest.t)
    (result : Outcome OrderError PlacedOrder.t) (w : World) (st : State) : State :=
  mkState w (release i (locks st)) (<[i := mkClient req (Finished result)]> (clients st)).

(** Modelled from the spec: client [i] moves on to [ph]. *)
Definition advance (i : nat) (req : CreateOrderRequest.t) (ph : Phase)
    (w : World) (held : list (Z * nat)) (st : State) : State :=
  mkState w held (<[i := mkClient req ph]> (clients st)).

(** Modelled from the spec: one step of client [i] of the missing order
    service, [None] when the client has finished or waits for a lock.  The
    steps are those of [orderService.placeOrder]: validation and idempotency
    lookup with BEGIN; one lock-and-check per line; the writes with COMMIT. *)
Definition client_step (i : nat) (st : State) : option State :=
  c ← clients st !! i;
  let w := world st in
  let req := request c in
  match phase c with
  | Ready =>
      match orderService.validate req (db w) with
      | Some msg => Some (finish i req (Throw (ValidationError msg)) w st)
      | None =>
          match orderService.find_order_by_key
                  (CreateOrderRequest.idempotencyKey req) (db w) with
          | Some existing => Some (finish i req (Return existing) w st)
          | None =>
              match orderService.step Sql.roundtrip w with
              | (Throw e, w') => Some (finish i req (Throw e) w' st)
              | (Return _, w') =>
                  Some (advance i req
                          (Locking (orderService.merge_items
                                      (CreateOrderRequest.items req)) [])
                          w' (locks st) st)
              end
          end
      end
  | Locking (it :: rest) lines =>
      let pid := OrderItemInput.product_id it in
      if held_by_other pid i (locks st) then None
      else
        match orderService.step (orderService.select_product_for_update pid) w with
        | (Throw e, w') => Some (finish i req (Throw e) w' st)
        | (Return found, w') =>
            match orderService.check_line it found with
            | Throw e => Some (finish i req (Throw e) w' st)
            | Return line =>
                Some (advance i req (Locking rest (lines ++ [line]))
                        w' ((pid, i) :: locks st) st)
            end
        end
  | Locking [] lines =>
      match (po ← orderService.create_order req lines;
             _ ← orderService.step Sql.roundtrip;
             mret po) w with
      | (Return po, w') => Some (finish i req (Return po) w' st)
      | (Throw e, w') => Some (finish i req (Throw e) (set_db (db w) w') st)
      end
  | Finished _ => None
  end.

(** Modelled from the spec: the scheduler picks any client that can move. *)
Definition step (st st' : State) : Prop :=
  ∃ i, client_step i st = Some st'.

(** Modelled from the spec: [run n st st']: an interleaving of [n] steps. *)
Inductive run : nat -> State -> State -> Prop :=
| run_done st : run 0 st st
| run_step n st st1 st2 : step st st1 -> run n st1 st2 -> run (S n) st st2.

(** Modelled from the spec: no client can move any more. *)
Definition terminal (st : State) : Prop :=
  ∀ st', ¬ step st st'.

(** Modelled from the spec: all clients arrive at once, none has begun. *)
Definition init (w : World) (requests : list CreateOrderRequest.t) : State :=
  mkState w [] ((fun r => mkClient r Ready) <$> requests).

(** Modelled from the spec: the client's placement succeeded. *)
Definition is_success (c : Client) : bool :=
  match phase c with
  | Finished (Return _) => true
  | _ => false
  end.

(** Modelled from the spec: the client's placement was refused with an
    [InsufficientStockError]. *)
Definition is_stock_failure (c : Client) : bool :=
  match phase c with
  | Finished (Throw (InsufficientStockError _ _ _)) => true
  | _ => false
  end.

(** Modelled from the spec: how many placements have succeeded. *)
Definition successes (st : State) : nat := length (List.filter is_success (clients st)).

(** Modelled from the spec: how many placements were refused for lack of
    stock. *)
Definition stock_failures (st : State) : nat :=
  length (List.filter is_stock_failure (clients st)).

End Concurrent.

(** The stock on record for a product. *)
Definition stock_of (product_id : Z) (d : Db) : option Z :=
  Product.stock <$> head (filter (fun p => Product.id p = product_id) (products d)).

(** ** Routing (routes/users.ts, routes/products.ts) *)

Inductive ApiRequest : Type :=
| POST_users (body : UpdateUserRequest.t)
| GET_users (page limit : JS.QueryValue)
| GET_users_id (id : string)
| PUT_users_id (id : string) (body : UpdateUserRequest.t)
| DELETE_users_id (id : string)
| POST_products (body : UpdateProductRequest.t)
| GET_products (page limit : JS.QueryValue)
| GET_products_id (id : string)
| PUT_products_id (id : string) (body : UpdateProductRequest.t)
| DELETE_products_id (id : string).

(** What goes on the wire whatever the payload: code, status and message. *)
Definition envelope {D} (h : Handler D) : Handler unit :=
  fun w =>
    let '(r, w') := h w in
    (mkResponse (statusCode r) (status r) (message r) None, w').

Definition router (req : ApiRequest) : Handler unit :=
  match req with
  | POST_users body => envelope (userController.createUser body)
  | GET_users p l => envelope (userController.getAllUsers p l)
  | GET_users_id id => envelope (userController.getUserById id)
  | PUT_users_id id body => envelope (userController.updateUser id body)
  | DELETE_users_id id => envelope (userController.deleteUser id)
  | POST_products body => envelope (productController.createProduct body)
  | GET_products p l => envelope (productController.getAllProducts p l)
  | GET_products_id id => envelope (productController.getProductById id)
  | PUT_products_id id body => envelope (productController.updateProduct id body)
  | DELETE_products_id id => envelope (productController.deleteProduct id)
  end.

(** The catch block of each handler: the status code it sends for the
    message of the error it caught. *)
Definition catch_code (req : ApiRequest) (message : string) : Z :=
  match req with
  | POST_users _ | POST_products _ => 400
  | GET_users _ _ | GET_users_id _ | GET_products _ _ | GET_products_id _ => 500
  | PUT_users_id _ _ | DELETE_users_id _ | PUT_products_id _ _ | DELETE_products_id _ =>
      if JS.includes message "not found" then 404 else 400
  end.

(** The error answers the handlers give on their own, before or after a
    service call that did not throw. *)
Definition own_answers : list (Z * string) :=
  [ (400, "Name and email are required");
    (400, "Invalid user ID");
    (404, "User not found");
    (400, "At least one field (name or email) must be provided for update");
    (400, "Name, price and stock are required");
    (400, "Invalid product ID");
    (404, "Product not found");
    (400, "At least one field (name, price or stock) must be provided for update") ].

(** The outcome of a service call as the request layer tells it apart: an
    error thrown with its message, or a value returned, of which [present]
    says whether it is a row to send (the lookups return null for a missing
    row). *)
Definition outcome_of {A} (present : A -> bool) (call : M string A) : M string bool :=
  fun w =>
    match call w with
    | (Return a, w') => (Return (present a), w')
    | (Throw message, w') => (Throw message, w')
    end.

(** The service call behind a request: the operation the route stands for,
    with the arguments read off the request; [None] when the request is
    malformed (a required field missing, an id that is not a number) and
    there is nothing to call. *)
Definition service_call (req : ApiRequest) : option (M string bool) :=
  let some {A} (call : M string A) := Some (outcome_of (fun _ => true) call) in
  let with_id (id : string) (call : JS.number -> option (M string bool)) :=
    if JS.isNaN (JS.parseInt id (Some 10)) then None
    else call (JS.parseInt id (Some 10)) in
  match req with
  | POST_users body =>
      match UpdateUserRequest.name body, UpdateUserRequest.email body with
      | Some name, Some email =>
          if String.eqb name "" || String.eqb email "" then None
          else some (userService.createUser (CreateUserRequest.mk name email))
      | _, _ => None
      end
  | GET_users p l => some (userService.getAllUsers (page_param p) (limit_param l))
  | GET_users_id id =>
      with_id id (fun userId =>
        Some (outcome_of (fun user => bool_decide (is_Some user))
                         (userService.getUserById userId)))
  | PUT_users_id id body =>
      with_id id (fun userId =>
        if truthy_str (UpdateUserRequest.name body)
           || truthy_str (UpdateUserRequest.email body)
        then some (userService.updateUser userId body)
        else None)
  | DELETE_users_id id => with_id id (fun userId => some (userService.deleteUser userId))
  | POST_products body =>
      match UpdateProductRequest.name body, UpdateProductRequest.price body,
            UpdateProductRequest.stock body with
      | Some name, Some price, Some stock =>
          if String.eqb name "" || (price =? 0) || (stock =? 0) then None
          else some (productService.createProduct (CreateProductRequest.mk name price stock))
      | _, _, _ => None
      end
  | GET_products p l => some (productService.getAllProducts (page_param p) (limit_param l))
  | GET_products_id id =>
      with_id id (fun productId =>
        Some (outcome_of (fun product => bool_decide (is_Some product))
                         (productService.getProductById productId)))
  | PUT_products_id id body =>
      with_id id (fun productId =>
        if truthy_str (UpdateProductRequest.name body)
           || truthy_num (UpdateProductRequest.price body)
           || truthy_num (UpdateProductRequest.stock body)
        then some (productService.updateProduct productId body)
        else None)
  | DELETE_products_id id =>
      with_id id (fun productId => some (productService.deleteProduct productId))
  end.

(** The code of a success: 201 for a creation, 200 otherwise. *)
Definition success_code (req : ApiRequest) : Z :=
  match req with
  | POST_users _ | POST_products _ => 201
  | _ => 200
  end.

(** ** The migration runner (scripts/migrate.ts) *)

Module migrate.

(** *** The string methods it uses *)

(** [s.endsWith(suffix)]: some tail of [s] is [suffix]. *)
Fixpoint endsWith (s suffix : string) : bool :=
  String.eqb s suffix ||
  match s with
  | String _ s' => endsWith s' suffix
  | EmptyString => false
  end.

(** [s.trimEnd()] and [s.trim()]; the white space is that of [parseInt]. *)
Fixpoint trim_end (s : string) : string :=
  match s with
  | String c s' =>
      match trim_end s' with
      | EmptyString =>
          if JS.is_white_space c then EmptyString else String c EmptyString
      | t => String c t
      end
  | EmptyString => EmptyString
  end.

Definition trim (s : string) : string := trim_end (JS.trim_start s).

(** [s.split(sep)] for a separator of one code unit. *)
Fixpoint split (sep : ascii) (s : string) : list string :=
  match s with
  | String c s' =>
      if Ascii.eqb c sep then EmptyString :: split sep s'
      else
        match split sep s' with
        | piece :: pieces => String c piece :: pieces
        | [] => [String c EmptyString]
        end
  | EmptyString => [EmptyString]
  end.

(** [files.sort()]: the default order compares code units. *)
Definition sort (files : list string) : list string :=
  merge_sort (fun a b => String.leb a b) files.

(** *** The file system and the server *)

(** The migrations directory: the content of each file by name (it holds
    files only). *)
Definition Directory : Type := gmap string string.

Definition readdirSync (dir : Directory) : list string := (map_to_list dir).*1.

Definition readFileSync (dir : Directory) (file : string) : Outcome string string :=
  match dir !! file with
  | Some content => Return content
  | None => Throw "ENOENT: no such file or directory"
  end.

(** The server as the script sees it: what the statements of the
    migrations have built so far, the migration_name column of
    schema_migrations in the order of executed_at (the empty list as long as
    the table is not there), and the fate of the coming round trips. *)
Record Server (S : Type) : Type := mkServer {
  schema : S;
  schema_migrations : list string;
  faults : list (option string);
}.
Arguments mkServer {S} _ _ _.
Arguments schema {S} _.
Arguments schema_migrations {S} _.
Arguments faults {S} _.

Definition Script (S A : Type) : Type := Server S -> Outcome string A * Server S.

#[global] Instance Script_ret {S} : MRet (Script S) :=
  fun A a st => (Return a, st).
#[global] Instance Script_bind {S} : MBind (Script S) :=
  fun A B k m st =>
    match m st with
    | (Return a, st') => k a st'
    | (Throw e, st') => (Throw e, st')
    end.

(** What the server does once the statement has reached it. *)
Definition server {S A} (f : Server S -> Outcome string A * Server S)
  : Script S A := f.

Definition roundtrip {S} : Script S unit :=
  fun st =>
    let st' := mkServer (schema st) (schema_migrations st) (tail (faults st)) in
    match head (faults st) with
    | Some (Some e) => (Throw e, st')
    | _ => (Return (), st')
    end.

(** [sql.query(statement)]: what a statement does to the schema is left to
    [query]; a statement that fails changes nothing. *)
Definition sql_query {S} (query : string -> S -> Outcome string S)
    (statement : string) : Script S unit :=
  _ ← roundtrip;
  server (fun st =>
    match query statement (schema st) with
    | Return s' => (Return (), mkServer s' (schema_migrations st) (faults st))
    | Throw e => (Throw e, st)
    end).

(** INSERT INTO schema_migrations (migration_name) VALUES ($1)
    ON CONFLICT (migration_name) DO NOTHING *)
Definition insert_migration {S} (name : string) : Script S unit :=
  _ ← roundtrip;
  server (fun st =>
    if bool_decide (name ∈ schema_migrations st) then (Return (), st)
    else (Return (),
          mkServer (schema st) (schema_migrations st ++ [name]) (faults st))).

(** *** The script *)

Record Migration : Type := mkMigration { name : string; content : string }.

Fixpoint read_all (dir : Directory) (files : list string)
  : Outcome string (list Migration) :=
  match files with
  | [] => Return []
  | file :: files' =>
      match readFileSync dir file with
      | Return content =>
          match read_all dir files' with
          | Return migrations => Return (mkMigration file content :: migrations)
          | Throw e => Throw e
          end
      | Throw e => Throw e
      end
  end.

Definition getMigrations (dir : Directory) : Outcome string (list Migration) :=
  let files := List.filter (fun file => endsWith file ".sql") (readdirSync dir) in
  read_all dir (sort files).

(** CREATE TABLE IF NOT EXISTS schema_migrations (...) *)
Definition createMigrationsTable {S} : Script S unit := roundtrip.

(** SELECT migration_name FROM schema_migrations ORDER BY executed_at *)
Definition getExecutedMigrations {S} : Script S (list string) :=
  _ ← roundtrip;
  server (fun st => (Return (schema_migrations st), st)).

Definition statements (content : string) : list string :=
  List.filter (fun stmt => (0 <? String.length stmt)%nat)
              (trim <$> split ";" content).

Fixpoint run_statements {S} (query : string -> S -> Outcome string S)
    (stmts : list string) : Script S unit :=
  match stmts with
  | [] => mret ()
  | statement :: stmts' =>
      _ ← sql_query query statement;
      run_statements query stmts'
  end.

Definition runMigration {S} (query : string -> S -> Outcome string S)
    (name content : string) : Script S unit :=
  _ ← run_statements query (statements content);
  insert_migration name.

(** The loop over the migrations, from the count [executedCount]. *)
Fixpoint run_pending {S} (query : string -> S -> Outcome string S)
    (executedMigrations : list string) (migrations : list Migration)
    (executedCount : nat) : Script S nat :=
  match migrations with
  | [] => mret executedCount
  | migration :: migrations' =>
      if negb (bool_decide (name migration ∈ executedMigrations)) then
        _ ← runMigration query (name migration) (content migration);
        run_pending query executedMigrations migrations' (Datatypes.S executedCount)
      else run_pending query executedMigrations migrations' executedCount
  end.

(** How the script ends: it returns, having found no migration or having
    applied [executedCount] of them, or it logs the error and exits with
    code 1. *)
Inductive Run : Type :=
| NoMigrations
| Completed (executedCount : nat)
| Exit1 (error : string).

Definition runMigrations {S} (query : string -> S -> Outcome string S)
    (dir : Directory) (st : Server S) : Run * Server S :=
  match
    (_ ← createMigrationsTable;
     migrations ← server (fun st => (getMigrations dir, st));
     executedMigrations ← getExecutedMigrations;
     match migrations with
     | [] => mret NoMigrations
     | _ =>
         executedCount ← run_pending query executedMigrations migrations 0;
         mret (Completed executedCount)
     end) st
  with
  | (Return r, st') => (r, st')
  | (Throw e, st') => (Exit1 e, st')
  end.

End migrate.

(** ** Configuration (config/env.ts) *)

Module env.

Record Config : Type := mkConfig {
  database_url : string;
  server_port : JS.number;
  server_host : string;
  server_nodeEnv : string;
  logging_level : string;
}.

(** [a || b] on an environment variable and a default. *)
Definition or_default (a : option string) (b : string) : string :=
  if truthy_str a then a ?? "" else b.

Definition requiredEnvVars : list string := ["DATABASE_URL"].

(** The module body: it throws or exports [config]. *)
Definition config (process_env : string -> option string) : Outcome string Config :=
  let missingEnvVars :=
    List.filter (fun envVar => negb (truthy_str (process_env envVar)))
                requiredEnvVars in
  if Sql.nonempty missingEnvVars then
    Throw ("Missing required environment variables: "
           +:+ String.concat ", " missingEnvVars)
  else
    Return (mkConfig (process_env "DATABASE_URL" ?? "")
                     (JS.parseInt (or_default (process_env "PORT") "3000") (Some 10))
                     (or_default (process_env "HOST") "localhost")
                     (or_default (process_env "NODE_ENV") "development")
                     (or_default (process_env "LOG_LEVEL") "info")).

End env.

(** ** Notions used to state the properties *)

(** Every stock on record is non-negative. *)
Definition stocks_nonneg (d : Db) : Prop :=
  ∀ p, p ∈ products d -> 0 <= Product.stock p.

(** The primary key of products: no two rows share an id. *)
Definition products_pk (d : Db) : Prop :=
  NoDup (Product.id <$> products d).

(** The quantity a request orders of a product, all its lines together. *)
Definition ordered_quantity (items : list OrderItemInput.t) (product_id : Z) : Z :=
  foldr (fun it acc =>
           if decide (OrderItemInput.product_id it = product_id)
           then OrderItemInput.quantity it + acc else acc)
        0 items.

(** A product row with the ordered quantity taken off its stock. *)
Definition with_ordered_stock (items : list OrderItemInput.t) (p : Product.t)
  : Product.t :=
  Product.mk (Product.id p) (Product.name p) (Product.price p)
             (Product.stock p - ordered_quantity items (Product.id p))
             (Product.created_at p).

(** The price on record for a product. *)
Definition price_of (product_id : Z) (d : Db) : option Z :=
  Product.price <$> head (filter (fun p => Product.id p = product_id) (products d)).

(** A line checked against the tables: the product is on record with at
    least the quantity in stock, and the line carries its price. *)
Definition checked (d : Db) (it : OrderItemInput.t) (line : Line.t) : Prop :=
  ∃ p, head (filter (fun p => Product.id p = OrderItemInput.product_id it) (products d))
       = Some p
       ∧ OrderItemInput.quantity it <= Product.stock p
       ∧ line = Line.mk (OrderItemInput.product_id it) (OrderItemInput.quantity it)
                        (Product.price p).

(** An order item row written for a line of order [order_id]. *)
Definition item_of_line (order_id : Z) (line : Line.t) (row : OrderItem.t) : Prop :=
  OrderItem.order_id row = order_id
  ∧ OrderItem.product_id row = Line.product_id line
  ∧ OrderItem.quantity row = Line.quantity line
  ∧ OrderItem.price row = Line.price line.

(** The products after the stock decrements of the lines, one by one. *)
Definition decremented (lines : list Line.t) (ps : list Product.t) : list Product.t :=
  foldl (fun ps l =>
           orderService.with_stock_less (Line.quantity l) (Line.product_id l) <$> ps)
        ps lines.

(** The key record an order leaves behind. *)
Definition key_entry (key : option string) (order_id : Z) : list (string * Z) :=
  match key with
  | Some k => [(k, order_id)]
  | None => []
  end.

(** The request line a checked line stands for. *)
Definition line_item (l : Line.t) : OrderItemInput.t :=
  OrderItemInput.mk (Line.product_id l) (Line.quantity l).

(** Lines in strictly ascending order of product id. *)
Definition ascending (items : list OrderItemInput.t) : Prop :=
  StronglySorted
    (fun a b => OrderItemInput.product_id a < OrderItemInput.product_id b) items.

(** The sum of price times quantity over order item rows. *)
Definition items_total (rows : list OrderItem.t) : Z :=
  foldr (fun row acc => OrderItem.price row * OrderItem.quantity row + acc) 0 rows.

(** The same request with another client-supplied total. *)
Definition with_client_total (t : option Z) (request : CreateOrderRequest.t)
  : CreateOrderRequest.t :=
  CreateOrderRequest.mk (CreateOrderRequest.user_id request)
                        (CreateOrderRequest.items request)
                        (CreateOrderRequest.idempotencyKey request) t.

(** The foreign keys into orders: every order item and every key record
    refers to an order on record. *)
Definition references_orders (d : Db) : Prop :=
  (∀ it, it ∈ order_items d -> ∃ o, o ∈ orders d ∧ Order.id o = OrderItem.order_id it)
  ∧ (∀ e, e ∈ order_keys d -> ∃ o, o ∈ orders d ∧ Order.id o = e.2).

(** An order item row written for a merged request line of order [order_id]. *)
Definition item_of_request_line (order_id : Z) (it : OrderItemInput.t)
    (row : OrderItem.t) : Prop :=
  OrderItem.order_id row = order_id
  ∧ OrderItem.product_id row = OrderItemInput.product_id it
  ∧ OrderItem.quantity row = OrderItemInput.quantity it.

(** ** Notions used for concurrent placements *)

(** A request for one unit of product [P], without an idempotency key, by a
    user on record. *)
Definition unit_request (P : Z) (registered : list User.t)
    (req : CreateOrderRequest.t) : Prop :=
  CreateOrderRequest.items req = [OrderItemInput.mk P 1]
  ∧ CreateOrderRequest.idempotencyKey req = None
  ∧ ∃ u, u ∈ registered ∧ User.id u = CreateOrderRequest.user_id req.

(** The sequences of orders and order items are ahead of the ids in use. *)
Definition sequences_ahead (w : World) : Prop :=
  (∀ o, o ∈ orders (db w) -> Order.id o < orders_id_seq (seqs w))
  ∧ (∀ it, it ∈ order_items (db w) -> OrderItem.id it < order_items_id_seq (seqs w)).

(** The lock table when [h] is the client holding the lock on [P], if any. *)
Definition holder_locks (P : Z) (h : option nat) : list (Z * nat) :=
  match h with
  | Some i => [(P, i)]
  | None => []
  end.

(** Where client [i] may stand when the stock of [P] is [s] and [h] holds
    its lock. *)
Definition client_ok (P s : Z) (h : option nat) (i : nat) (c : Concurrent.Client)
  : Prop :=
  match Concurrent.phase c with
  | Concurrent.Ready => h ≠ Some i
  | Concurrent.Locking [it] [] => it = OrderItemInput.mk P 1 ∧ h ≠ Some i
  | Concurrent.Locking [] [line] =>
      h = Some i ∧ Line.product_id line = P ∧ Line.quantity line = 1 ∧ 1 <= s
  | Concurrent.Finished (Return _) => h ≠ Some i
  | Concurrent.Finished (Throw (InsufficientStockError _ _ _)) => s = 0 ∧ h ≠ Some i
  | _ => False
  end.

(** What holds of every state the clients can reach from a stock of [S]. *)
Definition placements_invariant (P S : Z) (registered : list User.t) (N : nat)
    (st : Concurrent.State) : Prop :=
  ∃ s h,
    faults (Concurrent.world st) = []
    ∧ users (db (Concurrent.world st)) = registered
    ∧ sequences_ahead (Concurrent.world st)
    ∧ stock_of P (db (Concurrent.world st)) = Some s
    ∧ 0 <= s
    ∧ s + Z.of_nat (Concurrent.successes st) = S
    ∧ Concurrent.locks st = holder_locks P h
    ∧ length (Concurrent.clients st) = N
    ∧ (∀ i, h = Some i ->
            ∃ c line, Concurrent.clients st !! i = Some c
                      ∧ Concurrent.phase c = Concurrent.Locking [] [line])
    ∧ ∀ i c, Concurrent.clients st !! i = Some c ->
             unit_request P registered (Concurrent.request c) ∧ client_ok P s h i c.

(** The client has its answer. *)
Definition finished (c : Concurrent.Client) : Prop :=
  ∃ r, Concurrent.phase c = Concurrent.Finished r.

(** The steps a client still has to take, at most. *)
Definition remaining (c : Concurrent.Client) : nat :=
  match Concurrent.phase c with
  | Concurrent.Ready =>
      length (orderService.merge_items
                (CreateOrderRequest.items (Concurrent.request c))) + 2
  | Concurrent.Locking todo _ => length todo + 1
  | Concurrent.Finished _ => 0
  end.

(** The steps all clients together still have to take, at most. *)
Definition remaining_steps (st : Concurrent.State) : nat :=
  sum_list (remaining <$> Concurrent.clients st).

(** The states one step away. *)
Definition next_states (st : Concurrent.State) : list Concurrent.State :=
  omap (fun i => Concurrent.client_step i st) (seq 0 (length (Concurrent.clients st))).

(** The states in which the interleavings of at most [fuel] steps end. *)
Fixpoint explore (fuel : nat) (st : Concurrent.State) : list Concurrent.State :=
  match fuel with
  | O => [st]
  | Datatypes.S fuel' =>
      match next_states st with
      | [] => [st]
      | nexts => nexts ≫= explore fuel'
      end
  end.

(** ** Notions used for the services, the request layer and the migrations *)

(** A call that leaves an aspect [f] of the world as it finds it, however
    it ends. *)
Definition keeps {X E A} (f : World -> X) (m : M E A) : Prop :=
  ∀ w r w', m w = (r, w') -> f w' = f w.

(** Likewise for a handler. *)
Definition answers_keeping {X D} (f : World -> X) (h : Handler D) : Prop :=
  ∀ w, f (h w).2 = f w.

(** Everything but the pending faults: the tables, the sequences, the clock
    and the count of INSERT, UPDATE and DELETE statements. *)
Definition stored (w : World) : Db * Sequences * Z * nat :=
  (db w, seqs w, clock w, mutations w).

(** The tables other than users, and other than products. *)
Definition beside_users (w : World)
  : list Product.t * list Order.t * list OrderItem.t * list (string * Z) :=
  (products (db w), orders (db w), order_items (db w), order_keys (db w)).

Definition beside_products (w : World)
  : list User.t * list Order.t * list OrderItem.t * list (string * Z) :=
  (users (db w), orders (db w), order_items (db w), order_keys (db w)).

(** What a request leaves untouched: a product route every table but
    products, a user route every table but users, except that deleting a
    user cascades to the orders and is only known to spare the products. *)
Definition untouched (req : ApiRequest) (w w' : World) : Prop :=
  match req with
  | POST_products _ | GET_products _ _ | GET_products_id _
  | PUT_products_id _ _ | DELETE_products_id _ => beside_products w' = beside_products w
  | DELETE_users_id _ => products (db w') = products (db w)
  | _ => beside_users w' = beside_users w
  end.

(** The string starts, after white space and a sign, with a decimal digit. *)
Definition leading_digit (s : string) : bool :=
  match (JS.strip_sign (JS.trim_start s)).2 with
  | String c _ => (48 <=? JS.code c) && (JS.code c <=? 57)
  | EmptyString => false
  end.

(** A field of a body that is missing, empty or zero. *)
Definition blank (s : option string) : Prop := s = None ∨ s = Some "".
Definition zero (z : option Z) : Prop := z = None ∨ z = Some 0.

(** The primary key of users, and its UNIQUE email. *)
Definition users_pk (d : Db) : Prop := NoDup (User.id <$> users d).
Definition users_email_key (d : Db) : Prop := NoDup (User.email <$> users d).

(** No two products share a name. *)
Definition product_names_unique (d : Db) : Prop := NoDup (Product.name <$> products d).

(** Newest first. *)
Definition newest_first {A} (key : A -> Z) (l : list A) : Prop :=
  StronglySorted (fun a b => key b <= key a) l.

(** The rows the list services hand out for page [p] at [limit] rows a page
    (nothing when the call throws). *)
Definition products_listed (limit : Z) (w : World) (p : nat) : list Product.t :=
  match productService.getAllProducts (JS.Fin (Z.of_nat p)) (JS.Fin limit) w with
  | (Return (products, _), _) => products
  | _ => []
  end.

Definition users_listed (limit : Z) (w : World) (p : nat) : list User.t :=
  match userService.getAllUsers (JS.Fin (Z.of_nat p)) (JS.Fin limit) w with
  | (Return (users, _), _) => users
  | _ => []
  end.

(** The names of the migrations of a directory, in the order of the script. *)
Definition migration_files (dir : migrate.Directory) : list string :=
  migrate.sort (List.filter (fun file => migrate.endsWith file ".sql")
                            (migrate.readdirSync dir)).

(** The migrations the script has yet to apply. *)
Definition pending_migrations {S} (dir : migrate.Directory) (st : migrate.Server S)
  : list string :=
  filter (fun file => file ∉ migrate.schema_migrations st) (migration_files dir).

(** The code units of a string. *)
Fixpoint code_units (s : string) : list ascii :=
  match s with
  | String c s' => c :: code_units s'
  | EmptyString => []
  end.

(** ** Sample data *)

Definition sample_db : Db :=
  mkDb [User.mk 1 "Ann" "ann@example.com" 0; User.mk 2 "Bob" "bob@example.com" 0]
       [Product.mk 1 "Laptop Pro" 99999 10 0; Product.mk 2 "Monitor 27" 29999 5 0]
       [] [] [].

Definition sample_world : World :=
  mkWorld sample_db (mkSeq 3 3 1 1) 1000 [] 0.

(** The connection is lost at the first round trip. *)
Definition sample_world_down : World :=
  set_faults [Some "Connection terminated unexpectedly"] sample_world.

(** An update of the price of product 1 alone, and of the name of user 2
    alone. *)
Definition sample_price_update : UpdateProductRequest.t :=
  UpdateProductRequest.mk None (Some 89999) None.

Definition sample_price_updated : Outcome string Product.t * World :=
  Eval vm_compute in
    productService.updateProduct (JS.Fin 1) sample_price_update sample_world.

Definition sample_name_update : UpdateUserRequest.t :=
  UpdateUserRequest.mk (Some "Robert") None.

Definition sample_name_updated : Outcome string User.t * World :=
  Eval vm_compute in
    userService.updateUser (JS.Fin 2) sample_name_update sample_world.

(** An order by user 1 for two laptops and, on two lines, two monitors,
    with an idempotency key and a total of the client's own. *)
Definition sample_order : CreateOrderRequest.t :=
  CreateOrderRequest.mk 1
    [OrderItemInput.mk 2 1; OrderItemInput.mk 1 2; OrderItemInput.mk 2 1]
    (Some "order-001") (Some 1).

Definition sample_placed : Outcome OrderError PlacedOrder.t * World :=
  Eval vm_compute in orderService.placeOrder sample_order sample_world.

(** An order without items. *)
Definition sample_empty_order : CreateOrderRequest.t :=
  CreateOrderRequest.mk 1 [] None None.

(** Seven clients, each after one of the five monitors. *)
Definition sample_rush : list CreateOrderRequest.t :=
  replicate 7 (CreateOrderRequest.mk 2 [OrderItemInput.mk 2 1] None None).

(** Two clients, each after three of the five monitors. *)
Definition sample_pair : list CreateOrderRequest.t :=
  [CreateOrderRequest.mk 1 [OrderItemInput.mk 2 3] None None;
   CreateOrderRequest.mk 2 [OrderItemInput.mk 2 3] None None].

(** The sample tables with rows created at different times. *)
Definition sample_world_dated : World :=
  set_db (mkDb [User.mk 1 "Ann" "ann@example.com" 5;
                User.mk 2 "Bob" "bob@example.com" 7]
               [Product.mk 1 "Laptop Pro" 99999 10 10;
                Product.mk 2 "Monitor 27" 29999 5 20]
               [] [] [])
         sample_world.

(** The sample tables with a product whose name reads like an error
    message. *)
Definition sample_world_odd : World :=
  set_db (set_products [Product.mk 1 "Laptop Pro" 99999 10 0;
                        Product.mk 2 "Sign: page not found" 1999 3 0] sample_db)
         sample_world.

(** A third user and a third product created, user 2 and product 2
    deleted, on the sample tables. *)
Definition sample_user_created : Outcome string User.t * World :=
  Eval vm_compute in
    userService.createUser (CreateUserRequest.mk "Cy" "cy@example.com") sample_world.

(** Product 1 renamed and restocked, the price left alone. *)
Definition sample_restock : UpdateProductRequest.t :=
  UpdateProductRequest.mk (Some "Laptop Pro 2") None (Some 8).

Definition sample_restocked : Outcome string Product.t * World :=
  Eval vm_compute in
    productService.updateProduct (JS.Fin 1) sample_restock sample_world.

Definition sample_product_created : Outcome string Product.t * World :=
  Eval vm_compute in
    productService.createProduct (CreateProductRequest.mk "USB-C Cable" 999 100)
                                 sample_world.

Definition sample_user_deleted : Outcome string bool * World :=
  Eval vm_compute in userService.deleteUser (JS.Fin 2) sample_world.

Definition sample_product_deleted : Outcome string bool * World :=
  Eval vm_compute in productService.deleteProduct (JS.Fin 2) sample_world.

(** GET /products without query values. *)
Definition sample_products_page : Response (Page Product.t) * World :=
  Eval vm_compute in
    productController.getAllProducts JS.QUndefined JS.QUndefined sample_world.

(** A migrations directory, a server that logs the statements it is sent,
    and a first run of the script. *)
Definition sample_dir : migrate.Directory :=
  <["002_create_products.sql" :=
      "CREATE TABLE products (id SERIAL);  CREATE INDEX idx ON products (id); "]>
    (<["001_create_users.sql" := "CREATE TABLE users (id SERIAL);"]>
       (<["README.md" := "notes"]> ∅)).

Definition sample_query (statement : string) (log : list string)
  : Outcome string (list string) :=
  Return (log ++ [statement])%list.

Definition sample_server : migrate.Server (list string) := migrate.mkServer [] [] [].

Definition sample_migrated : migrate.Run * migrate.Server (list string) :=
  Eval vm_compute in migrate.runMigrations sample_query sample_dir sample_server.

(** An environment with the database URL and the port set. *)
Definition sample_env (name : string) : option string :=
  if String.eqb name "DATABASE_URL" then Some "postgres://localhost/orders"
  else if String.eqb name "PORT" then Some "8080"
  else None.

(** * Properties *)

(** ** JavaScript numbers *)

Example parseInt_12abc : JS.parseInt "12abc" (Some 10) = JS.Fin 12.
Proof. reflexivity. Qed.

Example parseInt_hex : JS.parseInt "  -0x1F" None = JS.Fin (-31).
Proof. reflexivity. Qed.

Example parseInt_abc : JS.parseInt "abc" None = JS.NaN.
Proof. reflexivity. Qed.

Example parseInt_undefined : JS.parseInt (JS.toString JS.QUndefined) None = JS.NaN.
Proof. reflexivity. Qed.

Example parseInt_rounds :
  JS.parseInt "9007199254740993" None = JS.Fin 9007199254740992.
Proof. vm_compute. reflexivity. Qed.

Example page_param_huge :
  page_param (JS.QString (String.concat "" (replicate 400 "9"))) = JS.PosInf.
Proof. vm_compute. reflexivity. Qed.

Example limit_param_huge :
  limit_param (JS.QString (String.concat "" (replicate 400 "9"))) = JS.Fin 100.
Proof. vm_compute. reflexivity. Qed.

Example limit_param_negative : limit_param (JS.QString "-7") = JS.Fin 1.
Proof. reflexivity. Qed.

Example limit_param_zero : limit_param (JS.QString "0") = JS.Fin 10.
Proof. reflexivity. Qed.

Lemma round53_nonneg n : 0 <= n -> 0 <= JS.round53 n.
Proof.
  intros Hn. unfold JS.round53.
  destruct (Z.log2 n + 1 <=? 53); [done|].
  apply Z.shiftl_nonneg.
  assert (0 <= Z.shiftr n (Z.log2 n + 1 - 53)) by (by apply Z.shiftr_nonneg).
  destruct (_ || _); lia.
Qed.

Lemma of_Z_nonneg n :
  0 <= n -> JS.of_Z n = JS.PosInf ∨ ∃ m, JS.of_Z n = JS.Fin m ∧ 0 <= m.
Proof.
  intros Hn. unfold JS.of_Z.
  destruct (n =? 0) eqn:E0; [right; exists 0; split; [done|lia]|].
  apply Z.eqb_neq in E0.
  destruct (1024 <=? _).
  - left. destruct (n <? 0) eqn:E; [lia|done].
  - right. eexists; split; [done|].
    pose proof (round53_nonneg (Z.abs n) (Z.abs_nonneg n)).
    rewrite Z.sgn_pos by lia. lia.
Qed.

Lemma or_not_NaN x d : d ≠ JS.NaN -> JS.or x d ≠ JS.NaN.
Proof.
  intros Hd. unfold JS.or. destruct x as [| |z|]; simpl; try done.
  by destruct (z =? 0).
Qed.

Lemma max_1_ge x :
  x ≠ JS.NaN ->
  JS.Math_max (JS.Fin 1) x = JS.PosInf
  ∨ ∃ p, JS.Math_max (JS.Fin 1) x = JS.Fin p ∧ 1 <= p.
Proof.
  intros Hx. destruct x as [| |z|]; [done|..]; simpl.
  - right. exists 1. split; [done|lia].
  - right. destruct (1 <? z) eqn:E; eexists; (split; [done|lia]).
  - by left.
Qed.

Lemma min_100_max_1 x :
  x ≠ JS.NaN ->
  ∃ l, JS.Math_min (JS.Fin 100) (JS.Math_max (JS.Fin 1) x) = JS.Fin l ∧ 1 <= l <= 100.
Proof.
  intros Hx. destruct x as [| |z|]; [done|..]; simpl.
  - exists 1. split; [done|lia].
  - destruct (1 <? z) eqn:E; simpl.
    + destruct (z <? 100) eqn:E'; eexists; (split; [done|lia]).
    + exists 1. split; [done|lia].
  - exists 100. split; [done|lia].
Qed.

Lemma page_param_ge_1 q :
  page_param q = JS.PosInf ∨ ∃ p, page_param q = JS.Fin p ∧ 1 <= p.
Proof. unfold page_param. apply max_1_ge, or_not_NaN. done. Qed.

Lemma limit_param_range q : ∃ l, limit_param q = JS.Fin l ∧ 1 <= l <= 100.
Proof. unfold limit_param. apply min_100_max_1, or_not_NaN. done. Qed.

Lemma offset_nonneg page l :
  (page = JS.PosInf ∨ ∃ p, page = JS.Fin p ∧ 1 <= p) -> 1 <= l ->
  JS.le (JS.Fin 0) (JS.mul (JS.sub page (JS.Fin 1)) (JS.Fin l)) = true.
Proof.
  intros [->|(p & -> & Hp)] Hl; simpl.
  - destruct (l =? 0) eqn:E; [lia|]. destruct (l <? 0) eqn:E'; [lia|done].
  - destruct (of_Z_nonneg (p - 1)) as [->|(m & -> & Hm)]; [lia|..]; simpl.
    + destruct (l =? 0) eqn:E; [lia|]. destruct (l <? 0) eqn:E'; [lia|done].
    + destruct (of_Z_nonneg (m * l)) as [->|(k & -> & Hk)]; [lia|done|].
      simpl. apply negb_true_iff, Z.ltb_ge. done.
Qed.

(** ** Pagination *)

(** C8. Whatever the page and limit query values of GET /users and
    GET /products are, the handlers call the list service with a page of at
    least 1 and an integral limit between 1 and 100, so the offset
    [(page - 1) * limit] the service computes is non-negative. *)
Theorem pagination_bounds (query_page query_limit : JS.QueryValue) :
  let page := page_param query_page in
  let limit := limit_param query_limit in
  (∃ on_value on_error,
      userController.getAllUsers query_page query_limit
      = try_service (userService.getAllUsers page limit) on_value on_error)
  ∧ (∃ on_value on_error,
      productController.getAllProducts query_page query_limit
      = try_service (productService.getAllProducts page limit) on_value on_error)
  ∧ JS.le (JS.Fin 1) page = true
  ∧ (∃ l, limit = JS.Fin l ∧ 1 <= l <= 100)
  ∧ JS.le (JS.Fin 0) (JS.mul (JS.sub page (JS.Fin 1)) limit) = true.
Proof.
  simpl. split; [by eexists _, _|]. split; [by eexists _, _|].
  pose proof (page_param_ge_1 query_page) as Hp.
  destruct (limit_param_range query_limit) as (l & Hl & Hr).
  split; [|split; [by exists l|]].
  - destruct Hp as [->|(p & -> & Hp)]; [done|].
    simpl. apply negb_true_iff, Z.ltb_ge. done.
  - rewrite Hl. apply offset_nonneg; [done|lia].
Qed.

(** ** Running a call: inversion principles *)

Section Running.

Context {E : Type}.

Lemma bind_inv {A B} (m : M E A) (k : A -> M E B) w r w' :
  (m ≫= k) w = (r, w') ->
  (∃ a w1, m w = (Return a, w1) ∧ k a w1 = (r, w'))
  ∨ (∃ e, m w = (Throw e, w') ∧ r = Throw e).
Proof.
  unfold mbind, M_bind. destruct (m w) as [[a|e] w1]; intros H.
  - left. by exists a, w1.
  - right. exists e. by simplify_eq.
Qed.

Lemma bind_Return {A B} (m : M E A) (k : A -> M E B) w a w1 :
  m w = (Return a, w1) -> (m ≫= k) w = k a w1.
Proof. unfold mbind, M_bind. by intros ->. Qed.

Lemma bind_Throw {A B} (m : M E A) (k : A -> M E B) w e w1 :
  m w = (Throw e, w1) -> (m ≫= k) w = (Throw e, w1).
Proof. unfold mbind, M_bind. by intros ->. Qed.

Lemma try_catch_inv {E' A} (m : M E A) (h : E -> M E' A) w r w' :
  try_catch m h w = (r, w') ->
  (∃ a, m w = (Return a, w') ∧ r = Return a)
  ∨ (∃ e w1, m w = (Throw e, w1) ∧ h e w1 = (r, w')).
Proof.
  unfold try_catch. destruct (m w) as [[a|e] w1]; intros H.
  - left. exists a. by simplify_eq.
  - right. by exists e, w1.
Qed.

End Running.

Lemma rethrow_inv {A} what (m : M string A) w r w' :
  rethrow what m w = (r, w') ->
  (∃ a, m w = (Return a, w') ∧ r = Return a)
  ∨ (∃ e, m w = (Throw e, w') ∧ r = Throw (what +:+ ": " +:+ e)).
Proof.
  intros H. apply try_catch_inv in H as [H|(e & w1 & H1 & H2)]; [by left|].
  right. exists e. unfold throw in H2. by simplify_eq.
Qed.

Lemma roundtrip_inv w r w' :
  Sql.roundtrip w = (r, w') -> w' = set_faults (tail (faults w)) w.
Proof. unfold Sql.roundtrip. intros H. by repeat case_match; simplify_eq. Qed.

Lemma mutation_inv w r w' :
  Sql.mutation w = (r, w') ->
  w' = set_faults (tail (faults w)) (set_mutations (S (mutations w)) w).
Proof. unfold Sql.mutation. intros H. by apply roundtrip_inv in H. Qed.

Lemma nonempty_fmap {A B} (f : A -> B) (l : list A) :
  Sql.nonempty (f <$> l) = Sql.nonempty l.
Proof. by destruct l. Qed.

Lemma nonempty_filter {A} (P : A -> Prop) `{!∀ x, Decision (P x)} (l : list A) :
  Sql.nonempty (filter P l) = true ↔ ∃ x, x ∈ l ∧ P x.
Proof.
  split.
  - destruct (filter P l) as [|x l'] eqn:E; [done|]. intros _.
    exists x. assert (x ∈ filter P l) as Hin by (rewrite E; left).
    apply list_elem_of_filter in Hin. tauto.
  - intros (x & Hx & HP).
    assert (x ∈ filter P l) as Hin by (by apply list_elem_of_filter).
    by destruct (filter P l); [inversion Hin|].
Qed.

Lemma nonempty_filter_false {A} (P : A -> Prop) `{!∀ x, Decision (P x)} (l : list A) :
  Sql.nonempty (filter P l) = false -> ∀ x, x ∈ l -> ¬ P x.
Proof.
  intros Hne x Hx HP.
  assert (Sql.nonempty (filter P l) = true) by (apply nonempty_filter; eauto).
  congruence.
Qed.

(** ** Product names *)

(** C10. When the requested name is the name of an existing product,
    createProduct throws, sends no INSERT and leaves the tables as they
    were.  The rule lives in the service alone: whether the INSERT statement
    itself fails never depends on the name it is given. *)
Theorem createProduct_existing_name (productData : CreateProductRequest.t) (w : World) :
  (∃ p, p ∈ products (db w)
        ∧ Product.name p = CreateProductRequest.name productData) ->
  (∃ msg w', productService.createProduct productData w = (Throw msg, w')
             ∧ db w' = db w ∧ mutations w' = mutations w)
  ∧ (∀ name1 name2 price stock v e,
        (Sql.insert_product name1 price stock v).1 = Throw e
        ↔ (Sql.insert_product name2 price stock v).1 = Throw e).
Proof.
  intros Hex. split.
  - destruct (productService.createProduct productData w) as [r w'] eqn:Hrun.
    unfold productService.createProduct in Hrun.
    apply rethrow_inv in Hrun as [(a & Hrun & ->)|(e & Hrun & ->)].
    + exfalso. apply bind_inv in Hrun as [(ids & w1 & Hsel & Hk)|(e & _ & ?)]; [|done].
      unfold Sql.select_product_ids_by_name in Hsel.
      apply bind_inv in Hsel as [([] & w2 & Hrt & Hread)|(e & _ & ?)]; [|done].
      unfold Sql.read in Hread. simplify_eq.
      apply roundtrip_inv in Hrt as ->. simpl in Hk.
      rewrite nonempty_fmap in Hk.
      apply (nonempty_filter (fun p => Product.name p = _)) in Hex.
      rewrite Hex in Hk. done.
    + eexists _, _. split; [done|].
      apply bind_inv in Hrun as [(ids & w1 & Hsel & Hk)|(e' & Hsel & ?)].
      * unfold Sql.select_product_ids_by_name in Hsel.
        apply bind_inv in Hsel as [([] & w2 & Hrt & Hread)|(e' & _ & ?)]; [|done].
        unfold Sql.read in Hread. simplify_eq.
        apply roundtrip_inv in Hrt as ->. simpl in Hk.
        rewrite nonempty_fmap in Hk.
        apply (nonempty_filter (fun p => Product.name p = _)) in Hex.
        rewrite Hex in Hk. unfold throw in Hk. by simplify_eq.
      * unfold Sql.select_product_ids_by_name in Hsel.
        apply bind_inv in Hsel as [([] & w2 & Hrt & Hread)|(e'' & Hrt & ?)].
        -- unfold Sql.read in Hread. simplify_eq.
        -- apply roundtrip_inv in Hrt as ->. done.
  - intros name1 name2 price stock v e.
    unfold Sql.insert_product, Sql.mutation, Sql.roundtrip, Sql.exec, lift,
      mbind, M_bind.
    simpl. repeat case_match; simplify_eq/=; done.
Qed.

(** ** What the statements of the services do *)

Ltac unfold_sql :=
  unfold rethrow, try_catch, throw, lift, Sql.read, Sql.exec, Sql.mutation,
    Sql.roundtrip, mbind, M_bind, mret, M_ret in *.

Lemma int4_of_Z_Return z i : Sql.int4_of_Z z = Return i -> i = z.
Proof. unfold Sql.int4_of_Z. by case_match; intros; simplify_eq. Qed.

Lemma int4_Return id i : Sql.int4 id = Return i -> id = JS.Fin i.
Proof.
  destruct id; simpl; try done. intros H. by apply int4_of_Z_Return in H as ->.
Qed.

Lemma numeric_10_2_Return c c' : Sql.numeric_10_2 c = Return c' -> c' = c.
Proof. unfold Sql.numeric_10_2. by case_match; intros; simplify_eq. Qed.

Lemma getProductById_inv id w r w' :
  productService.getProductById id w = (r, w') ->
  w' = set_faults (tail (faults w)) w
  ∧ ∀ o, r = Return o ->
         ∃ i, id = JS.Fin i
              ∧ o = head (filter (fun p => Product.id p = i) (products (db w))).
Proof.
  unfold productService.getProductById, Sql.select_product_by_id. unfold_sql.
  intros H. destruct (Sql.int4 id) as [i|e] eqn:Hid;
    repeat case_match; simplify_eq/=; (split; [done|]); intros o Ho; simplify_eq.
  all: apply int4_Return in Hid; by exists i.
Qed.

Lemma getUserById_inv id w r w' :
  userService.getUserById id w = (r, w') ->
  w' = set_faults (tail (faults w)) w
  ∧ ∀ o, r = Return o ->
         ∃ i, id = JS.Fin i
              ∧ o = head (filter (fun u => User.id u = i) (users (db w))).
Proof.
  unfold userService.getUserById, Sql.select_user_by_id. unfold_sql.
  intros H. destruct (Sql.int4 id) as [i|e] eqn:Hid;
    repeat case_match; simplify_eq/=; (split; [done|]); intros o Ho; simplify_eq.
  all: apply int4_Return in Hid; by exists i.
Qed.

Lemma update_product_inv name price stock id w r w' :
  Sql.update_product name price stock id w = (r, w') ->
  (db w' = db w ∧ ∃ e, r = Throw e)
  ∨ ∃ i, id = JS.Fin i
         ∧ db w' = set_products (Sql.updated_product i name price stock <$> products (db w))
                                (db w)
         ∧ r = Return (filter (fun p => Product.id p = i)
                              (Sql.updated_product i name price stock <$> products (db w))).
Proof.
  unfold Sql.update_product. unfold_sql. intros H.
  destruct (Sql.numeric_10_2 price) as [price'|?] eqn:Hp;
    destruct (Sql.int4_of_Z stock) as [stock'|?] eqn:Hs;
    destruct (Sql.int4 id) as [i|?] eqn:Hid;
    repeat case_match; simplify_eq/=; try (left; split; [done|by eexists]).
  all: right; exists i; apply int4_Return in Hid; apply int4_of_Z_Return in Hs;
    apply numeric_10_2_Return in Hp; by subst.
Qed.

Lemma update_user_inv name email id w r w' :
  Sql.update_user name email id w = (r, w') ->
  (db w' = db w ∧ ∃ e, r = Throw e)
  ∨ ∃ i, id = JS.Fin i
         ∧ db w' = set_users (Sql.updated_user i name email <$> users (db w)) (db w)
         ∧ r = Return (filter (fun u => User.id u = i)
                              (Sql.updated_user i name email <$> users (db w))).
Proof.
  unfold Sql.update_user. unfold_sql. intros H.
  destruct (Sql.int4 id) as [i|?] eqn:Hid;
    repeat case_match; simplify_eq/=; try (left; split; [done|by eexists]).
  all: right; exists i; apply int4_Return in Hid; by subst.
Qed.

(** The duplicate check before an update reads and writes nothing. *)
Lemma product_name_check_inv (name : option string) (current : string) id w r w' :
  (if truthy_str name && negb (bool_decide (name = Some current))
   then
     existingProduct ← Sql.select_other_product_ids_by_name (name ?? "") id;
     if Sql.nonempty existingProduct
     then throw ("Name " +:+ (name ?? "") +:+ " is already in use")
     else mret ()
   else mret ()) w = (r, w') ->
  db w' = db w ∧ mutations w' = mutations w.
Proof.
  unfold Sql.select_other_product_ids_by_name. unfold_sql.
  intros H. destruct (Sql.int4 id); repeat case_match; by simplify_eq/=.
Qed.

Lemma user_email_check_inv (email : option string) (current : string) id w r w' :
  (if truthy_str email && negb (bool_decide (email = Some current))
   then
     existingUser ← Sql.select_other_user_ids_by_email (email ?? "") id;
     if Sql.nonempty existingUser
     then throw ("Email " +:+ (email ?? "") +:+ " is already in use")
     else mret ()
   else mret ()) w = (r, w') ->
  db w' = db w ∧ mutations w' = mutations w.
Proof.
  unfold Sql.select_other_user_ids_by_email. unfold_sql.
  intros H. destruct (Sql.int4 id); repeat case_match; by simplify_eq/=.
Qed.

Lemma rethrow_run {A} what (m : M string A) w r w' :
  rethrow what m w = (r, w') ->
  ∃ r0, m w = (r0, w')
        ∧ match r0 with
          | Return a => r = Return a
          | Throw e => r = Throw (what +:+ ": " +:+ e)
          end.
Proof.
  intros H. apply rethrow_inv in H as [(a & H & ->)|(e & H & ->)]; by eexists.
Qed.

Lemma updateProduct_inv id updateData w r w' :
  productService.updateProduct id updateData w = (r, w') ->
  (db w' = db w ∧ ∃ e, r = Throw e)
  ∨ ∃ i product,
      id = JS.Fin i
      ∧ head (filter (fun p => Product.id p = i) (products (db w))) = Some product
      ∧ let rows :=
          Sql.updated_product i
            (UpdateProductRequest.name updateData ?? Product.name product)
            (UpdateProductRequest.price updateData ?? Product.price product)
            (UpdateProductRequest.stock updateData ?? Product.stock product)
          <$> products (db w) in
        db w' = set_products rows (db w)
        ∧ ∀ p', r = Return p' -> head (filter (fun p => Product.id p = i) rows) = Some p'.
Proof.
  unfold productService.updateProduct. intros H.
  apply rethrow_run in H as (r0 & H & Hr).
  assert (∀ e, r0 = Throw e -> ∃ e', r = Throw e') as Hthrow
      by (intros e ->; by eexists).
  apply bind_inv in H as [(o & w1 & Hget & H)|(e & Hget & ->)].
  - apply getProductById_inv in Hget as [-> Ho].
    destruct (Ho o eq_refl) as (i & -> & ->). clear Ho.
    destruct (head _) as [product|] eqn:Hhead; simpl in *.
    + apply bind_inv in H as [([] & w2 & Hchk & H)|(e & Hchk & ->)].
      * apply product_name_check_inv in Hchk as [Hdb _]. simpl in Hdb.
        apply bind_inv in H as [(result & w3 & Hupd & H)|(e & Hupd & ->)].
        -- apply update_product_inv in Hupd as [[_ [e ?]]|(i' & ? & Hdb' & ?)];
             [done|]. simplify_eq. rewrite Hdb in *.
           right. exists i', product. split_and!; [done..| |].
           ++ destruct (filter _ (_ <$> _)); unfold throw, mret, M_ret in H; by simplify_eq.
           ++ intros p' ->. destruct r0; [|done]. simplify_eq.
              destruct (filter _ (_ <$> _)); unfold throw, mret, M_ret in H; by simplify_eq.
        -- apply update_product_inv in Hupd as [[Hdb' _]|(i' & ? & _ & ?)]; [|done].
           left. split; [congruence|by eapply Hthrow].
      * apply product_name_check_inv in Hchk as [Hdb _].
        left. split; [done|by eapply Hthrow].
    + unfold throw in H. simplify_eq. left. split; [done|by eapply Hthrow].
  - apply getProductById_inv in Hget as [-> _]. left. split; [done|by eapply Hthrow].
Qed.

Lemma updateUser_inv id updateData w r w' :
  userService.updateUser id updateData w = (r, w') ->
  (db w' = db w ∧ ∃ e, r = Throw e)
  ∨ ∃ i user,
      id = JS.Fin i
      ∧ head (filter (fun u => User.id u = i) (users (db w))) = Some user
      ∧ let rows :=
          Sql.updated_user i
            (UpdateUserRequest.name updateData ?? User.name user)
            (UpdateUserRequest.email updateData ?? User.email user)
          <$> users (db w) in
        db w' = set_users rows (db w)
        ∧ ∀ u', r = Return u' -> head (filter (fun u => User.id u = i) rows) = Some u'.
Proof.
  unfold userService.updateUser. intros H.
  apply rethrow_run in H as (r0 & H & Hr).
  assert (∀ e, r0 = Throw e -> ∃ e', r = Throw e') as Hthrow
      by (intros e ->; by eexists).
  apply bind_inv in H as [(o & w1 & Hget & H)|(e & Hget & ->)].
  - apply getUserById_inv in Hget as [-> Ho].
    destruct (Ho o eq_refl) as (i & -> & ->). clear Ho.
    destruct (head _) as [user|] eqn:Hhead; simpl in *.
    + apply bind_inv in H as [([] & w2 & Hchk & H)|(e & Hchk & ->)].
      * apply user_email_check_inv in Hchk as [Hdb _]. simpl in Hdb.
        apply bind_inv in H as [(result & w3 & Hupd & H)|(e & Hupd & ->)].
        -- apply update_user_inv in Hupd as [[_ [e ?]]|(i' & ? & Hdb' & ?)];
             [done|]. simplify_eq. rewrite Hdb in *.
           right. exists i', user. split_and!; [done..| |].
           ++ destruct (filter _ (_ <$> _)); unfold throw, mret, M_ret in H; by simplify_eq.
           ++ intros u' ->. destruct r0; [|done]. simplify_eq.
              destruct (filter _ (_ <$> _)); unfold throw, mret, M_ret in H; by simplify_eq.
        -- apply update_user_inv in Hupd as [[Hdb' _]|(i' & ? & _ & ?)]; [|done].
           left. split; [congruence|by eapply Hthrow].
      * apply user_email_check_inv in Hchk as [Hdb _].
        left. split; [done|by eapply Hthrow].
    + unfold throw in H. simplify_eq. left. split; [done|by eapply Hthrow].
  - apply getUserById_inv in Hget as [-> _]. left. split; [done|by eapply Hthrow].
Qed.

Lemma updated_product_fields i name price stock (l : list Product.t) row :
  row ∈ Sql.updated_product i name price stock <$> l -> Product.id row = i ->
  Product.name row = name ∧ Product.price row = price ∧ Product.stock row = stock.
Proof.
  intros (q & -> & _)%list_elem_of_fmap. unfold Sql.updated_product.
  by case_decide.
Qed.

Lemma updated_user_fields i name email (l : list User.t) row :
  row ∈ Sql.updated_user i name email <$> l -> User.id row = i ->
  User.name row = name ∧ User.email row = email.
Proof.
  intros (q & -> & _)%list_elem_of_fmap. unfold Sql.updated_user.
  by case_decide.
Qed.

Lemma head_filter_elem {A} (P : A -> Prop) `{!∀ x, Decision (P x)} (l : list A) x :
  head (filter P l) = Some x -> x ∈ l ∧ P x.
Proof.
  intros Hhead. assert (x ∈ filter P l) as Hin.
  { destruct (filter P l); simplify_eq/=. left. }
  apply list_elem_of_filter in Hin. tauto.
Qed.

(** ** Partial updates *)

(** C9. When updateProduct (respectively updateUser) succeeds, every field
    the request leaves undefined keeps the value of the row the service
    read: this holds of the row returned and of every row of that id in the
    table afterwards. *)
Theorem update_keeps_omitted_fields :
  (∀ id updateData w product' w',
      productService.updateProduct id updateData w = (Return product', w') ->
      ∃ i product,
        id = JS.Fin i
        ∧ head (filter (fun p => Product.id p = i) (products (db w))) = Some product
        ∧ ∀ row,
            row = product' ∨ (row ∈ products (db w') ∧ Product.id row = i) ->
            (UpdateProductRequest.name updateData = None ->
             Product.name row = Product.name product)
            ∧ (UpdateProductRequest.price updateData = None ->
               Product.price row = Product.price product)
            ∧ (UpdateProductRequest.stock updateData = None ->
               Product.stock row = Product.stock product))
  ∧ (∀ id updateData w user' w',
      userService.updateUser id updateData w = (Return user', w') ->
      ∃ i user,
        id = JS.Fin i
        ∧ head (filter (fun u => User.id u = i) (users (db w))) = Some user
        ∧ ∀ row,
            row = user' ∨ (row ∈ users (db w') ∧ User.id row = i) ->
            (UpdateUserRequest.name updateData = None ->
             User.name row = User.name user)
            ∧ (UpdateUserRequest.email updateData = None ->
               User.email row = User.email user)).
Proof.
  split.
  - intros id updateData w product' w' H.
    apply updateProduct_inv in H as [[_ [e ?]]|(i & product & -> & Hhead & Hdb & Hr)];
      [done|].
    exists i, product. split_and!; [done..|].
    specialize (Hr _ eq_refl). apply head_filter_elem in Hr as [Hin Hid].
    intros row Hrow.
    assert (row ∈ Sql.updated_product i
              (UpdateProductRequest.name updateData ?? Product.name product)
              (UpdateProductRequest.price updateData ?? Product.price product)
              (UpdateProductRequest.stock updateData ?? Product.stock product)
              <$> products (db w) ∧ Product.id row = i) as [Hrow' Hi].
    { destruct Hrow as [->|[Hrow Hi]]; [done|]. by rewrite Hdb in Hrow. }
    destruct (updated_product_fields _ _ _ _ _ _ Hrow' Hi) as (-> & -> & ->).
    by split_and!; intros ->.
  - intros id updateData w user' w' H.
    apply updateUser_inv in H as [[_ [e ?]]|(i & user & -> & Hhead & Hdb & Hr)];
      [done|].
    exists i, user. split_and!; [done..|].
    specialize (Hr _ eq_refl). apply head_filter_elem in Hr as [Hin Hid].
    intros row Hrow.
    assert (row ∈ Sql.updated_user i
              (UpdateUserRequest.name updateData ?? User.name user)
              (UpdateUserRequest.email updateData ?? User.email user)
              <$> users (db w) ∧ User.id row = i) as [Hrow' Hi].
    { destruct Hrow as [->|[Hrow Hi]]; [done|]. by rewrite Hdb in Hrow. }
    destruct (updated_user_fields _ _ _ _ _ Hrow' Hi) as (-> & ->).
    by split_and!; intros ->.
Qed.

(** ** Status codes of the request layer *)

Lemma catch_code_range req msg :
  catch_code req msg = 400 ∨ catch_code req msg = 404 ∨ catch_code req msg = 500.
Proof. destruct req; simpl; try destruct (JS.includes _ _); auto. Qed.

Lemma own_answers_range c m : In (c, m) own_answers -> c = 400 ∨ c = 404.
Proof.
  simpl. intros H. repeat (destruct H as [H|H]; [simplify_eq; auto|]). done.
Qed.

Ltac run_handler :=
  cbv [router envelope answer try_service
       userController.createUser userController.getUserById
       userController.getAllUsers userController.updateUser
       userController.deleteUser
       productController.createProduct productController.getProductById
       productController.getAllProducts productController.updateProduct
       productController.deleteProduct];
  repeat case_match; simplify_eq; cbn [fst statusCode status message success error].

(** Every answer is a success with code 200 or 201, or an error that is
    either one of the handlers' own answers or the answer of the catch
    block to the message thrown. *)
Lemma router_answer req w :
  let r := (router req w).1 in
  (status r = "success" ∧ (statusCode r = 200 ∨ statusCode r = 201))
  ∨ (status r = "error"
     ∧ (In (statusCode r, message r) own_answers
        ∨ statusCode r = catch_code req (message r))).
Proof.
  destruct req; run_handler;
    first [ left; split; [reflexivity|auto]
          | right; split; [reflexivity|];
            first [ right; simpl; repeat case_match; congruence
                  | left; simpl; tauto ] ].
Qed.

(** What a handler answers, read off the service call behind the request:
    a malformed request is answered 400 by the handler itself and nothing is
    called; an error thrown by the call is answered with its message and the
    code of the catch block; a missing row is answered 404; anything else is
    a success.  The world is left as the call left it. *)
Lemma router_service_call req w :
  match service_call req with
  | None =>
      ∃ message, In (400, message) own_answers
                 ∧ router req w = (error 400 message, w)
  | Some call =>
      match call w with
      | (Throw message, w') =>
          router req w = (error (catch_code req message) message, w')
      | (Return true, w') =>
          ∃ message, router req w = (success (success_code req) message None, w')
      | (Return false, w') =>
          ∃ message, In (404, message) own_answers
                     ∧ router req w = (error 404 message, w')
      end
  end.
Proof.
  destruct req as [body|p l|id|id body|id|body|p l|id|id body|id];
    cbv [service_call router envelope answer try_service
         userController.createUser userController.getUserById
         userController.getAllUsers userController.updateUser
         userController.deleteUser
         productController.createProduct productController.getProductById
         productController.getAllProducts productController.updateProduct
         productController.deleteProduct success_code catch_code].
  all: repeat match goal with
         | b : UpdateUserRequest.t |- _ => destruct b as [[?|] [?|]]
         | b : UpdateProductRequest.t |- _ => destruct b as [[?|] [?|] [?|]]
         end;
    cbn [UpdateUserRequest.name UpdateUserRequest.email
         UpdateProductRequest.name UpdateProductRequest.price
         UpdateProductRequest.stock truthy_str truthy_num nullish default from_option Datatypes.id].
  all: repeat match goal with
         | |- context [JS.isNaN ?n] => destruct (JS.isNaN n)
         | |- context [String.eqb ?a ?b] => destruct (String.eqb a b)
         | |- context [Z.eqb ?a ?b] => destruct (Z.eqb a b)
         end;
    cbn [negb andb orb].
  all: try match goal with
         | |- context [outcome_of ?p ?c ?w] =>
             unfold outcome_of; destruct (c w) as [[a|e] w']
         end.
  all: try match goal with
         | a : option _ |- _ => destruct a
         | a : (_ * _)%type |- _ => destruct a
         end.
  all: cbv beta iota zeta; cbn [bool_decide decide_rel statusCode status message].
  all: try done.
  all: try (eexists; done).
  all: try (eexists; split; [|done]; unfold own_answers; simpl; tauto).

Qed.

(** C5 (amended). A failure reaches the request layer as an error message
    and nothing else, and the handlers answer it with "error", that message
    and a code that is 400, 404 or 500: one of their own answers to
    malformed input or a missing row, or what their catch block makes of the
    message (400 on create, 500 on the read endpoints, 404 on update and
    delete when the message contains "not found" and 400 otherwise).  No
    handler ever sends 409 or 503.  Route by route: when the request is
    malformed the handler answers 400 with a message of its own and calls
    nothing; when the service call throws, the answer is "error" with the
    message thrown and the code of the catch block for that message; when a
    lookup returns no row, the answer is 404 with the handler's own message;
    otherwise the answer is a success, 201 for a creation and 200 for the
    rest; and the database is as the service call left it. *)
Theorem request_layer_status (req : ApiRequest) (w : World) :
  let r := (router req w).1 in
  ((status r = "success" ∧ (statusCode r = 200 ∨ statusCode r = 201))
   ∨ (status r = "error"
      ∧ (statusCode r = 400 ∨ statusCode r = 404 ∨ statusCode r = 500)
      ∧ (In (statusCode r, message r) own_answers
         ∨ statusCode r = catch_code req (message r))))
  ∧ statusCode r ≠ 409 ∧ statusCode r ≠ 503
  ∧ match service_call req with
    | None =>
        ∃ message, In (400, message) own_answers
                   ∧ router req w = (error 400 message, w)
    | Some call =>
        match call w with
        | (Throw message, w') =>
            router req w = (error (catch_code req message) message, w')
        | (Return true, w') =>
            ∃ message, router req w = (success (success_code req) message None, w')
        | (Return false, w') =>
            ∃ message, In (404, message) own_answers
                       ∧ router req w = (error 404 message, w')
        end
    end.
Proof.
  intros r. pose proof (router_answer req w) as H. fold r in H.
  assert (status r = "error" ->
          In (statusCode r, message r) own_answers
          ∨ statusCode r = catch_code req (message r) ->
          statusCode r = 400 ∨ statusCode r = 404 ∨ statusCode r = 500) as Hrange.
  { intros _ [Hown|Hcatch].
    - apply own_answers_range in Hown. tauto.
    - rewrite Hcatch. apply catch_code_range. }
  split_and!; [| | |apply router_service_call].
  - destruct H as [[Hs Hc]|[Hs Hc]]; [left; done|].
    specialize (Hrange Hs Hc). right; done.
  - destruct H as [[Hs Hc]|[Hs Hc]]; [lia|]. specialize (Hrange Hs Hc). lia.
  - destruct H as [[Hs Hc]|[Hs Hc]]; [lia|]. specialize (Hrange Hs Hc). lia.
Qed.

(** C5 as stated fails: with the connection down, GET /products/1 is
    answered 500, the code of none of the four kinds, and PUT /users/1 is
    answered 400 although the failure is transient. *)
Lemma request_layer_status_counterexample :
  let r := (router (GET_products_id "1") sample_world_down).1 in
  let r' := (router (PUT_users_id "1" (UpdateUserRequest.mk (Some "Ann B") None))
                    sample_world_down).1 in
  status r = "error" ∧ statusCode r = 500
  ∧ (∀ k, statusCode r ≠ spec_status_of_kind k)
  ∧ status r' = "error" ∧ statusCode r' = 400
  ∧ statusCode r' ≠ spec_status_of_kind transient_error.
Proof.
  vm_compute. split_and!; try done. by intros [].
Qed.

(** ** What createProduct writes *)

Lemma insert_product_inv name price stock w r w' :
  Sql.insert_product name price stock w = (r, w') ->
  (db w' = db w ∧ ∃ e, r = Throw e)
  ∨ ∃ i, (∀ p, p ∈ products (db w) -> Product.id p ≠ i)
         ∧ db w' = set_products
                     (products (db w) ++ [Product.mk i name price stock (clock w)]) (db w)
         ∧ r = Return [Product.mk i name price stock (clock w)].
Proof.
  unfold Sql.insert_product. unfold_sql. intros H.
  destruct (Sql.numeric_10_2 price) as [price'|?] eqn:Hp;
    destruct (Sql.int4_of_Z stock) as [stock'|?] eqn:Hs;
    repeat case_match; simplify_eq/=; try (left; split; [done|by eexists]).
  all: right; apply int4_of_Z_Return in Hs; apply numeric_10_2_Return in Hp;
    subst; eexists; split_and!; [|done..].
  all: intros p Hp; by eapply (nonempty_filter_false (fun p => Product.id p = _)) in Hp.
Qed.

Lemma select_product_ids_by_name_inv name w r w' :
  Sql.select_product_ids_by_name name w = (r, w') ->
  db w' = db w ∧ mutations w' = mutations w.
Proof.
  unfold Sql.select_product_ids_by_name. unfold_sql.
  intros H. by repeat case_match; simplify_eq/=.
Qed.

Lemma createProduct_inv productData w r w' :
  productService.createProduct productData w = (r, w') ->
  (db w' = db w ∧ ∃ e, r = Throw e)
  ∨ ∃ i,
      let row := Product.mk i (CreateProductRequest.name productData)
                            (CreateProductRequest.price productData)
                            (CreateProductRequest.stock productData) (clock w) in
      (∀ p, p ∈ products (db w) -> Product.id p ≠ i)
      ∧ db w' = set_products (products (db w) ++ [row]) (db w) ∧ r = Return row.
Proof.
  unfold productService.createProduct. intros H.
  apply rethrow_run in H as (r0 & H & Hr).
  assert (∀ e, r0 = Throw e -> ∃ e', r = Throw e') as Hthrow
      by (intros e ->; by eexists).
  apply bind_inv in H as [(ids & w1 & Hsel & H)|(e & Hsel & ->)].
  - pose proof (roundtrip_inv w) as Hw1.
    assert (clock w1 = clock w) as Hclock.
    { unfold Sql.select_product_ids_by_name in Hsel. unfold_sql.
      by repeat case_match; simplify_eq/=. }
    apply select_product_ids_by_name_inv in Hsel as [Hdb _].
    destruct (Sql.nonempty ids).
    { unfold throw in H. simplify_eq. left. split; [done|by eapply Hthrow]. }
    apply bind_inv in H as [(result & w2 & Hins & H)|(e & Hins & ->)].
    + apply insert_product_inv in Hins as [[_ [e ?]]|(i & Hfresh & Hdb' & ?)]; [done|].
      unfold mret, M_ret in H. simplify_eq. right. exists i. simpl.
      rewrite Hdb in Hfresh. by rewrite Hdb', Hdb, Hclock.
    + apply insert_product_inv in Hins as [[Hdb' _]|(i & _ & _ & ?)]; [|done].
      left. split; [congruence|by eapply Hthrow].
  - apply select_product_ids_by_name_inv in Hsel as [Hdb _].
    left. split; [done|by eapply Hthrow].
Qed.

(** ** The steps of the order workflow *)

Lemma step_roundtrip_inv w r w' :
  orderService.step Sql.roundtrip w = (r, w') ->
  w' = set_faults (tail (faults w)) w.
Proof.
  unfold orderService.step. unfold_sql. intros H.
  by repeat case_match; simplify_eq/=.
Qed.

Lemma select_for_update_inv pid w r w' :
  orderService.step (orderService.select_product_for_update pid) w = (r, w') ->
  w' = set_faults (tail (faults w)) w
  ∧ ∀ found, r = Return found ->
             found = filter (fun p => Product.id p = pid) (products (db w)).
Proof.
  unfold orderService.step, orderService.select_product_for_update. unfold_sql.
  intros H. repeat case_match; simplify_eq/=; (split; [done|]); intros; by simplify_eq.
Qed.

Lemma check_line_Return d it line :
  orderService.check_line it (filter (fun p => Product.id p = OrderItemInput.product_id it)
                                     (products d)) = Return line ->
  checked d it line.
Proof.
  unfold orderService.check_line, checked.
  destruct (filter _ _) as [|p ps] eqn:E; [done|].
  destruct (Product.stock p <? _) eqn:Hlt; [done|]. intros ?; simplify_eq.
  exists p. split_and!; [done| |done]. by apply Z.ltb_ge.
Qed.

Lemma lock_and_check_inv items w r w' :
  orderService.lock_and_check items w = (r, w') ->
  db w' = db w ∧ seqs w' = seqs w ∧ clock w' = clock w ∧ mutations w' = mutations w
  ∧ ∀ lines, r = Return lines -> Forall2 (checked (db w)) items lines.
Proof.
  revert w r w'. induction items as [|it rest IH]; intros w r w' H; simpl in H.
  - unfold mret, M_ret in H. simplify_eq. split_and!; try done.
    intros lines ?; simplify_eq. constructor.
  - apply bind_inv in H as [(found & w1 & Hsel & H)|(e & Hsel & ->)].
    + apply select_for_update_inv in Hsel as [-> Hfound].
      specialize (Hfound _ eq_refl) as ->.
      apply bind_inv in H as [(line & w2 & Hchk & H)|(e & Hchk & ->)].
      * unfold lift in Hchk. simplify_eq. rename H0 into Hchk.
        apply check_line_Return in Hchk.
        apply bind_inv in H as [(lines & w3 & Hrest & H)|(e & Hrest & ->)].
        -- apply IH in Hrest as (Hdb & Hs & Hc & Hm & Hl).
           unfold mret, M_ret in H. simplify_eq. split_and!; try done.
           intros lines' ?; simplify_eq. constructor; [done|by apply Hl].
        -- apply IH in Hrest as (Hdb & Hs & Hc & Hm & Hl). by split_and!.
      * unfold lift in Hchk. simplify_eq. by split_and!.
    + apply select_for_update_inv in Hsel as [-> _]. by split_and!.
Qed.

Lemma insert_order_Return user_id total w rows w' :
  orderService.step (orderService.insert_order user_id total) w = (Return rows, w') ->
  ∃ o, rows = [o]
       ∧ o = Order.mk (orders_id_seq (seqs w)) user_id total PENDING (clock w)
       ∧ (∀ o', o' ∈ orders (db w) -> Order.id o' ≠ Order.id o)
       ∧ db w' = set_orders (orders (db w) ++ [o]) (db w)
       ∧ clock w' = clock w.
Proof.
  unfold orderService.step, orderService.insert_order. unfold_sql. intros H.
  repeat case_match; simplify_eq/=.
  all: eexists; split_and!; try done.
  all: intros o' Ho'; by eapply (nonempty_filter_false (fun o => Order.id o = _)) in Ho'.
Qed.

Lemma insert_order_item_Return oid pid q price w rows w' :
  orderService.step (orderService.insert_order_item oid pid q price) w
  = (Return rows, w') ->
  ∃ i, rows = [OrderItem.mk i oid pid q price]
       ∧ db w' = set_order_items
                   (order_items (db w) ++ [OrderItem.mk i oid pid q price]) (db w)
       ∧ clock w' = clock w.
Proof.
  unfold orderService.step, orderService.insert_order_item. unfold_sql. intros H.
  repeat case_match; simplify_eq/=; by eexists.
Qed.

Lemma insert_items_Return oid lines w rows w' :
  orderService.insert_items oid lines w = (Return rows, w') ->
  Forall2 (item_of_line oid) lines rows
  ∧ db w' = set_order_items (order_items (db w) ++ rows) (db w)
  ∧ clock w' = clock w.
Proof.
  revert w rows w'. induction lines as [|l rest IH]; intros w rows w' H; simpl in H.
  - unfold mret, M_ret in H. simplify_eq. split_and!; [constructor| |done].
    rewrite app_nil_r. by destruct (db w').
  - apply bind_inv in H as [(ins & w1 & Hins & H)|(e & _ & ?)]; [|done].
    apply insert_order_item_Return in Hins as (i & -> & Hdb & Hc).
    apply bind_inv in H as [(rows' & w2 & Hrest & H)|(e & _ & ?)]; [|done].
    apply IH in Hrest as (Hl & Hdb' & Hc').
    unfold mret, M_ret in H. simplify_eq. split_and!.
    + constructor; [done|done].
    + rewrite Hdb', Hdb. simpl. by rewrite <-app_assoc.
    + congruence.
Qed.

Lemma decrement_stock_Return q pid w w' :
  orderService.step (orderService.decrement_stock q pid) w = (Return (), w') ->
  db w' = set_products (orderService.with_stock_less q pid <$> products (db w)) (db w)
  ∧ clock w' = clock w.
Proof.
  unfold orderService.step, orderService.decrement_stock. unfold_sql. intros H.
  by repeat case_match; simplify_eq/=.
Qed.

Lemma decrement_all_Return lines w w' :
  orderService.decrement_all lines w = (Return (), w') ->
  db w' = set_products (decremented lines (products (db w))) (db w)
  ∧ clock w' = clock w.
Proof.
  revert w w'. induction lines as [|l rest IH]; intros w w' H; simpl in H.
  - unfold mret, M_ret in H. simplify_eq. split; [|done]. by destruct (db w').
  - apply bind_inv in H as [([] & w1 & Hdec & H)|(e & _ & ?)]; [|done].
    apply decrement_stock_Return in Hdec as [Hdb Hc].
    apply IH in H as [Hdb' Hc']. split; [|congruence].
    rewrite Hdb', Hdb. done.
Qed.

Lemma insert_order_key_Return k oid w w' :
  orderService.step (orderService.insert_order_key k oid) w = (Return (), w') ->
  db w' = set_order_keys (order_keys (db w) ++ [(k, oid)]) (db w).
Proof.
  unfold orderService.step, orderService.insert_order_key. unfold_sql. intros H.
  by repeat case_match; simplify_eq/=.
Qed.

Lemma create_order_Return request lines w po w' :
  orderService.create_order request lines w = (Return po, w') ->
  let o := PlacedOrder.order po in
  o = Order.mk (orders_id_seq (seqs w)) (CreateOrderRequest.user_id request)
               (orderService.compute_total lines) PENDING (clock w)
  ∧ (∀ o', o' ∈ orders (db w) -> Order.id o' ≠ Order.id o)
  ∧ Forall2 (item_of_line (Order.id o)) lines (PlacedOrder.items po)
  ∧ db w' = mkDb (users (db w))
                 (decremented lines (products (db w)))
                 (orders (db w) ++ [o])
                 (order_items (db w) ++ PlacedOrder.items po)
                 (order_keys (db w)
                  ++ key_entry (CreateOrderRequest.idempotencyKey request) (Order.id o)).
Proof.
  unfold orderService.create_order. intros H.
  apply bind_inv in H as [(created & w1 & Hord & H)|(e & _ & ?)]; [|done].
  apply insert_order_Return in Hord as (o & -> & Ho & Hfresh & Hdb1 & Hc1).
  apply bind_inv in H as [(rows & w2 & Hitems & H)|(e & _ & ?)]; [|done].
  apply insert_items_Return in Hitems as (Hrows & Hdb2 & Hc2).
  apply bind_inv in H as [([] & w3 & Hdec & H)|(e & _ & ?)]; [|done].
  apply decrement_all_Return in Hdec as (Hdb3 & Hc3).
  apply bind_inv in H as [([] & w4 & Hkey & H)|(e & _ & ?)]; [|done].
  unfold mret, M_ret in H. simplify_eq. simpl.
  split_and!; [done..|].
  destruct (CreateOrderRequest.idempotencyKey request) as [k|]; simpl.
  - apply insert_order_key_Return in Hkey. rewrite Hkey, Hdb3, Hdb2, Hdb1. done.
  - unfold mret, M_ret in Hkey. simplify_eq. rewrite Hdb3, Hdb2, Hdb1. simpl.
    by rewrite app_nil_r.
Qed.

Lemma transaction_inv {A} (body : M OrderError A) w r w' :
  orderService.transaction body w = (r, w') ->
  (db w' = db w ∧ ∃ e, r = Throw e)
  ∨ ∃ a w1, r = Return a
            ∧ body (set_faults (tail (faults w)) w) = (Return a, w1)
            ∧ w' = set_faults (tail (faults w1)) w1.
Proof.
  unfold orderService.transaction. intros H.
  destruct (orderService.step Sql.roundtrip w) as [[[]|e] w0] eqn:Hbegin.
  - apply step_roundtrip_inv in Hbegin as ->.
    destruct (body _) as [[a|e] w1] eqn:Hbody.
    + destruct (orderService.step Sql.roundtrip w1) as [[[]|e] w2] eqn:Hcommit;
        apply step_roundtrip_inv in Hcommit as ->; simplify_eq.
      * right. by exists a, w1.
      * left. split; [done|by eexists].
    + simplify_eq. left. split; [done|by eexists].
  - apply step_roundtrip_inv in Hbegin as ->. simplify_eq.
    left. split; [done|by eexists].
Qed.

(** The four ways a placement ends: rejected by validation, answered from
    the idempotency record, failed and rolled back, or committed. *)
Lemma placeOrder_inv request w r w' :
  orderService.placeOrder request w = (r, w') ->
  (∃ msg, orderService.validate request (db w) = Some msg
          ∧ r = Throw (ValidationError msg) ∧ w' = w)
  ∨ (orderService.validate request (db w) = None
     ∧ ∃ existing,
         orderService.find_order_by_key
           (CreateOrderRequest.idempotencyKey request) (db w) = Some existing
         ∧ r = Return existing ∧ w' = w)
  ∨ (orderService.validate request (db w) = None
     ∧ orderService.find_order_by_key
         (CreateOrderRequest.idempotencyKey request) (db w) = None
     ∧ db w' = db w ∧ ∃ e, r = Throw e)
  ∨ (orderService.validate request (db w) = None
     ∧ orderService.find_order_by_key
         (CreateOrderRequest.idempotencyKey request) (db w) = None
     ∧ ∃ po lines,
         r = Return po
         ∧ Forall2 (checked (db w))
                   (orderService.merge_items (CreateOrderRequest.items request)) lines
         ∧ let o := PlacedOrder.order po in
           o = Order.mk (Order.id o) (CreateOrderRequest.user_id request)
                        (orderService.compute_total lines) PENDING (clock w)
           ∧ (∀ o', o' ∈ orders (db w) -> Order.id o' ≠ Order.id o)
           ∧ Forall2 (item_of_line (Order.id o)) lines (PlacedOrder.items po)
           ∧ db w' = mkDb (users (db w))
                          (decremented lines (products (db w)))
                          (orders (db w) ++ [o])
                          (order_items (db w) ++ PlacedOrder.items po)
                          (order_keys (db w)
                           ++ key_entry (CreateOrderRequest.idempotencyKey request)
                                        (Order.id o))).
Proof.
  unfold orderService.placeOrder. intros H.
  destruct (orderService.validate request (db w)) as [msg|] eqn:Hval.
  { simplify_eq. left. by exists msg. }
  destruct (orderService.find_order_by_key _ _) as [existing|] eqn:Hkey.
  { simplify_eq. right. left. split; [done|]. by exists existing. }
  right. right.
  apply transaction_inv in H as [[Hdb He]|(po & w1 & -> & Hbody & ->)].
  { left. by split_and!. }
  right. split_and!; [done..|].
  apply bind_inv in Hbody as [(lines & w2 & Hlock & Hcreate)|(e & _ & ?)]; [|done].
  apply lock_and_check_inv in Hlock as (Hdb & Hs & Hc & _ & Hl).
  specialize (Hl _ eq_refl). simpl in *.
  apply create_order_Return in Hcreate as (Ho & Hfresh & Hitems & Hdb').
  exists po, lines. rewrite Hdb, Hc in *. split_and!; try done.
  rewrite Ho at 1. by rewrite Ho.
Qed.

(** ** Merging the lines of a request *)

Lemma ordered_quantity_add_line pid q ls pid' :
  ordered_quantity (orderService.add_line pid q ls) pid'
  = (if decide (pid = pid') then q else 0) + ordered_quantity ls pid'.
Proof.
  induction ls as [|l ls IH]; simpl.
  - repeat case_decide; lia.
  - destruct (decide (pid = OrderItemInput.product_id l)) as [->|Hne]; simpl.
    + repeat case_decide; simplify_eq; lia.
    + destruct (pid <? OrderItemInput.product_id l); simpl.
      * repeat case_decide; simplify_eq; lia.
      * rewrite IH. repeat case_decide; simplify_eq; lia.
Qed.

Lemma ordered_quantity_merge items pid :
  ordered_quantity (orderService.merge_items items) pid = ordered_quantity items pid.
Proof.
  induction items as [|it items IH]; [done|]. simpl.
  rewrite ordered_quantity_add_line, IH. repeat case_decide; simplify_eq; lia.
Qed.

Lemma add_line_ids pid q ls it :
  it ∈ orderService.add_line pid q ls ->
  OrderItemInput.product_id it = pid
  ∨ ∃ it', it' ∈ ls ∧ OrderItemInput.product_id it = OrderItemInput.product_id it'.
Proof.
  induction ls as [|l ls IH]; simpl.
  - intros ->%list_elem_of_singleton. by left.
  - repeat case_match.
    + intros [->|Hin]%elem_of_cons; [by left|].
      right. exists it. split; [by right|done].
    + intros [->|Hin]%elem_of_cons; [by left|]. right. by exists it.
    + intros [->|Hin]%elem_of_cons.
      * right. exists l. split; [by left|done].
      * destruct (IH Hin) as [?|(it' & Hit' & ?)]; [by left|].
        right. exists it'. split; [by right|done].
Qed.

Lemma add_line_ascending pid q ls :
  ascending ls -> ascending (orderService.add_line pid q ls).
Proof.
  unfold ascending. induction 1 as [|l ls Hs IH Hall]; simpl.
  - repeat constructor.
  - destruct (decide (pid = OrderItemInput.product_id l)) as [->|Hne].
    + by constructor.
    + destruct (pid <? OrderItemInput.product_id l) eqn:Hlt.
      * apply Z.ltb_lt in Hlt. constructor; [by constructor|].
        constructor; [done|]. simpl.
        eapply Forall_impl; [exact Hall|]. simpl. intros; lia.
      * apply Z.ltb_ge in Hlt. constructor; [done|].
        apply Forall_forall. intros it Hit.
        apply add_line_ids in Hit as [->|(it' & Hit' & ->)]; [lia|].
        rewrite Forall_forall in Hall. by apply Hall.
Qed.

Lemma merge_items_ascending items : ascending (orderService.merge_items items).
Proof.
  induction items as [|it items IH]; simpl.
  - constructor.
  - by apply add_line_ascending.
Qed.

Lemma ordered_quantity_absent items pid :
  (∀ it, it ∈ items -> OrderItemInput.product_id it ≠ pid) ->
  ordered_quantity items pid = 0.
Proof.
  induction items as [|it items IH]; [done|]. intros H. simpl.
  case_decide as Hd.
  - exfalso. eapply H; [left|done].
  - apply IH. intros it' Hit'. apply H. by right.
Qed.

(** In a merged request, what is ordered of a product is the quantity of
    its one line, or nothing. *)
Lemma ordered_quantity_ascending items pid :
  ascending items ->
  (∃ it, it ∈ items ∧ OrderItemInput.product_id it = pid
         ∧ ordered_quantity items pid = OrderItemInput.quantity it)
  ∨ ordered_quantity items pid = 0.
Proof.
  unfold ascending. induction 1 as [|l ls Hs IH Hall]; [by right|]. simpl.
  case_decide as Hd.
  - left. exists l. split_and!; [left|done|].
    rewrite ordered_quantity_absent; [lia|].
    intros it Hit. rewrite Forall_forall in Hall. specialize (Hall _ Hit). lia.
  - destruct IH as [(it & Hit & Hpid & Hq)|H0]; [|by right].
    left. exists it. split_and!; [by right|done..].
Qed.

Lemma with_ordered_stock_nil p : with_ordered_stock [] p = p.
Proof. destruct p. unfold with_ordered_stock. simpl. f_equal. lia. Qed.

Lemma decremented_spec lines ps :
  decremented lines ps = with_ordered_stock (line_item <$> lines) <$> ps.
Proof.
  revert ps. induction lines as [|l lines IH]; intros ps; simpl.
  - induction ps as [|p ps IHps]; [done|].
    rewrite fmap_cons, with_ordered_stock_nil. by f_equal.
  - unfold decremented in *. simpl. rewrite IH, <-list_fmap_compose.
    apply list_fmap_ext. intros _ p _. simpl.
    unfold orderService.with_stock_less, with_ordered_stock. simpl.
    repeat case_decide; simplify_eq/=; f_equal; try lia.
Qed.

Lemma checked_line_items d items lines :
  Forall2 (checked d) items lines -> line_item <$> lines = items.
Proof.
  induction 1 as [|it line items lines (p & _ & _ & ->) _ IH]; [done|].
  rewrite fmap_cons, IH. by destruct it.
Qed.

(** The stock decrements of a committed order, in terms of the request. *)
Lemma decremented_request d request lines :
  Forall2 (checked d)
          (orderService.merge_items (CreateOrderRequest.items request)) lines ->
  decremented lines (products d)
  = with_ordered_stock (CreateOrderRequest.items request) <$> products d.
Proof.
  intros H. rewrite decremented_spec, (checked_line_items _ _ _ H).
  apply list_fmap_ext. intros _ p _. unfold with_ordered_stock.
  by rewrite ordered_quantity_merge.
Qed.

(** ** Validation *)

(** C4. A request with no items, with a quantity that is not positive, or
    with a userId that no user row carries, is answered with a
    ValidationError; no statement is sent and the world is left as it was. *)
Theorem placeOrder_validation (request : CreateOrderRequest.t) (w : World) :
  CreateOrderRequest.items request = []
  ∨ (∃ it, it ∈ CreateOrderRequest.items request ∧ OrderItemInput.quantity it <= 0)
  ∨ (∀ u, u ∈ users (db w) -> User.id u ≠ CreateOrderRequest.user_id request) ->
  ∃ msg w',
    orderService.placeOrder request w = (Throw (ValidationError msg), w')
    ∧ kind (ValidationError msg) = validation_error
    ∧ db w' = db w ∧ mutations w' = mutations w ∧ w' = w.
Proof.
  intros H.
  assert (∃ msg, orderService.validate request (db w) = Some msg) as [msg Hmsg].
  { unfold orderService.validate.
    destruct (Sql.nonempty (CreateOrderRequest.items request)) eqn:Hne; simpl;
      [|by eexists].
    destruct (forallb _ _) eqn:Hall; simpl; [|by eexists].
    destruct (Sql.nonempty (filter _ _)) eqn:Huser; simpl; [|by eexists].
    exfalso. destruct H as [Hnil|[(it & Hit & Hq)|Hnone]].
    - rewrite Hnil in Hne. done.
    - rewrite forallb_forall in Hall. apply list_elem_of_In in Hit.
      specialize (Hall _ Hit). apply Z.ltb_lt in Hall. lia.
    - apply nonempty_filter in Huser as (u & Hu & Hid). by eapply Hnone. }
  exists msg, w. unfold orderService.placeOrder. rewrite Hmsg. done.
Qed.

(** ** Atomicity *)

Lemma checked_items_of_lines d items lines oid rows :
  Forall2 (checked d) items lines -> Forall2 (item_of_line oid) lines rows ->
  Forall2 (item_of_request_line oid) items rows.
Proof.
  intros H. revert rows. induction H as [|it line items lines (p & _ & _ & ->) _ IH];
    intros rows Hrows; inversion Hrows; simplify_eq; constructor.
  - unfold item_of_line, item_of_request_line in *. simpl in *. tauto.
  - by apply IH.
Qed.

(** C1. A placement either fails, with a typed failure and the tables
    exactly as they were, or succeeds; and a success is either a replay that
    writes nothing or the whole of the order: the Order row, one OrderItem
    row per (merged) line, and the stock of every product lowered by the
    quantity ordered of it. *)
Theorem placeOrder_all_or_nothing (request : CreateOrderRequest.t) (w : World) :
  match orderService.placeOrder request w with
  | (Throw e, w') =>
      db w' = db w
      ∧ In (kind e) [validation_error; not_found; insufficient_stock; transient_error]
  | (Return po, w') =>
      db w' = db w
      ∨ (Forall2 (item_of_request_line (Order.id (PlacedOrder.order po)))
                 (orderService.merge_items (CreateOrderRequest.items request))
                 (PlacedOrder.items po)
         ∧ db w' = mkDb (users (db w))
                        (with_ordered_stock (CreateOrderRequest.items request)
                         <$> products (db w))
                        (orders (db w) ++ [PlacedOrder.order po])
                        (order_items (db w) ++ PlacedOrder.items po)
                        (order_keys (db w)
                         ++ key_entry (CreateOrderRequest.idempotencyKey request)
                                      (Order.id (PlacedOrder.order po))))
  end.
Proof.
  destruct (orderService.placeOrder request w) as [r w'] eqn:Hrun.
  apply placeOrder_inv in Hrun
    as [(msg & _ & -> & ->)
       |[(_ & existing & _ & -> & ->)
        |[(_ & _ & Hdb & e & ->)
         |(_ & _ & po & lines & -> & Hchk & _ & _ & Hrows & Hdb)]]].
  - split; [done|simpl; tauto].
  - by left.
  - split; [done|destruct e; simpl; tauto].
  - right. split; [by eapply checked_items_of_lines|].
    rewrite Hdb. by rewrite (decremented_request _ _ _ Hchk).
Qed.

(** ** Totals *)

Lemma filter_none {A} (P : A -> Prop) `{!∀ x, Decision (P x)} (l : list A) :
  (∀ x, x ∈ l -> ¬ P x) -> filter P l = [].
Proof.
  induction l as [|x l IH]; [done|]. intros Hl.
  rewrite filter_cons_False by (apply Hl; left).
  apply IH. intros y Hy. apply Hl. by right.
Qed.

Lemma filter_all {A} (P : A -> Prop) `{!∀ x, Decision (P x)} (l : list A) :
  Forall P l -> filter P l = l.
Proof.
  induction 1 as [|x l Hx _ IH]; [done|].
  by rewrite filter_cons_True, IH.
Qed.

Lemma find_order_by_key_Some key d po :
  orderService.find_order_by_key key d = Some po ->
  PlacedOrder.order po ∈ orders d.
Proof.
  unfold orderService.find_order_by_key. destruct key as [k|]; [|done]. simpl.
  destruct (head (filter _ (order_keys d))) as [entry|]; [|done]. simpl.
  destruct (head (filter _ (orders d))) as [o|] eqn:Ho; [|done]. simpl.
  intros ?; simplify_eq. simpl. by apply head_filter_elem in Ho as [? _].
Qed.

Lemma items_total_lines oid lines rows :
  Forall2 (item_of_line oid) lines rows ->
  items_total rows = orderService.compute_total lines.
Proof.
  induction 1 as [|line row lines rows (_ & _ & Hq & Hp) _ IH]; [done|].
  simpl. by rewrite Hq, Hp, IH.
Qed.

Lemma checked_prices d items lines oid rows :
  Forall2 (checked d) items lines -> Forall2 (item_of_line oid) lines rows ->
  Forall (fun row => price_of (OrderItem.product_id row) d = Some (OrderItem.price row))
         rows.
Proof.
  intros H. revert rows.
  induction H as [|it line items lines (p & Hp & _ & ->) _ IH];
    intros rows Hrows; inversion Hrows as [|? row ? rows' (_ & Hpid & _ & Hprice)];
    simplify_eq; constructor.
  - unfold price_of. simpl in *. by rewrite Hpid, Hp, Hprice.
  - by apply IH.
Qed.

(** C3. The order a placement creates carries as total_amount the sum, over
    its OrderItem rows, of price times quantity; each of those prices is the
    price on record for the product when the call was made; and the outcome
    is the same whatever total the client sent along. *)
Theorem placeOrder_total (request : CreateOrderRequest.t) (w : World)
    (po : PlacedOrder.t) (w' : World) :
  orderService.placeOrder request w = (Return po, w') ->
  PlacedOrder.order po ∉ orders (db w) ->
  Order.total_amount (PlacedOrder.order po) = items_total (PlacedOrder.items po)
  ∧ Forall (fun row =>
              price_of (OrderItem.product_id row) (db w) = Some (OrderItem.price row))
           (PlacedOrder.items po)
  ∧ ∀ t, orderService.placeOrder (with_client_total t request) w = (Return po, w').
Proof.
  intros Hrun Hnew. split_and!; [| |by intros t].
  all: apply placeOrder_inv in Hrun
    as [(msg & _ & ? & _)
       |[(_ & existing & Hfind & ? & _)
        |[(_ & _ & _ & e & ?)
         |(_ & _ & po' & lines & ? & Hchk & Ho & _ & Hrows & _)]]]; simplify_eq.
  1,3: by apply find_order_by_key_Some in Hfind.
  - rewrite Ho. simpl. symmetry. by eapply items_total_lines.
  - by eapply checked_prices.
Qed.

(** ** Idempotency *)

Lemma validate_same_users request d d' :
  users d' = users d ->
  orderService.validate request d' = orderService.validate request d.
Proof. unfold orderService.validate. by intros ->. Qed.

Lemma find_order_by_key_None k d :
  references_orders d ->
  orderService.find_order_by_key (Some k) d = None ->
  filter (fun e : string * Z => e.1 = k) (order_keys d) = [].
Proof.
  intros [_ Hkeys]. unfold orderService.find_order_by_key. simpl.
  destruct (filter _ (order_keys d)) as [|entry es] eqn:E; [done|]. simpl.
  assert (entry ∈ order_keys d) as Hentry.
  { assert (entry ∈ filter (fun e : string * Z => e.1 = k) (order_keys d)) as Hin
        by (rewrite E; left).
    apply list_elem_of_filter in Hin. tauto. }
  destruct (Hkeys _ Hentry) as (o & Ho & Hid).
  destruct (filter _ (orders d)) as [|o' os] eqn:E'; [|done].
  exfalso. eapply (filter_nil_not_elem_of _ _ o E'); done.
Qed.

(** C6. Once a request carrying an idempotency key has succeeded, replaying
    it returns the very same order and leaves the world untouched: no
    second Order, no further OrderItems, no further change of stock, no
    statement sent. *)
Theorem placeOrder_idempotent (request : CreateOrderRequest.t) (k : string)
    (w w1 : World) (po : PlacedOrder.t) :
  CreateOrderRequest.idempotencyKey request = Some k ->
  references_orders (db w) ->
  orderService.placeOrder request w = (Return po, w1) ->
  ∀ w2, db w2 = db w1 ->
        orderService.placeOrder request w2 = (Return po, w2).
Proof.
  intros Hk Href Hrun w2 Hdb2.
  apply placeOrder_inv in Hrun
    as [(msg & _ & ? & _)
       |[(Hval & existing & Hfind & ? & ->)
        |[(_ & _ & _ & e & ?)
         |(Hval & Hfind & po' & lines & ? & Hchk & Ho & Hfresh & Hrows & Hdb1)]]];
    simplify_eq.
  - unfold orderService.placeOrder. by rewrite Hdb2, Hval, Hfind.
  - unfold orderService.placeOrder. rewrite Hdb2.
    rewrite (validate_same_users _ (db w)), Hval by (by rewrite Hdb1).
    rewrite Hk in *. simpl in Hdb1.
    assert (orderService.find_order_by_key (Some k) (db w1) = Some po') as ->; [|done].
    unfold orderService.find_order_by_key. rewrite Hdb1. simpl.
    rewrite filter_app, (find_order_by_key_None _ _ Href Hfind).
    rewrite filter_cons_True by done. simpl.
    rewrite filter_app, (filter_none (fun o => Order.id o = _) (orders (db w)) Hfresh).
    rewrite filter_cons_True by done. simpl.
    rewrite filter_app, (filter_none _ (order_items (db w))).
    + rewrite (filter_all _ (PlacedOrder.items po')); [by destruct po'|].
      eapply Forall2_Forall_r; [exact Hrows|].
      apply Forall_forall. by intros line _ row (? & _).
    + intros it Hit Hid. destruct Href as [Hitems _].
      destruct (Hitems _ Hit) as (o & Hin & Hoid).
      apply (Hfresh _ Hin). congruence.
Qed.

(** ** Stock never goes negative *)

Lemma pk_unique {A} (f : A -> Z) (l : list A) x y :
  NoDup (f <$> l) -> x ∈ l -> y ∈ l -> f x = f y -> x = y.
Proof.
  induction l as [|a l IH]; [by intros _ ?%elem_of_nil|].
  rewrite fmap_cons. intros [Hnotin Hnodup]%NoDup_cons.
  intros [->|Hx]%elem_of_cons [->|Hy]%elem_of_cons Hf; [done| | |by apply IH].
  - exfalso. apply Hnotin. rewrite Hf. by apply list_elem_of_fmap_2.
  - exfalso. apply Hnotin. rewrite <-Hf. by apply list_elem_of_fmap_2.
Qed.

Lemma stocks_nonneg_Forall d :
  stocks_nonneg d ↔ Forall (fun p => 0 <= Product.stock p) (products d).
Proof. unfold stocks_nonneg. by rewrite Forall_forall. Qed.

Lemma placeOrder_stocks_nonneg request w r w' :
  orderService.placeOrder request w = (r, w') ->
  products_pk (db w) -> stocks_nonneg (db w) -> stocks_nonneg (db w').
Proof.
  intros Hrun Hpk Hnn.
  apply placeOrder_inv in Hrun
    as [(msg & _ & _ & ->)
       |[(_ & existing & _ & _ & ->)
        |[(_ & _ & -> & _)
         |(_ & _ & po & lines & _ & Hchk & _ & _ & _ & Hdb)]]]; try done.
  rewrite Hdb, (decremented_request _ _ _ Hchk). intros p'. simpl.
  intros (p & -> & Hp)%list_elem_of_fmap. simpl.
  specialize (Hnn _ Hp).
  rewrite <-ordered_quantity_merge.
  destruct (ordered_quantity_ascending _ (Product.id p)
              (merge_items_ascending (CreateOrderRequest.items request)))
    as [(it & Hit & Hpid & ->)| ->]; [|lia].
  apply list_elem_of_lookup in Hit as [i Hi].
  destruct (Forall2_lookup_l _ _ _ _ _ Hchk Hi) as (line & _ & p0 & Hp0 & Hq & _).
  apply head_filter_elem in Hp0 as [Hin0 Hid0].
  assert (p0 = p) as -> by (eapply (pk_unique Product.id); [done..|congruence]).
  lia.
Qed.

(** C2 (amended). On tables whose stocks are all non-negative:
    createProduct leaves them so when the requested stock is non-negative,
    updateProduct leaves them so when the requested stock, if any, is
    non-negative, and a placement leaves them so (product ids being
    unique).  The services store the requested stock as it comes. *)
Theorem stock_stays_nonnegative (w : World) :
  stocks_nonneg (db w) ->
  (∀ productData r w',
      productService.createProduct productData w = (r, w') ->
      0 <= CreateProductRequest.stock productData ->
      stocks_nonneg (db w'))
  ∧ (∀ id updateData r w',
      productService.updateProduct id updateData w = (r, w') ->
      (∀ s, UpdateProductRequest.stock updateData = Some s -> 0 <= s) ->
      stocks_nonneg (db w'))
  ∧ (∀ request r w',
      orderService.placeOrder request w = (r, w') ->
      products_pk (db w) ->
      stocks_nonneg (db w')).
Proof.
  intros Hnn. split_and!.
  - intros productData r w' Hrun Hstock.
    apply createProduct_inv in Hrun as [[-> _]|(i & _ & Hdb & _)]; [done|].
    rewrite Hdb. intros p. simpl.
    intros [Hp| ->%list_elem_of_singleton]%elem_of_app; [by apply Hnn|done].
  - intros id updateData r w' Hrun Hstock.
    apply updateProduct_inv in Hrun as [[-> _]|(i & product & _ & Hhead & Hdb & _)];
      [done|].
    rewrite Hdb. intros p'. simpl.
    intros (p & -> & Hp)%list_elem_of_fmap.
    unfold Sql.updated_product. case_decide; [|by apply Hnn]. simpl.
    destruct (UpdateProductRequest.stock updateData) as [s|] eqn:Hs; simpl.
    + by apply Hstock.
    + apply head_filter_elem in Hhead as [Hin _]. by apply Hnn.
  - intros request r w' Hrun Hpk. by eapply placeOrder_stocks_nonneg.
Qed.

(** C2 as stated fails: POST /products with a stock of -5 is answered 201
    and the row is stored with that stock; PUT /products/1 with a stock of
    -3 is answered 200 and overwrites a stock of 10. *)
Lemma stock_stays_nonnegative_counterexample :
  let created :=
    productController.createProduct
      (UpdateProductRequest.mk (Some "Gift card") (Some 2500) (Some (-5)))
      sample_world in
  let updated :=
    productController.updateProduct "1"
      (UpdateProductRequest.mk None None (Some (-3))) sample_world in
  stocks_nonneg (db sample_world)
  ∧ statusCode created.1 = 201 ∧ stock_of 3 (db created.2) = Some (-5)
  ∧ ¬ stocks_nonneg (db created.2)
  ∧ statusCode updated.1 = 200 ∧ stock_of 1 (db updated.2) = Some (-3)
  ∧ ¬ stocks_nonneg (db updated.2).
Proof.
  simpl. split_and!; try (vm_compute; reflexivity).
  - apply stocks_nonneg_Forall. simpl.
    repeat (apply Forall_cons; split; [simpl; lia|]). apply Forall_nil_2.
  - intros H. specialize (H (Product.mk 3 "Gift card" 2500 (-5) 1000)).
    simpl in H. cut (0 <= -5); [lia|]. apply H. vm_compute. repeat constructor.
  - intros H. specialize (H (Product.mk 1 "Laptop Pro" 99999 (-3) 0)).
    simpl in H. cut (0 <= -3); [lia|]. apply H. vm_compute. repeat constructor.
Qed.

(** ** Concurrent placements: every interleaving *)

Lemma roundtrip_ok w : faults w = [] -> Sql.roundtrip w = (Return (), w).
Proof. destruct w; simpl. intros ->. done. Qed.

Lemma begin_ok w :
  faults w = [] -> orderService.step Sql.roundtrip w = (Return (), w).
Proof.
  intros H. unfold orderService.step, try_catch. by rewrite roundtrip_ok.
Qed.

Lemma select_for_update_ok pid w :
  faults w = [] ->
  orderService.step (orderService.select_product_for_update pid) w
  = (Return (filter (fun p => Product.id p = pid) (products (db w))), w).
Proof.
  intros H. unfold orderService.step, orderService.select_product_for_update,
    try_catch, mbind, M_bind. by rewrite roundtrip_ok.
Qed.

Lemma commit_ok req line w :
  faults w = [] -> sequences_ahead w ->
  CreateOrderRequest.idempotencyKey req = None ->
  ∃ po w',
    (po ← orderService.create_order req [line];
     _ ← orderService.step Sql.roundtrip;
     mret po) w = (Return po, w')
    ∧ faults w' = []
    ∧ users (db w') = users (db w)
    ∧ sequences_ahead w'
    ∧ products (db w')
      = orderService.with_stock_less (Line.quantity line) (Line.product_id line)
        <$> products (db w).
Proof.
  destruct w as [d sq c f m]. simpl. intros -> [Ho Hi] Hk. simpl in *.
  unfold orderService.create_order, orderService.insert_order,
    orderService.insert_items, orderService.insert_order_item,
    orderService.decrement_all, orderService.decrement_stock, orderService.step.
  rewrite Hk. unfold_sql. simpl.
  assert (filter (fun o => Order.id o = orders_id_seq sq) (orders d) = []) as ->.
  { apply filter_none. intros o Hin ?. specialize (Ho _ Hin). lia. }
  simpl.
  assert (filter (fun it => OrderItem.id it = order_items_id_seq sq) (order_items d)
          = []) as ->.
  { apply filter_none. intros it Hin ?. specialize (Hi _ Hin). lia. }
  simpl. eexists _, _. split; [reflexivity|]. simpl. split_and!; try done.
  split; simpl.
  - intros o [Hin| ->%list_elem_of_singleton]%elem_of_app; simpl.
    + specialize (Ho _ Hin). lia.
    + lia.
  - intros it [Hin| ->%list_elem_of_singleton]%elem_of_app; simpl.
    + specialize (Hi _ Hin). lia.
    + lia.
Qed.

Lemma filter_with_stock_less q pid (ps : list Product.t) :
  filter (fun p => Product.id p = pid) (orderService.with_stock_less q pid <$> ps)
  = orderService.with_stock_less q pid <$> filter (fun p => Product.id p = pid) ps.
Proof.
  induction ps as [|p ps IH]; [done|]. rewrite fmap_cons.
  destruct (decide (Product.id p = pid)) as [Hid|Hid].
  - rewrite !filter_cons_True, fmap_cons, IH; [done..|].
    unfold orderService.with_stock_less. by case_decide.
  - rewrite !filter_cons_False, IH; [done..|].
    unfold orderService.with_stock_less. by case_decide.
Qed.

Lemma stock_of_decrement q pid d d' s :
  products d' = orderService.with_stock_less q pid <$> products d ->
  stock_of pid d = Some s -> stock_of pid d' = Some (s - q).
Proof.
  unfold stock_of. intros ->. rewrite filter_with_stock_less.
  destruct (filter _ (products d)) as [|p ps] eqn:E; [done|]. simpl.
  intros ?; simplify_eq.
  assert (p ∈ filter (fun p => Product.id p = pid) (products d)) as Hin
      by (rewrite E; left).
  apply list_elem_of_filter in Hin as [Hid _].
  unfold orderService.with_stock_less. by case_decide.
Qed.

Lemma length_filter_insert {A} (f : A -> bool) (l : list A) i x y :
  l !! i = Some x ->
  (length (List.filter f (<[i:=y]> l)) + (if f x then 1 else 0)
   = length (List.filter f l) + (if f y then 1 else 0))%nat.
Proof.
  revert i. induction l as [|a l IH]; intros [|i] H; simplify_eq/=.
  - destruct (f x), (f y); simpl; lia.
  - specialize (IH _ H). destruct (f a); simpl; lia.
Qed.

Lemma sum_list_insert {A} (f : A -> nat) (l : list A) i x y :
  l !! i = Some x ->
  (sum_list (f <$> <[i:=y]> l) + f x = sum_list (f <$> l) + f y)%nat.
Proof.
  revert i. induction l as [|a l IH]; intros [|i] H; simplify_eq/=.
  - lia.
  - specialize (IH _ H). lia.
Qed.

(** A step rewrites one client, and brings it closer to its end. *)
Lemma client_step_inv i st st' :
  Concurrent.client_step i st = Some st' ->
  ∃ c ph,
    Concurrent.clients st !! i = Some c
    ∧ Concurrent.clients st'
      = <[i := Concurrent.mkClient (Concurrent.request c) ph]> (Concurrent.clients st)
    ∧ (remaining (Concurrent.mkClient (Concurrent.request c) ph) < remaining c)%nat.
Proof.
  unfold Concurrent.client_step. intros H.
  destruct (Concurrent.clients st !! i) as [c|] eqn:Hc; [|done]. simpl in H.
  exists c. unfold remaining.
  destruct (Concurrent.phase c) as [|[|it rest] lines|r] eqn:Hph;
    repeat case_match; simplify_eq/=; eexists; (split; [done|]);
    (split; [reflexivity|]); simpl; lia.
Qed.

Lemma step_remaining st st' :
  Concurrent.step st st' -> (remaining_steps st' < remaining_steps st)%nat.
Proof.
  intros [i (c & ph & Hc & Hcs & Hlt)%client_step_inv].
  unfold remaining_steps. rewrite Hcs.
  pose proof (sum_list_insert remaining _ _ _
                (Concurrent.mkClient (Concurrent.request c) ph) Hc). lia.
Qed.

Lemma run_remaining n st st' :
  Concurrent.run n st st' -> (n + remaining_steps st' <= remaining_steps st)%nat.
Proof.
  induction 1 as [|n st st1 st2 Hstep _ IH]; [lia|].
  apply step_remaining in Hstep. lia.
Qed.

Lemma validate_unit P d req :
  unit_request P (users d) req -> orderService.validate req d = None.
Proof.
  intros (Hitems & _ & u & Hu & Hid). unfold orderService.validate.
  rewrite Hitems. simpl.
  assert (Sql.nonempty (filter (fun u => User.id u = CreateOrderRequest.user_id req)
                               (users d)) = true) as ->; [|done].
  apply nonempty_filter. by exists u.
Qed.

Lemma stock_of_found P d s :
  stock_of P d = Some s ->
  ∃ p ps, filter (fun p => Product.id p = P) (products d) = p :: ps
          ∧ Product.stock p = s.
Proof.
  unfold stock_of. destruct (filter _ _) as [|p ps]; [done|]. simpl.
  intros ?; simplify_eq. by exists p, ps.
Qed.

Lemma client_ok_acquire P s i j c :
  i ≠ j -> client_ok P s None j c -> client_ok P s (Some i) j c.
Proof.
  unfold client_ok. intros Hne H. repeat case_match; intuition congruence.
Qed.

Lemma client_ok_commit P s i j c :
  i ≠ j -> 1 <= s -> client_ok P s (Some i) j c -> client_ok P (s - 1) None j c.
Proof.
  unfold client_ok. intros Hne Hs H.
  repeat case_match; try done; intuition (congruence || lia).
Qed.

Lemma successes_insert st i c c' :
  Concurrent.clients st !! i = Some c ->
  Concurrent.is_success c = false ->
  Z.of_nat (length (List.filter Concurrent.is_success
                                (<[i:=c']> (Concurrent.clients st))))
  = Z.of_nat (Concurrent.successes st)
    + (if Concurrent.is_success c' then 1 else 0).
Proof.
  intros Hc Hs. pose proof (length_filter_insert Concurrent.is_success _ _ _ c' Hc).
  unfold Concurrent.successes. rewrite Hs in *. destruct (Concurrent.is_success c'); lia.
Qed.

Lemma step_invariant P S registered N st st' :
  placements_invariant P S registered N st ->
  Concurrent.step st st' ->
  placements_invariant P S registered N st'.
Proof.
  intros (s & h & Hf & Hu & Hseq & Hstock & Hs0 & Hsum & Hlocks & Hlen & Hholder & Hcs)
         [i Hstep].
  unfold Concurrent.client_step in Hstep.
  destruct (Concurrent.clients st !! i) as [c|] eqn:Hc; [|done]. simpl in Hstep.
  destruct (Hcs _ _ Hc) as [Hreq Hok].
  pose proof Hreq as (Hitems & Hkey & _).
  assert (∀ c', Z.of_nat (length (List.filter Concurrent.is_success
                                     (<[i:=c']> (Concurrent.clients st))))
               = Z.of_nat (Concurrent.successes st)
                 + (if Concurrent.is_success c' then 1 else 0)) as Hcount.
  { intros c'. apply (successes_insert st i c); [done|].
    unfold Concurrent.is_success. unfold client_ok in Hok.
    by repeat case_match. }
  assert (i < length (Concurrent.clients st))%nat as Hi
      by (by eapply lookup_lt_Some).
  unfold client_ok in Hok.
  destruct (Concurrent.phase c) as [|[|it [|]] [|line [|]]|[po|[]]] eqn:Hph;
    try done.
  - (* Ready: validation passes, the transaction begins *)
    rewrite (validate_unit P), Hkey, begin_ok, Hitems in Hstep
      by (done || by rewrite Hu).
    simpl in Hstep. simplify_eq.
    exists s, h. unfold Concurrent.advance, Concurrent.successes in *. simpl.
    split_and!; try done.
    + rewrite Hcount. simpl. lia.
    + by rewrite length_insert.
    + intros j ->. destruct (Hholder _ eq_refl) as (c' & line & Hc' & Hph').
      exists c', line. rewrite list_lookup_insert_ne by congruence. done.
    + intros j c' Hj. destruct (decide (i = j)) as [->|Hne].
      * rewrite list_lookup_insert_eq in Hj by done. simplify_eq. done.
      * rewrite list_lookup_insert_ne in Hj by done. by apply Hcs.
  - (* the commit *)
    destruct Hok as (-> & Hpid & Hq & Hs1).
    destruct (commit_ok (Concurrent.request c) line (Concurrent.world st) Hf Hseq Hkey)
      as (po & w' & Hrun & Hf' & Hu' & Hseq' & Hprod).
    rewrite Hrun in Hstep. simplify_eq.
    exists (s - 1), None. unfold Concurrent.finish, Concurrent.successes in *. simpl.
    split_and!; try done.
    + rewrite Hq in Hprod. by eapply stock_of_decrement.
    + lia.
    + rewrite Hcount. simpl. lia.
    + rewrite Hlocks. simpl. unfold Concurrent.release.
      by rewrite filter_cons_False by (simpl; intros ?; done).
    + by rewrite length_insert.
    + intros j c' Hj. destruct (decide (i = j)) as [->|Hne].
      * rewrite list_lookup_insert_eq in Hj by done. simplify_eq. done.
      * rewrite list_lookup_insert_ne in Hj by done.
        destruct (Hcs _ _ Hj) as [? ?]. split; [done|].
        by apply (client_ok_commit _ s i).
  - (* lock and check *)
    destruct Hok as [-> Hh]. simpl in Hstep.
    destruct h as [j|].
    { rewrite Hlocks in Hstep. unfold Concurrent.held_by_other in Hstep. simpl in Hstep.
      rewrite filter_cons_True in Hstep by (simpl; split; congruence). done. }
    rewrite Hlocks in Hstep. simpl in Hstep.
    rewrite select_for_update_ok in Hstep by done.
    destruct (stock_of_found _ _ _ Hstock) as (p & ps & Hfound & Hp).
    unfold orderService.check_line in Hstep. rewrite Hfound in Hstep. simpl in Hstep.
    rewrite Hp in Hstep.
    destruct (s <? 1) eqn:Hlt; simplify_eq.
    + apply Z.ltb_lt in Hlt.
      exists (Product.stock p), None.
      unfold Concurrent.finish, Concurrent.successes in *. simpl.
      split_and!; try done.
      * rewrite Hcount. simpl. lia.
      * by rewrite Hlocks.
      * by rewrite length_insert.
      * intros j c' Hj. destruct (decide (i = j)) as [->|Hne].
        -- rewrite list_lookup_insert_eq in Hj by done. simplify_eq.
           split; [done|]. unfold client_ok. simpl. split; [lia|done].
        -- rewrite list_lookup_insert_ne in Hj by done. by apply Hcs.
    + apply Z.ltb_ge in Hlt.
      exists (Product.stock p), (Some i).
      unfold Concurrent.advance, Concurrent.successes in *. simpl.
      split_and!; try done.
      * rewrite Hcount. simpl. lia.
      * by rewrite length_insert.
      * intros j ?; simplify_eq. eexists _, _.
        rewrite list_lookup_insert_eq by done. done.
      * intros j c' Hj. destruct (decide (i = j)) as [->|Hne].
        -- rewrite list_lookup_insert_eq in Hj by done. simplify_eq. done.
        -- rewrite list_lookup_insert_ne in Hj by done.
           destruct (Hcs _ _ Hj) as [? ?]. split; [done|].
           by apply client_ok_acquire.
Qed.

Lemma run_invariant P S registered N n st st' :
  Concurrent.run n st st' ->
  placements_invariant P S registered N st ->
  placements_invariant P S registered N st'.
Proof.
  induction 1 as [|n st st1 st2 Hstep _ IH]; [done|].
  intros Hinv. apply IH. by eapply step_invariant.
Qed.

Lemma init_invariant P S w requests :
  faults w = [] -> sequences_ahead w -> stock_of P (db w) = Some S -> 0 <= S ->
  Forall (unit_request P (users (db w))) requests ->
  placements_invariant P S (users (db w)) (length requests) (Concurrent.init w requests).
Proof.
  intros Hf Hseq Hstock HS Hreqs. exists S, None.
  unfold Concurrent.init, Concurrent.successes. simpl. split_and!; try done.
  - assert (List.filter Concurrent.is_success
              ((fun r => Concurrent.mkClient r Concurrent.Ready) <$> requests) = [])
      as ->; [|simpl; lia].
    induction requests as [|r rs IH]; [done|]. simpl. apply IH.
    by inversion Hreqs.
  - by rewrite length_fmap.
  - intros i c Hc. rewrite list_lookup_fmap in Hc.
    destruct (requests !! i) as [r|] eqn:Hr; simplify_eq/=.
    split; [|done]. rewrite Forall_forall in Hreqs. apply Hreqs.
    by eapply list_elem_of_lookup_2.
Qed.

Lemma finished_dec c : Decision (finished c).
Proof.
  unfold finished. destruct (Concurrent.phase c); [right|right|left];
    [by intros [? ?]|by intros [? ?]|by eexists].
Defined.

(** No deadlock: as long as a client has not finished, some client can move. *)
Lemma progress P S registered N st :
  placements_invariant P S registered N st ->
  Forall finished (Concurrent.clients st) ∨ ∃ st', Concurrent.step st st'.
Proof.
  intros (s & h & Hf & Hu & Hseq & Hstock & Hs0 & Hsum & Hlocks & Hlen & Hholder & Hcs).
  destruct (Forall_Exists_dec finished (fun c => ¬ finished c) finished_dec
              (Concurrent.clients st)) as [Hall|Hex]; [by left|right].
  apply Exists_exists in Hex as (c & Hin & Hnot).
  apply list_elem_of_lookup in Hin as [i Hc].
  assert (∀ j cj line, Concurrent.clients st !! j = Some cj ->
                       Concurrent.phase cj = Concurrent.Locking [] line ->
                       ∃ st', Concurrent.step st st') as Hcommit.
  { intros j cj line Hj Hph. unfold Concurrent.step, Concurrent.client_step.
    exists (match Concurrent.client_step j st with Some st' => st' | None => st end), j.
    unfold Concurrent.client_step. rewrite Hj. simpl. rewrite Hph.
    by repeat case_match. }
  destruct (Concurrent.phase c) as [|[|it rest] lines|r] eqn:Hph.
  - exists (match Concurrent.client_step i st with Some st' => st' | None => st end), i.
    unfold Concurrent.client_step. rewrite Hc. simpl. rewrite Hph.
    by repeat case_match.
  - by eapply Hcommit.
  - destruct h as [j|].
    + destruct (Hholder _ eq_refl) as (cj & line & Hj & Hphj). by eapply Hcommit.
    + exists (match Concurrent.client_step i st with Some st' => st' | None => st end), i.
      unfold Concurrent.client_step. rewrite Hc. simpl. rewrite Hph, Hlocks. simpl.
      by repeat case_match.
  - exfalso. apply Hnot. by exists r.
Qed.

Lemma finished_terminal st :
  Forall finished (Concurrent.clients st) -> Concurrent.terminal st.
Proof.
  intros Hall st' [i Hstep]. unfold Concurrent.client_step in Hstep.
  destruct (Concurrent.clients st !! i) as [c|] eqn:Hc; [|done]. simpl in Hstep.
  rewrite Forall_forall in Hall.
  destruct (Hall c) as [r Hr]; [by eapply list_elem_of_lookup_2|].
  by rewrite Hr in Hstep.
Qed.

Lemma terminal_finished P S registered N st :
  placements_invariant P S registered N st ->
  Concurrent.terminal st -> Forall finished (Concurrent.clients st).
Proof.
  intros Hinv Hterm. destruct (progress _ _ _ _ _ Hinv) as [?|[st' Hstep]]; [done|].
  by destruct (Hterm st').
Qed.

(** Every schedule can be run to its end. *)
Lemma run_to_end P S registered N st :
  placements_invariant P S registered N st ->
  ∃ n st', Concurrent.run n st st' ∧ Concurrent.terminal st'.
Proof.
  remember (remaining_steps st) as k eqn:Hk. revert st Hk.
  induction k as [k IH] using lt_wf_ind. intros st -> Hinv.
  destruct (progress _ _ _ _ _ Hinv) as [Hall|[st1 Hstep]].
  - exists 0%nat, st. split; [constructor|by apply finished_terminal].
  - destruct (IH (remaining_steps st1) (step_remaining _ _ Hstep) st1 eq_refl)
      as (n & st' & Hrun & Hterm); [by eapply step_invariant|].
    exists (Datatypes.S n), st'. split; [by econstructor|done].
Qed.

Lemma outcomes_partition (cs : list Concurrent.Client) :
  (∀ c, c ∈ cs -> Concurrent.is_success c = negb (Concurrent.is_stock_failure c)) ->
  (length (List.filter Concurrent.is_success cs)
   + length (List.filter Concurrent.is_stock_failure cs) = length cs)%nat.
Proof.
  induction cs as [|c cs IH]; [done|]. intros H. simpl.
  rewrite (H c) by left.
  assert (∀ c', c' ∈ cs -> Concurrent.is_success c'
                            = negb (Concurrent.is_stock_failure c')) as H'
      by (intros c' Hc'; apply H; by right).
  specialize (IH H').
  destruct (Concurrent.is_stock_failure c); simpl; lia.
Qed.

Lemma final_counts P S registered N st :
  placements_invariant P S registered N st ->
  Forall finished (Concurrent.clients st) ->
  Z.of_nat (Concurrent.successes st) = Z.min (Z.of_nat N) S
  ∧ Z.of_nat (Concurrent.stock_failures st) = Z.of_nat N - Z.min (Z.of_nat N) S
  ∧ stock_of P (db (Concurrent.world st)) = Some (S - Z.min (Z.of_nat N) S).
Proof.
  intros (s & h & Hf & Hu & Hseq & Hstock & Hs0 & Hsum & Hlocks & Hlen & Hholder & Hcs)
         Hall.
  rewrite Forall_forall in Hall.
  assert (Concurrent.successes st + Concurrent.stock_failures st = N)%nat as Hpart.
  { rewrite <-Hlen. apply outcomes_partition. intros c Hin.
    destruct (Hall _ Hin) as [r Hr].
    apply list_elem_of_lookup in Hin as [i Hc].
    destruct (Hcs _ _ Hc) as [_ Hok]. unfold client_ok in Hok.
    unfold Concurrent.is_success, Concurrent.is_stock_failure.
    rewrite Hr in *. by repeat case_match. }
  assert ((0 < Concurrent.stock_failures st)%nat -> s = 0) as Hzero.
  { unfold Concurrent.stock_failures. intros Hpos.
    destruct (List.filter _ _) as [|c cs] eqn:E; [simpl in Hpos; lia|].
    assert (In c (List.filter Concurrent.is_stock_failure (Concurrent.clients st)))
      as [Hin Hfail]%filter_In by (rewrite E; left; done).
    apply list_elem_of_In, list_elem_of_lookup in Hin as [i Hc].
    destruct (Hcs _ _ Hc) as [_ Hok]. unfold client_ok in Hok.
    unfold Concurrent.is_stock_failure in Hfail.
    repeat case_match; try done; tauto. }
  rewrite Hstock.
  destruct (Concurrent.stock_failures st) as [|b] eqn:Hb.
  - assert (Z.min (Z.of_nat N) S = Z.of_nat N) as -> by lia.
    split_and!; [lia|lia|f_equal; lia].
  - assert (s = 0) by (apply Hzero; lia).
    assert (Z.min (Z.of_nat N) S = S) as -> by lia.
    split_and!; [lia|lia|f_equal; lia].
Qed.

(** C7. With stock [S] of product [P] on record and a connection without
    faults, let N clients each place an order for one unit of [P], their
    round trips interleaved in any way.  Every interleaving ends, after at
    most 3 N steps, and one that has ended left every client with its
    answer: exactly min(N, S) orders placed, N - min(N, S) placements
    refused with an InsufficientStockError, and a stock of S - min(N, S). *)
Theorem concurrent_unit_placements (P S : Z) (w : World)
    (requests : list CreateOrderRequest.t) :
  faults w = [] -> sequences_ahead w -> stock_of P (db w) = Some S -> 0 <= S ->
  Forall (unit_request P (users (db w))) requests ->
  let N := Z.of_nat (length requests) in
  (∃ n st, Concurrent.run n (Concurrent.init w requests) st ∧ Concurrent.terminal st)
  ∧ ∀ n st,
      Concurrent.run n (Concurrent.init w requests) st ->
      (n <= 3 * length requests)%nat
      ∧ (Concurrent.terminal st ->
         Forall finished (Concurrent.clients st)
         ∧ Z.of_nat (Concurrent.successes st) = Z.min N S
         ∧ Z.of_nat (Concurrent.stock_failures st) = N - Z.min N S
         ∧ stock_of P (db (Concurrent.world st)) = Some (S - Z.min N S)).
Proof.
  intros Hf Hseq Hstock HS Hreqs N.
  pose proof (init_invariant P S w requests Hf Hseq Hstock HS Hreqs) as Hinit.
  split; [by eapply run_to_end|].
  intros n st Hrun. split.
  - apply run_remaining in Hrun.
    assert (remaining_steps (Concurrent.init w requests) = 3 * length requests)%nat
      as Hinit_steps; [|lia].
    unfold remaining_steps, Concurrent.init. simpl. clear Hrun Hinit.
    induction Hreqs as [|r rs (Hitems & _) _ IH]; [done|].
    rewrite !fmap_cons. simpl. rewrite IH. unfold remaining. simpl.
    rewrite Hitems. simpl. lia.
  - intros Hterm. pose proof (run_invariant _ _ _ _ _ _ _ Hrun Hinit) as Hinv.
    pose proof (terminal_finished _ _ _ _ _ Hinv Hterm) as Hall.
    split; [done|]. by eapply final_counts.
Qed.

(** ** A client on its own *)

Lemma run_trans n m st1 st2 st3 :
  Concurrent.run n st1 st2 -> Concurrent.run m st2 st3 ->
  Concurrent.run (n + m) st1 st3.
Proof.
  induction 1 as [|n st st1 st2 Hstep _ IH]; [done|].
  intros Hrun. simpl. econstructor; [done|]. by apply IH.
Qed.

Lemma set_db_same w d : d = db w -> set_db d w = w.
Proof. intros ->. by destruct w. Qed.

Lemma held_by_other_own pid (held : list (Z * nat)) :
  Forall (fun l => l.2 = 0%nat) held -> Concurrent.held_by_other pid 0 held = false.
Proof.
  intros Hown. unfold Concurrent.held_by_other.
  rewrite filter_none; [done|].
  intros l Hl [_ Hne]. rewrite Forall_forall in Hown. by apply Hne, Hown.
Qed.

Lemma release_own (held : list (Z * nat)) :
  Forall (fun l => l.2 = 0%nat) held -> Concurrent.release 0 held = [].
Proof.
  intros Hown. unfold Concurrent.release. apply filter_none.
  intros l Hl Hne. rewrite Forall_forall in Hown. by apply Hne, Hown.
Qed.

Lemma commit_unfold req lines w :
  (po ← orderService.create_order req lines;
   _ ← orderService.step Sql.roundtrip;
   mret po) w
  = match orderService.create_order req lines w with
    | (Return po, w1) =>
        match orderService.step Sql.roundtrip w1 with
        | (Return _, w2) => (Return po, w2)
        | (Throw e, w2) => (Throw e, w2)
        end
    | (Throw e, w1) => (Throw e, w1)
    end.
Proof.
  unfold mbind, M_bind, mret, M_ret.
  destruct (orderService.create_order req lines w) as [[po|e] w1]; [|done].
  by destruct (orderService.step Sql.roundtrip w1) as [[[]|e] w2].
Qed.

Lemma lock_step_unfold req it rest lines w :
  (more ← orderService.lock_and_check (it :: rest);
   orderService.create_order req (lines ++ more)) w
  = match orderService.step
            (orderService.select_product_for_update (OrderItemInput.product_id it)) w
    with
    | (Return found, w1) =>
        match orderService.check_line it found with
        | Return line =>
            (more ← orderService.lock_and_check rest;
             orderService.create_order req ((lines ++ [line]) ++ more)) w1
        | Throw e => (Throw e, w1)
        end
    | (Throw e, w1) => (Throw e, w1)
    end.
Proof.
  simpl. unfold mbind, M_bind, lift, mret, M_ret.
  destruct (orderService.step _ w) as [[found|e] w1]; [|done].
  destruct (orderService.check_line it found) as [line|e]; [|done].
  destruct (orderService.lock_and_check rest w1) as [[more|e] w2]; [|done].
  by rewrite <-app_assoc.
Qed.

(** What is left of the transaction once [lines] are checked and [todo] is
    still to lock, as [orderService.placeOrder] runs it from [w]; [d0] is
    the state of the tables when the transaction began. *)
Lemma lone_locking req d0 todo lines w held :
  db w = d0 -> Forall (fun l => l.2 = 0%nat) held ->
  ∃ n st,
    Concurrent.run n
      (Concurrent.mkState w held
         [Concurrent.mkClient req (Concurrent.Locking todo lines)]) st
    ∧ match (more ← orderService.lock_and_check todo;
             orderService.create_order req (lines ++ more)) w with
      | (Return po, w1) =>
          match orderService.step Sql.roundtrip w1 with
          | (Return _, w2) =>
              st = Concurrent.mkState w2 []
                     [Concurrent.mkClient req (Concurrent.Finished (Return po))]
          | (Throw e, w2) =>
              st = Concurrent.mkState (set_db d0 w2) []
                     [Concurrent.mkClient req (Concurrent.Finished (Throw e))]
          end
      | (Throw e, w1) =>
          st = Concurrent.mkState (set_db d0 w1) []
                 [Concurrent.mkClient req (Concurrent.Finished (Throw e))]
      end.
Proof.
  revert lines w held. induction todo as [|it rest IH]; intros lines w held Hdb Hown.
  - (* all lines checked: the writes and the commit are one step *)
    assert (∀ st, Concurrent.client_step 0
                    (Concurrent.mkState w held
                       [Concurrent.mkClient req (Concurrent.Locking [] lines)])
                  = Some st ->
                  Concurrent.run 1
                    (Concurrent.mkState w held
                       [Concurrent.mkClient req (Concurrent.Locking [] lines)]) st)
      as Hone.
    { intros st Hst. econstructor; [by exists 0%nat|constructor]. }
    unfold Concurrent.client_step in Hone. simpl in Hone.
    rewrite commit_unfold in Hone. simpl.
    change ((mret [] ≫= (fun more => orderService.create_order req (lines ++ more))) w)
      with (orderService.create_order req (lines ++ []) w).
    rewrite app_nil_r.
    destruct (orderService.create_order req lines w) as [[po|e] w1].
    + destruct (orderService.step Sql.roundtrip w1) as [[[]|e] w2];
        eexists 1%nat, _; (split; [by apply Hone|]);
        unfold Concurrent.finish; simpl; by rewrite release_own, ?Hdb.
    + eexists 1%nat, _. split; [by apply Hone|].
      unfold Concurrent.finish. simpl. by rewrite release_own, ?Hdb.
  - (* one more line to lock and check *)
    rewrite lock_step_unfold.
    destruct (orderService.step
                (orderService.select_product_for_update (OrderItemInput.product_id it)) w)
      as [[found|e] w1] eqn:Hsel.
    + pose proof Hsel as [-> _]%select_for_update_inv.
      destruct (orderService.check_line it found) as [line|e] eqn:Hchk.
      * destruct (IH (lines ++ [line])%list (set_faults (tail (faults w)) w)
                     ((OrderItemInput.product_id it, 0%nat) :: held))
          as (n & st & Hrun & Hst); [done|by constructor|].
        exists (Datatypes.S n), st. split; [|done].
        econstructor; [|exact Hrun]. exists 0%nat.
        unfold Concurrent.client_step. simpl.
        by rewrite held_by_other_own, Hsel, Hchk.
      * eexists 1%nat, _. split.
        { econstructor; [|constructor]. exists 0%nat.
          unfold Concurrent.client_step. simpl.
          by rewrite held_by_other_own, Hsel, Hchk. }
        unfold Concurrent.finish. simpl.
        by rewrite release_own, set_db_same.
    + pose proof Hsel as [-> _]%select_for_update_inv.
      eexists 1%nat, _. split.
      { econstructor; [|constructor]. exists 0%nat.
        unfold Concurrent.client_step. simpl.
        by rewrite held_by_other_own, Hsel. }
      unfold Concurrent.finish. simpl.
      by rewrite release_own, set_db_same.
Qed.

(** A client alone on the server goes through its steps and ends with the
    answer and the world of [orderService.placeOrder]. *)
Lemma lone_client req w :
  ∃ n st,
    Concurrent.run n (Concurrent.init w [req]) st
    ∧ let '(r, w') := orderService.placeOrder req w in
      st = Concurrent.mkState w' [] [Concurrent.mkClient req (Concurrent.Finished r)].
Proof.
  unfold orderService.placeOrder, Concurrent.init.
  destruct (orderService.validate req (db w)) as [msg|] eqn:Hval.
  { eexists 1%nat, _. split; [|reflexivity].
    econstructor; [|constructor]. exists 0%nat.
    unfold Concurrent.client_step. simpl. by rewrite Hval. }
  destruct (orderService.find_order_by_key _ _) as [existing|] eqn:Hkey.
  { eexists 1%nat, _. split; [|reflexivity].
    econstructor; [|constructor]. exists 0%nat.
    unfold Concurrent.client_step. simpl. by rewrite Hval, Hkey. }
  unfold orderService.transaction.
  destruct (orderService.step Sql.roundtrip w) as [[[]|e] w0] eqn:Hbegin.
  - pose proof Hbegin as ->%step_roundtrip_inv.
    destruct (lone_locking req (db w)
                (orderService.merge_items (CreateOrderRequest.items req)) []
                (set_faults (tail (faults w)) w) [])
      as (n & st & Hrun & Hst); [done|constructor|].
    exists (Datatypes.S n), st. split.
    { econstructor; [|exact Hrun]. exists 0%nat.
      unfold Concurrent.client_step. simpl. by rewrite Hval, Hkey, Hbegin. }
    simpl in Hst.
    destruct (_ ≫= _) as [[po|e] w1]; [|done].
    by destruct (orderService.step Sql.roundtrip w1) as [[[]|e] w2].
  - eexists 1%nat, _. split; [|reflexivity].
    econstructor; [|constructor]. exists 0%nat.
    unfold Concurrent.client_step. simpl. by rewrite Hval, Hkey, Hbegin.
Qed.

Lemma lone_step_functional st a b :
  length (Concurrent.clients st) = 1%nat ->
  Concurrent.step st a -> Concurrent.step st b -> a = b.
Proof.
  intros Hlen [i Ha] [j Hb].
  assert (∀ k st', Concurrent.client_step k st = Some st' -> k = 0%nat) as Hzero.
  { intros k st' (c & _ & Hc & _)%client_step_inv.
    apply lookup_lt_Some in Hc. lia. }
  rewrite (Hzero _ _ Ha) in Ha. rewrite (Hzero _ _ Hb) in Hb. congruence.
Qed.

Lemma step_clients_length st st' :
  Concurrent.step st st' ->
  length (Concurrent.clients st') = length (Concurrent.clients st).
Proof.
  intros [i (c & ph & _ & -> & _)%client_step_inv]. apply length_insert.
Qed.

Lemma lone_run_deterministic n m st a b :
  length (Concurrent.clients st) = 1%nat ->
  Concurrent.run n st a -> Concurrent.terminal a ->
  Concurrent.run m st b -> Concurrent.terminal b -> a = b.
Proof.
  intros Hlen Hrun. revert m b Hlen.
  induction Hrun as [st|n st st1 a Hstep _ IH]; intros m b Hlen Ha Hrunb Hb.
  - inversion Hrunb as [|? ? st1 ? Hstep]; simplify_eq; [done|].
    by destruct (Ha st1).
  - inversion Hrunb as [|? ? st1' ? Hstep']; simplify_eq.
    + by destruct (Hb st1).
    + assert (st1' = st1) as -> by (by eapply lone_step_functional).
      eapply IH; [|done..]. by rewrite (step_clients_length _ _ Hstep).
Qed.

(** The steps of the clients are those of [orderService.placeOrder]: however
    a lone client is scheduled, it ends with the answer and the world of the
    call. *)
Lemma lone_client_agrees req w n st :
  Concurrent.run n (Concurrent.init w [req]) st -> Concurrent.terminal st ->
  let '(r, w') := orderService.placeOrder req w in
  st = Concurrent.mkState w' [] [Concurrent.mkClient req (Concurrent.Finished r)].
Proof.
  intros Hrun Hterm. destruct (lone_client req w) as (n0 & st0 & Hrun0 & Hst0).
  destruct (orderService.placeOrder req w) as [r w'].
  assert (Concurrent.terminal st0) as Hterm0.
  { apply finished_terminal. rewrite Hst0. simpl.
    constructor; [by eexists|constructor]. }
  rewrite <-Hst0.
  by apply (lone_run_deterministic n n0 (Concurrent.init w [req])).
Qed.

(** ** Exploring the interleavings *)

Lemma next_states_step st st' :
  st' ∈ next_states st ↔ Concurrent.step st st'.
Proof.
  unfold next_states, Concurrent.step. rewrite list_elem_of_omap. split.
  - intros (i & _ & Hi). by exists i.
  - intros [i Hi]. exists i. split; [|done].
    apply client_step_inv in Hi as (c & _ & Hc & _).
    apply lookup_lt_Some in Hc. apply elem_of_seq. lia.
Qed.

Lemma explore_complete fuel n st st' :
  Concurrent.run n st st' -> Concurrent.terminal st' -> (n <= fuel)%nat ->
  st' ∈ explore fuel st.
Proof.
  revert n st. induction fuel as [|fuel IH]; intros n st Hrun Hterm Hn.
  - assert (n = 0%nat) as -> by lia. inversion Hrun; simplify_eq. simpl. left.
  - change (explore (Datatypes.S fuel) st)
      with (match next_states st with
            | [] => [st]
            | nexts => nexts ≫= explore fuel
            end).
    inversion Hrun as [|n' ? st1 ? Hstep Hrest]; simplify_eq.
    + destruct (next_states st') as [|st1 sts] eqn:E; [left|].
      destruct (Hterm st1). apply next_states_step. rewrite E. left.
    + pose proof Hstep as Hin%next_states_step.
      destruct (next_states st) as [|st2 sts] eqn:E; [by apply elem_of_nil in Hin|].
      apply list_elem_of_bind. exists st1. split; [|done].
      apply (IH n'); [done..|lia].
Qed.

(** The example of the specification: with five monitors in stock and two
    clients after three each, whatever the interleaving, exactly one
    placement succeeds, the other is refused for lack of stock, and two
    monitors are left. *)
Example two_clients_three_each n st :
  Concurrent.run n (Concurrent.init sample_world sample_pair) st ->
  Concurrent.terminal st ->
  Concurrent.successes st = 1%nat ∧ Concurrent.stock_failures st = 1%nat
  ∧ stock_of 2 (db (Concurrent.world st)) = Some 2.
Proof.
  intros Hrun Hterm.
  assert (n <= 6)%nat as Hn.
  { apply run_remaining in Hrun.
    assert (remaining_steps (Concurrent.init sample_world sample_pair) = 6%nat)
      by reflexivity. lia. }
  pose proof (explore_complete 6 n _ _ Hrun Hterm Hn) as Hin.
  assert (Forall (fun st =>
                    Concurrent.successes st = 1%nat
                    ∧ Concurrent.stock_failures st = 1%nat
                    ∧ stock_of 2 (db (Concurrent.world st)) = Some 2)
                 (explore 6 (Concurrent.init sample_world sample_pair))) as Hall.
  { apply (bool_decide_unpack _). vm_compute. exact I. }
  rewrite Forall_forall in Hall. by apply Hall.
Qed.

(** ** The workflow among the other operations *)

(** The validation of a placement looks the user up as
    [userService.userExists] does when the connection answers. *)
Lemma userExists_answer uid w :
  faults w = [] -> -2147483648 <= uid <= 2147483647 ->
  userService.userExists (JS.Fin uid) w
  = (Return (Sql.nonempty (filter (fun u => User.id u = uid) (users (db w)))), w).
Proof.
  intros Hf Hrange.
  unfold userService.userExists, Sql.select_1_from_users, rethrow, try_catch,
    mbind, M_bind.
  rewrite roundtrip_ok by done. unfold lift, Sql.int4, Sql.int4_of_Z.
  assert ((-2147483648 <=? uid) && (uid <=? 2147483647) = true) as ->.
  { apply andb_true_iff. split; apply Z.leb_le; lia. }
  unfold Sql.read, mret, M_ret. by rewrite nonempty_fmap.
Qed.

(** A placement keeps the foreign keys into orders. *)
Lemma placeOrder_references request w r w' :
  orderService.placeOrder request w = (r, w') ->
  references_orders (db w) -> references_orders (db w').
Proof.
  intros Hrun [Hitems Hkeys].
  apply placeOrder_inv in Hrun
    as [(msg & _ & _ & ->)
       |[(_ & existing & _ & _ & ->)
        |[(_ & _ & -> & _)
         |(_ & _ & po & lines & _ & _ & _ & _ & Hrows & ->)]]]; try done.
  split; simpl.
  - intros it [Hit|Hit]%elem_of_app.
    + destruct (Hitems _ Hit) as (o & Ho & Hid). exists o.
      split; [apply elem_of_app; by left|done].
    + exists (PlacedOrder.order po). split; [apply elem_of_app; right; left|].
      apply list_elem_of_lookup in Hit as [i Hi].
      destruct (Forall2_lookup_r _ _ _ _ _ Hrows Hi) as (line & _ & Hoid & _).
      done.
  - intros e [He|He]%elem_of_app.
    + destruct (Hkeys _ He) as (o & Ho & Hid). exists o.
      split; [apply elem_of_app; by left|done].
    + exists (PlacedOrder.order po). split; [apply elem_of_app; right; left|].
      destruct (CreateOrderRequest.idempotencyKey request); simpl in He.
      * by apply list_elem_of_singleton in He as ->.
      * by apply elem_of_nil in He.
Qed.

(** Deleting a user, with its cascade, keeps the foreign keys into orders. *)
Lemma delete_user_references id w r w' :
  Sql.delete_user id w = (r, w') ->
  references_orders (db w) -> references_orders (db w').
Proof.
  unfold Sql.delete_user. unfold_sql. intros Hrun [Hitems Hkeys].
  destruct (Sql.int4 id) as [i|e]; repeat case_match; simplify_eq/=; try done.
  all: assert (∀ o x, o ∈ orders (db w) -> Order.id o = x ->
                      x ∉ Order.id <$> List.filter
                                         (fun o => bool_decide (Order.user_id o = i))
                                         (orders (db w)) ->
                      o ∈ List.filter
                            (fun o => negb (bool_decide (Order.user_id o = i)))
                            (orders (db w))) as Hkept
      by (intros o x Ho <- Hdead; apply list_elem_of_In, filter_In;
          split; [by apply list_elem_of_In|];
          apply negb_true_iff, not_true_iff_false; intros Hgone;
          apply Hdead, list_elem_of_fmap_2, list_elem_of_In, filter_In;
          split; [by apply list_elem_of_In|done]).
  all: split; simpl.
  all: intros x [Hdead Hx]%list_elem_of_filter.
  1,3: destruct (Hitems _ Hx) as (o & Ho & Hid); exists o; split; [|done];
       by eapply Hkept.
  all: destruct (Hkeys _ Hx) as (o & Ho & Hid); exists o; split; [|done];
       by eapply Hkept.
Qed.

(** The primary key of products survives every operation that writes the
    table. *)
Lemma products_pk_preserved w :
  products_pk (db w) ->
  (∀ productData r w',
      productService.createProduct productData w = (r, w') -> products_pk (db w'))
  ∧ (∀ id updateData r w',
      productService.updateProduct id updateData w = (r, w') -> products_pk (db w'))
  ∧ (∀ request r w',
      orderService.placeOrder request w = (r, w') -> products_pk (db w')).
Proof.
  unfold products_pk. intros Hpk. split_and!.
  - intros productData r w' Hrun.
    apply createProduct_inv in Hrun as [[-> _]|(i & Hfresh & -> & _)]; [done|].
    simpl. rewrite fmap_app. apply NoDup_app. split_and!; [done| |].
    + intros x (p & -> & Hp)%list_elem_of_fmap Hx. simpl in Hx.
      apply list_elem_of_singleton in Hx. by eapply Hfresh.
    + simpl. apply NoDup_singleton.
  - intros id updateData r w' Hrun.
    apply updateProduct_inv in Hrun as [[-> _]|(i & product & _ & _ & -> & _)];
      [done|].
    simpl. rewrite <-list_fmap_compose.
    erewrite list_fmap_ext; [exact Hpk|].
    intros _ p _. simpl. unfold Sql.updated_product. by case_decide.
  - intros request r w' Hrun.
    apply placeOrder_inv in Hrun
      as [(msg & _ & _ & ->)
         |[(_ & existing & _ & _ & ->)
          |[(_ & _ & -> & _)
           |(_ & _ & po & lines & _ & Hchk & _ & _ & _ & ->)]]]; try done.
    simpl. rewrite (decremented_request _ _ _ Hchk), <-list_fmap_compose.
    erewrite list_fmap_ext; [exact Hpk|]. by intros _ p _.
Qed.

(** ** What a call leaves alone *)

Section Keeping.

Context {X : Type} (f : World -> X).

Lemma keeps_ret {E A} (a : A) : keeps f (mret a : M E A).
Proof. intros w r w' H. unfold mret, M_ret in H. by simplify_eq. Qed.

Lemma keeps_throw {E A} (e : E) : keeps f (throw e : M E A).
Proof. intros w r w' H. unfold throw in H. by simplify_eq. Qed.

Lemma keeps_lift {E A} (o : Outcome E A) : keeps f (lift o).
Proof. intros w r w' H. unfold lift in H. by simplify_eq. Qed.

Lemma keeps_read {A} (g : Db -> A) : keeps f (Sql.read g).
Proof. intros w r w' H. unfold Sql.read in H. by simplify_eq. Qed.

Lemma keeps_bind {E A B} (m : M E A) (k : A -> M E B) :
  keeps f m -> (∀ a, keeps f (k a)) -> keeps f (m ≫= k).
Proof.
  intros Hm Hk w r w' H.
  apply bind_inv in H as [(a & w1 & H1 & H2)|(e & H1 & _)].
  - rewrite (Hk _ _ _ _ H2). by eapply Hm.
  - by eapply Hm.
Qed.

Lemma keeps_try_catch {E E' A} (m : M E A) (h : E -> M E' A) :
  keeps f m -> (∀ e, keeps f (h e)) -> keeps f (try_catch m h).
Proof.
  intros Hm Hh w r w' H.
  apply try_catch_inv in H as [(a & H1 & _)|(e & w1 & H1 & H2)].
  - by eapply Hm.
  - rewrite (Hh _ _ _ _ H2). by eapply Hm.
Qed.

Lemma keeps_rethrow {A} what (m : M string A) :
  keeps f m -> keeps f (rethrow what m).
Proof. intros Hm. apply keeps_try_catch; [done|]. intros e. apply keeps_throw. Qed.

Lemma keeps_roundtrip :
  (∀ l w, f (set_faults l w) = f w) -> keeps f Sql.roundtrip.
Proof. intros Hf w r w' H. apply roundtrip_inv in H as ->. apply Hf. Qed.

Lemma keeps_mutation :
  (∀ l w, f (set_faults l w) = f w) -> (∀ n w, f (set_mutations n w) = f w) ->
  keeps f Sql.mutation.
Proof.
  intros Hf Hm w r w' H. apply mutation_inv in H as ->. by rewrite Hf, Hm.
Qed.

Lemma keeps_exec {A} (g : World -> Outcome string A * World) :
  (∀ w, f (g w).2 = f w) -> keeps f (Sql.exec g).
Proof. intros Hg w r w' H. unfold Sql.exec in H. specialize (Hg w). by rewrite H in Hg. Qed.

Lemma answers_keeping_answer {D} (r : Response D) : answers_keeping f (answer r).
Proof. done. Qed.

Lemma answers_keeping_try_service {A D} (call : M string A)
    (on_value : A -> Response D) (on_error : string -> Response D) :
  keeps f call -> answers_keeping f (try_service call on_value on_error).
Proof.
  intros Hc w. unfold try_service. destruct (call w) as [[a|e] w'] eqn:H; simpl;
    by eapply Hc.
Qed.

Lemma answers_keeping_envelope {D} (h : Handler D) :
  answers_keeping f h -> answers_keeping f (envelope h).
Proof. intros Hh w. unfold envelope. specialize (Hh w). by destruct (h w). Qed.

End Keeping.

Ltac keeps_step :=
  first
    [ apply keeps_bind; [|intros ?]
    | apply keeps_rethrow
    | apply keeps_ret
    | apply keeps_throw
    | apply keeps_lift
    | apply keeps_read
    | apply keeps_roundtrip; by intros ? []
    | apply keeps_mutation; by intros ? []
    | apply keeps_exec; intros ?; simpl; repeat case_match; done
    | match goal with
      | |- keeps _ (match ?x with _ => _ end) => destruct x
      end ].

Ltac keeps_services :=
  cbv [userService.createUser userService.getUserById userService.getAllUsers
       userService.updateUser userService.deleteUser userService.userExists
       userService.getUserByEmail
       productService.createProduct productService.getProductById
       productService.getAllProducts productService.updateProduct
       productService.deleteProduct
       Sql.select_user_ids_by_email Sql.select_other_user_ids_by_email
       Sql.insert_user Sql.select_user_by_id Sql.select_1_from_users
       Sql.count_users Sql.select_users_page Sql.update_user Sql.delete_user
       Sql.select_user_by_email
       Sql.select_product_ids_by_name Sql.select_other_product_ids_by_name
       Sql.insert_product Sql.select_product_by_id Sql.count_products
       Sql.select_products_page Sql.update_product Sql.delete_product];
  repeat keeps_step.

Lemma reads_keep_stored :
  (∀ id, keeps stored (userService.getUserById id))
  ∧ (∀ page limit, keeps stored (userService.getAllUsers page limit))
  ∧ (∀ email, keeps stored (userService.getUserByEmail email))
  ∧ (∀ id, keeps stored (userService.userExists id))
  ∧ (∀ id, keeps stored (productService.getProductById id))
  ∧ (∀ page limit, keeps stored (productService.getAllProducts page limit)).
Proof. split_and!; intros; keeps_services. Qed.

Lemma products_services_keep :
  (∀ data, keeps beside_products (productService.createProduct data))
  ∧ (∀ id data, keeps beside_products (productService.updateProduct id data))
  ∧ (∀ id, keeps beside_products (productService.deleteProduct id))
  ∧ (∀ id, keeps beside_products (productService.getProductById id))
  ∧ (∀ page limit, keeps beside_products (productService.getAllProducts page limit)).
Proof. split_and!; intros; keeps_services. Qed.

Lemma users_services_keep :
  (∀ data, keeps beside_users (userService.createUser data))
  ∧ (∀ id data, keeps beside_users (userService.updateUser id data))
  ∧ (∀ id, keeps (fun w => products (db w)) (userService.deleteUser id))
  ∧ (∀ id, keeps beside_users (userService.getUserById id))
  ∧ (∀ page limit, keeps beside_users (userService.getAllUsers page limit)).
Proof. split_and!; intros; keeps_services. Qed.

(** ** Ids and bodies the handlers refuse *)

Lemma digits_Some R s v : JS.digits R s (Some v) ≠ None.
Proof.
  revert v. induction s as [|c s IH]; intros v; simpl; [done|].
  destruct (JS.digit_value c) as [d|]; [|done].
  destruct (d <? R); [apply IH|done].
Qed.

Lemma of_Z_not_NaN z : JS.of_Z z ≠ JS.NaN.
Proof. unfold JS.of_Z. by repeat case_match. Qed.

Lemma digit_value_decimal c :
  match JS.digit_value c with
  | Some d => d <? 10
  | None => false
  end = (48 <=? JS.code c) && (JS.code c <=? 57).
Proof.
  unfold JS.digit_value. set (n := JS.code c).
  destruct (Z.leb_spec 48 n), (Z.leb_spec n 57), (Z.leb_spec 97 n),
    (Z.leb_spec n 122), (Z.leb_spec 65 n), (Z.leb_spec n 90);
    simpl; try lia; try done. all: first [apply Z.ltb_lt|apply Z.ltb_ge]; lia.
Qed.

Lemma parseInt_10_NaN s :
  JS.isNaN (JS.parseInt s (Some 10)) = negb (leading_digit s).
Proof.
  unfold JS.parseInt, leading_digit.
  destruct (JS.strip_sign (JS.trim_start s)) as [neg s1]. simpl.
  destruct s1 as [|c s1]; simpl; [done|].
  rewrite <-digit_value_decimal.
  destruct (JS.digit_value c) as [d|]; [|done].
  destruct (d <? 10); [|done]. simpl.
  destruct (JS.digits 10 s1 (Some (0 * 10 + d))) as [v|] eqn:Hd.
  - pose proof (of_Z_not_NaN (if neg then - v else v)). by destruct (JS.of_Z _).
  - by apply digits_Some in Hd.
Qed.

(** X3. An id that does not start, after white space and a sign, with a
    decimal digit is refused with 400 by every route that takes one, before
    any round trip; an id that does is never answered 400 by the two GET
    routes, whatever follows the digits. *)
Theorem invalid_id_refused (id : string) (w : World) :
  (leading_digit id = false ->
   router (GET_users_id id) w = (error 400 "Invalid user ID", w)
   ∧ (∀ body, router (PUT_users_id id body) w = (error 400 "Invalid user ID", w))
   ∧ router (DELETE_users_id id) w = (error 400 "Invalid user ID", w)
   ∧ router (GET_products_id id) w = (error 400 "Invalid product ID", w)
   ∧ (∀ body, router (PUT_products_id id body) w = (error 400 "Invalid product ID", w))
   ∧ router (DELETE_products_id id) w = (error 400 "Invalid product ID", w))
  ∧ (leading_digit id = true ->
     statusCode (router (GET_users_id id) w).1 ≠ 400
     ∧ statusCode (router (GET_products_id id) w).1 ≠ 400).
Proof.
  split; intros H.
  - assert (JS.isNaN (JS.parseInt id (Some 10)) = true) as Hnan
        by (by rewrite parseInt_10_NaN, H).
    cbv [router envelope userController.getUserById userController.updateUser
         userController.deleteUser productController.getProductById
         productController.updateProduct productController.deleteProduct].
    rewrite Hnan. done.
  - assert (JS.isNaN (JS.parseInt id (Some 10)) = false) as Hnan
        by (by rewrite parseInt_10_NaN, H).
    cbv [router envelope userController.getUserById productController.getProductById
         try_service].
    rewrite Hnan. split; repeat case_match; simplify_eq/=; done.
Qed.

(** X4. A body whose required fields are missing, empty or zero is refused
    with 400 before any round trip: POST /users without a name or an email,
    POST /products without a name, a price or a stock (a price or a stock
    of 0 counts as missing), and a PUT all of whose fields are missing,
    empty or zero. *)
Theorem blank_fields_refused (w : World) :
  (∀ body, blank (UpdateUserRequest.name body) ∨ blank (UpdateUserRequest.email body) ->
     router (POST_users body) w = (error 400 "Name and email are required", w))
  ∧ (∀ body,
       blank (UpdateProductRequest.name body) ∨ zero (UpdateProductRequest.price body)
       ∨ zero (UpdateProductRequest.stock body) ->
       router (POST_products body) w = (error 400 "Name, price and stock are required", w))
  ∧ (∀ id body,
       leading_digit id = true ->
       blank (UpdateUserRequest.name body) -> blank (UpdateUserRequest.email body) ->
       router (PUT_users_id id body) w
       = (error 400 "At least one field (name or email) must be provided for update", w))
  ∧ (∀ id body,
       leading_digit id = true ->
       blank (UpdateProductRequest.name body) -> zero (UpdateProductRequest.price body) ->
       zero (UpdateProductRequest.stock body) ->
       router (PUT_products_id id body) w
       = (error 400 "At least one field (name, price or stock) must be provided for update",
          w)).
Proof.
  assert (∀ s, blank s -> truthy_str s = false) as Hb by (by intros s [->| ->]).
  assert (∀ z, zero z -> truthy_num z = false) as Hz by (by intros z [->| ->]).
  split_and!.
  - intros body H. cbv [router envelope userController.createUser].
    destruct H as [H|H]; rewrite (Hb _ H); [done|].
    by rewrite orb_true_r.
  - intros body H. cbv [router envelope productController.createProduct].
    destruct H as [H|[H|H]]; rewrite ?(Hb _ H), ?(Hz _ H); simpl;
      by rewrite ?orb_true_r.
  - intros id body Hid H1 H2. cbv [router envelope userController.updateUser].
    by rewrite parseInt_10_NaN, Hid, (Hb _ H1), (Hb _ H2).
  - intros id body Hid H1 H2 H3. cbv [router envelope productController.updateProduct].
    by rewrite parseInt_10_NaN, Hid, (Hb _ H1), (Hz _ H2), (Hz _ H3).
Qed.

(** ** Keys of users and names of products *)

Lemma fmap_inj_on {A B} (f : A -> B) (l : list A) x y :
  NoDup (f <$> l) -> x ∈ l -> y ∈ l -> f x = f y -> x = y.
Proof.
  induction l as [|a l IH]; [by intros _ ?%elem_of_nil|].
  rewrite fmap_cons. intros [Hnotin Hnodup]%NoDup_cons.
  intros [->|Hx]%elem_of_cons [->|Hy]%elem_of_cons Hf; [done| | |by apply IH].
  - exfalso. apply Hnotin. rewrite Hf. by apply list_elem_of_fmap_2.
  - exfalso. apply Hnotin. rewrite <-Hf. by apply list_elem_of_fmap_2.
Qed.

(** Rewriting the row of key [i] keeps a column free of duplicates when the
    value written is not the one of another row. *)
Lemma NoDup_fmap_updated {A B} (key : A -> Z) (g : A -> B) (upd : A -> A)
    (l : list A) (i : Z) :
  NoDup (key <$> l) -> NoDup (g <$> l) ->
  (∀ x, key x ≠ i -> upd x = x) ->
  (∀ x y, x ∈ l -> y ∈ l -> key x = i -> key y ≠ i -> g (upd x) ≠ g y) ->
  NoDup (g <$> (upd <$> l)).
Proof.
  intros Hkey Hg Hother Hfresh. rewrite <-list_fmap_compose.
  apply NoDup_fmap_2_strong; [|by eapply NoDup_fmap_1].
  intros x y Hx Hy. simpl. intros Heq.
  destruct (decide (key x = i)) as [Hxi|Hxi], (decide (key y = i)) as [Hyi|Hyi].
  - eapply (fmap_inj_on key); eauto. congruence.
  - exfalso. rewrite (Hother y Hyi) in Heq. exact (Hfresh x y Hx Hy Hxi Hyi Heq).
  - exfalso. rewrite (Hother x Hxi) in Heq. symmetry in Heq.
    exact (Hfresh y x Hy Hx Hyi Hxi Heq).
  - rewrite (Hother x Hxi), (Hother y Hyi) in Heq. by eapply (fmap_inj_on g).
Qed.

Lemma insert_user_inv name email w r w' :
  Sql.insert_user name email w = (r, w') ->
  (db w' = db w ∧ ∃ e, r = Throw e)
  ∨ ∃ i, (∀ u, u ∈ users (db w) -> User.id u ≠ i ∧ User.email u ≠ email)
         ∧ db w' = set_users (users (db w) ++ [User.mk i name email (clock w)]) (db w)
         ∧ r = Return [User.mk i name email (clock w)].
Proof.
  unfold Sql.insert_user. unfold_sql. intros H.
  repeat case_match; simplify_eq/=; try (left; split; [done|by eexists]).
  all: right; eexists; split_and!; [|done..].
  all: intros u Hu; split;
    [by eapply (nonempty_filter_false (fun u => User.id u = _)) in Hu
    |by eapply (nonempty_filter_false (fun u => User.email u = _)) in Hu].
Qed.

Lemma select_user_ids_by_email_inv email w r w' :
  Sql.select_user_ids_by_email email w = (r, w') ->
  db w' = db w ∧ clock w' = clock w
  ∧ ∀ ids, r = Return ids ->
           ids = User.id <$> filter (fun u => User.email u = email) (users (db w)).
Proof.
  unfold Sql.select_user_ids_by_email. unfold_sql.
  intros H. repeat case_match; simplify_eq/=; split_and!; try done;
    intros; by simplify_eq.
Qed.

Lemma createUser_inv userData w r w' :
  userService.createUser userData w = (r, w') ->
  (db w' = db w ∧ ∃ e, r = Throw e)
  ∨ ∃ i,
      let row := User.mk i (CreateUserRequest.name userData)
                         (CreateUserRequest.email userData) (clock w) in
      (∀ u, u ∈ users (db w) ->
            User.id u ≠ i ∧ User.email u ≠ CreateUserRequest.email userData)
      ∧ db w' = set_users (users (db w) ++ [row]) (db w) ∧ r = Return row.
Proof.
  unfold userService.createUser. intros H.
  apply rethrow_run in H as (r0 & H & Hr).
  assert (∀ e, r0 = Throw e -> ∃ e', r = Throw e') as Hthrow
      by (intros e ->; by eexists).
  apply bind_inv in H as [(ids & w1 & Hsel & H)|(e & Hsel & ->)].
  - apply select_user_ids_by_email_inv in Hsel as (Hdb & Hclock & _).
    destruct (Sql.nonempty ids).
    { unfold throw in H. simplify_eq. left. split; [done|by eapply Hthrow]. }
    apply bind_inv in H as [(result & w2 & Hins & H)|(e & Hins & ->)].
    + apply insert_user_inv in Hins as [[_ [e ?]]|(i & Hfresh & Hdb' & ?)]; [done|].
      unfold mret, M_ret in H. simplify_eq. right. exists i. simpl.
      rewrite Hdb in Hfresh. by rewrite Hdb', Hdb, Hclock.
    + apply insert_user_inv in Hins as [[Hdb' _]|(i & _ & _ & ?)]; [|done].
      left. split; [congruence|by eapply Hthrow].
  - apply select_user_ids_by_email_inv in Hsel as (Hdb & _).
    left. split; [done|by eapply Hthrow].
Qed.

(** What the UNIQUE constraint on email has checked when an UPDATE goes
    through. *)
Lemma update_user_checked name email id w r w' :
  Sql.update_user name email id w = (r, w') ->
  (db w' = db w ∧ ∃ e, r = Throw e)
  ∨ ∃ i, id = JS.Fin i
         ∧ db w' = set_users (Sql.updated_user i name email <$> users (db w)) (db w)
         ∧ r = Return (filter (fun u => User.id u = i)
                              (Sql.updated_user i name email <$> users (db w)))
         ∧ ((∃ u, u ∈ users (db w) ∧ User.id u = i) ->
            ∀ u, u ∈ users (db w) -> User.email u = email -> User.id u = i).
Proof.
  unfold Sql.update_user. intros H.
  apply bind_inv in H as [([] & w1 & Hm & H)|(e & Hm & ->)];
    apply mutation_inv in Hm as ->; [|left; split; [done|by eexists]].
  apply bind_inv in H as [(i & w2 & Hid & H)|(e & Hid & ->)];
    unfold lift in Hid; simplify_eq; [|left; split; [done|by eexists]].
  match goal with H : Sql.int4 _ = _ |- _ => apply int4_Return in H as -> end.
  unfold Sql.exec in H. simpl in H.
  destruct (Sql.nonempty (filter (fun u => User.id u = i) _)
            && Sql.nonempty (filter (fun u => User.email u = email ∧ User.id u ≠ i) _))
    eqn:Hchk; simplify_eq; [left; split; [done|by eexists]|].
  right. exists i. split_and!; [done..|].
  intros Hhit%(nonempty_filter (fun u => User.id u = i)) u Hu Hemail.
  destruct (decide (User.id u = i)) as [|Hne]; [done|exfalso].
  assert (Sql.nonempty
            (filter (fun u => User.email u = email ∧ User.id u ≠ i) (users (db w)))
          = true) as Hdup by (apply nonempty_filter; eauto).
  by rewrite Hhit, Hdup in Hchk.
Qed.

Lemma select_other_user_ids_by_email_inv email id w r w' :
  Sql.select_other_user_ids_by_email email id w = (r, w') ->
  db w' = db w.
Proof.
  unfold Sql.select_other_user_ids_by_email. unfold_sql.
  intros H. destruct (Sql.int4 id); by repeat case_match; simplify_eq/=.
Qed.

Lemma updateUser_checked id updateData w r w' :
  userService.updateUser id updateData w = (r, w') ->
  (db w' = db w ∧ ∃ e, r = Throw e)
  ∨ ∃ i user,
      id = JS.Fin i
      ∧ head (filter (fun u => User.id u = i) (users (db w))) = Some user
      ∧ let email := UpdateUserRequest.email updateData ?? User.email user in
        db w' = set_users
                  (Sql.updated_user i
                     (UpdateUserRequest.name updateData ?? User.name user) email
                   <$> users (db w)) (db w)
        ∧ ∀ u, u ∈ users (db w) -> User.email u = email -> User.id u = i.
Proof.
  unfold userService.updateUser. intros H.
  apply rethrow_run in H as (r0 & H & Hr).
  assert (∀ e, r0 = Throw e -> ∃ e', r = Throw e') as Hthrow
      by (intros e ->; by eexists).
  apply bind_inv in H as [(o & w1 & Hget & H)|(e & Hget & ->)].
  - apply getUserById_inv in Hget as [-> Ho].
    destruct (Ho o eq_refl) as (i & -> & ->). clear Ho.
    destruct (head _) as [user|] eqn:Hhead; simpl in *.
    + apply bind_inv in H as [([] & w2 & Hchk & H)|(e & Hchk & ->)].
      * apply user_email_check_inv in Hchk as [Hdb _]. simpl in Hdb.
        apply bind_inv in H as [(result & w3 & Hupd & H)|(e & Hupd & ->)].
        -- apply update_user_checked in Hupd
             as [[_ [e ?]]|(i' & ? & Hdb' & ? & Hunique)]; [done|].
           simplify_eq. rewrite Hdb in *.
           right. exists i', user. simpl. split_and!; [done..| |].
           { destruct (filter _ (_ <$> _)); unfold throw, mret, M_ret in H;
               by simplify_eq. }
           apply Hunique. apply head_filter_elem in Hhead as [? ?]. eauto.
        -- apply update_user_checked in Hupd as [[Hdb' _]|(i' & ? & _ & ? & _)]; [|done].
           left. split; [congruence|by eapply Hthrow].
      * apply user_email_check_inv in Hchk as [Hdb _].
        left. split; [done|by eapply Hthrow].
    + unfold throw in H. simplify_eq. left. split; [done|by eapply Hthrow].
  - apply getUserById_inv in Hget as [-> _]. left. split; [done|by eapply Hthrow].
Qed.

(** What the duplicate check of updateProduct has established when it lets
    the update through. *)
Lemma product_name_check_Return (name : option string) (current : string) id w w' :
  (if truthy_str name && negb (bool_decide (name = Some current))
   then
     existingProduct ← Sql.select_other_product_ids_by_name (name ?? "") id;
     if Sql.nonempty existingProduct
     then throw ("Name " +:+ (name ?? "") +:+ " is already in use")
     else mret ()
   else mret ()) w = (Return (), w') ->
  truthy_str name = true -> name ≠ Some current ->
  ∃ i, id = JS.Fin i
       ∧ ∀ p, p ∈ products (db w) -> Product.name p = name ?? "" -> Product.id p = i.
Proof.
  intros H Ht Hne. rewrite Ht, bool_decide_eq_false_2 in H by done. simpl in H.
  apply bind_inv in H as [(ids & w1 & Hsel & H)|(e & _ & ?)]; [|done].
  unfold Sql.select_other_product_ids_by_name in Hsel.
  apply bind_inv in Hsel as [([] & w2 & Hrt & Hsel)|(e & _ & ?)]; [|done].
  apply roundtrip_inv in Hrt as ->.
  apply bind_inv in Hsel as [(i & w3 & Hid & Hsel)|(e & _ & ?)]; [|done].
  unfold lift in Hid. unfold Sql.read in Hsel. simplify_eq.
  match goal with H : Sql.int4 _ = _ |- _ => apply int4_Return in H as -> end.
  exists i. split; [done|]. intros p Hp Hname.
  destruct (decide (Product.id p = i)) as [|Hi]; [done|exfalso].
  rewrite nonempty_fmap in H.
  assert (Sql.nonempty
            (filter (fun p => Product.name p = name ?? "" ∧ Product.id p ≠ i)
                    (products (db w))) = true) as Hdup
      by (apply nonempty_filter; eauto).
  simpl in H. rewrite Hdup in H. by unfold throw in H.
Qed.

Lemma updateProduct_checked id updateData w r w' :
  productService.updateProduct id updateData w = (r, w') ->
  (db w' = db w ∧ ∃ e, r = Throw e)
  ∨ ∃ i product,
      id = JS.Fin i
      ∧ head (filter (fun p => Product.id p = i) (products (db w))) = Some product
      ∧ let name := UpdateProductRequest.name updateData ?? Product.name product in
        db w' = set_products
                  (Sql.updated_product i name
                     (UpdateProductRequest.price updateData ?? Product.price product)
                     (UpdateProductRequest.stock updateData ?? Product.stock product)
                   <$> products (db w)) (db w)
        ∧ (UpdateProductRequest.name updateData ≠ Some "" ->
           product_names_unique (db w) ->
           ∀ p, p ∈ products (db w) -> Product.name p = name -> Product.id p = i).
Proof.
  unfold productService.updateProduct. intros H.
  apply rethrow_run in H as (r0 & H & Hr).
  assert (∀ e, r0 = Throw e -> ∃ e', r = Throw e') as Hthrow
      by (intros e ->; by eexists).
  apply bind_inv in H as [(o & w1 & Hget & H)|(e & Hget & ->)].
  - apply getProductById_inv in Hget as [-> Ho].
    destruct (Ho o eq_refl) as (i & -> & ->). clear Ho.
    destruct (head _) as [product|] eqn:Hhead; simpl in *.
    + apply bind_inv in H as [([] & w2 & Hchk & H)|(e & Hchk & ->)].
      * pose proof Hchk as Hchk'.
        apply product_name_check_inv in Hchk as [Hdb _]. simpl in Hdb.
        apply bind_inv in H as [(result & w3 & Hupd & H)|(e & Hupd & ->)].
        -- apply update_product_inv in Hupd as [[_ [e ?]]|(i' & ? & Hdb' & ?)];
             [done|]. simplify_eq. rewrite Hdb in *.
           right. exists i', product. simpl. split_and!; [done..| |].
           { destruct (filter _ (_ <$> _)); unfold throw, mret, M_ret in H;
               by simplify_eq. }
           intros Hempty Hunique p Hp Hname.
           apply head_filter_elem in Hhead as [Hin Hid].
           destruct (decide (Product.name p = Product.name product)) as [Hsame|Hdiff].
           { by rewrite (fmap_inj_on Product.name _ p product Hunique Hp Hin Hsame). }
           destruct (UpdateProductRequest.name updateData) as [n|] eqn:Hn;
             simpl in Hname; [|done].
           apply product_name_check_Return in Hchk' as (i & ? & Hchk').
           ++ simplify_eq. by apply Hchk'.
           ++ simpl. destruct (String.eqb_spec n ""); [congruence|done].
           ++ congruence.
        -- apply update_product_inv in Hupd as [[Hdb' _]|(i' & ? & _ & ?)]; [|done].
           left. split; [congruence|by eapply Hthrow].
      * apply product_name_check_inv in Hchk as [Hdb _].
        left. split; [done|by eapply Hthrow].
    + unfold throw in H. simplify_eq. left. split; [done|by eapply Hthrow].
  - apply getProductById_inv in Hget as [-> _]. left. split; [done|by eapply Hthrow].
Qed.

Lemma createProduct_fresh_name productData w product w' :
  productService.createProduct productData w = (Return product, w') ->
  ∀ p, p ∈ products (db w) -> Product.name p ≠ CreateProductRequest.name productData.
Proof.
  unfold productService.createProduct. intros H.
  apply rethrow_run in H as ([a|?] & H & Hr); [|done].
  apply bind_inv in H as [(ids & w1 & Hsel & H)|(e & _ & ?)]; [|done].
  unfold Sql.select_product_ids_by_name in Hsel.
  apply bind_inv in Hsel as [([] & w2 & Hrt & Hsel)|(e & _ & ?)]; [|done].
  unfold Sql.read in Hsel. simplify_eq. rewrite nonempty_fmap in H.
  apply roundtrip_inv in Hrt as ->. simpl in H.
  destruct (Sql.nonempty _) eqn:Hne; [by unfold throw in H|].
  intros p Hp Hname.
  by eapply (nonempty_filter_false (fun p => Product.name p = _)) in Hname.
Qed.

Lemma deleteUser_inv id w r w' :
  userService.deleteUser id w = (r, w') ->
  (db w' = db w ∧ ∃ e, r = Throw e)
  ∨ ∃ i, id = JS.Fin i
         ∧ (∃ u, u ∈ users (db w) ∧ User.id u = i)
         ∧ users (db w') = filter (fun u => User.id u ≠ i) (users (db w))
         ∧ r = Return true.
Proof.
  unfold userService.deleteUser. intros H.
  apply rethrow_run in H as (r0 & H & Hr).
  assert (∀ e, r0 = Throw e -> ∃ e', r = Throw e') as Hthrow
      by (intros e ->; by eexists).
  apply bind_inv in H as [(o & w1 & Hget & H)|(e & Hget & ->)].
  - apply getUserById_inv in Hget as [-> Ho].
    destruct (Ho o eq_refl) as (i & -> & ->). clear Ho.
    destruct (head _) as [user|] eqn:Hhead; simpl in *.
    + apply head_filter_elem in Hhead as [Hin Hid].
      apply bind_inv in H as [([] & w2 & Hdel & H)|(e & Hdel & ->)].
      * unfold mret, M_ret in H. simplify_eq. right. exists (User.id user).
        split_and!; [done|by eauto| |done].
        unfold Sql.delete_user in Hdel. unfold_sql. simpl in Hdel.
        unfold Sql.int4_of_Z in Hdel. by repeat case_match; simplify_eq/=.
      * left. split; [|by eapply Hthrow].
        unfold Sql.delete_user in Hdel. unfold_sql. simpl in Hdel.
        unfold Sql.int4_of_Z in Hdel. by repeat case_match; simplify_eq/=.
    + unfold throw in H. simplify_eq. left. split; [done|by eapply Hthrow].
  - apply getUserById_inv in Hget as [-> _]. left. split; [done|by eapply Hthrow].
Qed.

Lemma deleteProduct_inv id w r w' :
  productService.deleteProduct id w = (r, w') ->
  (db w' = db w ∧ ∃ e, r = Throw e)
  ∨ ∃ i, id = JS.Fin i
         ∧ (∃ p, p ∈ products (db w) ∧ Product.id p = i)
         ∧ products (db w') = filter (fun p => Product.id p ≠ i) (products (db w))
         ∧ r = Return true.
Proof.
  unfold productService.deleteProduct. intros H.
  apply rethrow_run in H as (r0 & H & Hr).
  assert (∀ e, r0 = Throw e -> ∃ e', r = Throw e') as Hthrow
      by (intros e ->; by eexists).
  apply bind_inv in H as [(o & w1 & Hget & H)|(e & Hget & ->)].
  - apply getProductById_inv in Hget as [-> Ho].
    destruct (Ho o eq_refl) as (i & -> & ->). clear Ho.
    destruct (head _) as [product|] eqn:Hhead; simpl in *.
    + apply head_filter_elem in Hhead as [Hin Hid].
      apply bind_inv in H as [([] & w2 & Hdel & H)|(e & Hdel & ->)].
      * unfold mret, M_ret in H. simplify_eq. right. exists (Product.id product).
        split_and!; [done|by eauto| |done].
        unfold Sql.delete_product in Hdel. unfold_sql. simpl in Hdel.
        unfold Sql.int4_of_Z in Hdel. by repeat case_match; simplify_eq/=.
      * left. split; [|by eapply Hthrow].
        unfold Sql.delete_product in Hdel. unfold_sql. simpl in Hdel.
        unfold Sql.int4_of_Z in Hdel. by repeat case_match; simplify_eq/=.
    + unfold throw in H. simplify_eq. left. split; [done|by eapply Hthrow].
  - apply getProductById_inv in Hget as [-> _]. left. split; [done|by eapply Hthrow].
Qed.

Lemma NoDup_fmap_filter {A B} (g : A -> B) (P : A -> Prop) `{!∀ x, Decision (P x)}
    (l : list A) :
  NoDup (g <$> l) -> NoDup (g <$> filter P l).
Proof.
  intros Hl. eapply sublist_NoDup; [exact Hl|]. apply fmap_sublist, sublist_filter.
Qed.

Lemma NoDup_fmap_snoc {A B} (g : A -> B) (l : list A) (x : A) :
  NoDup (g <$> l) -> (∀ y, y ∈ l -> g y ≠ g x) -> NoDup (g <$> (l ++ [x])%list).
Proof.
  intros H Hfresh. rewrite fmap_app. apply NoDup_app. split_and!; [done| |].
  - intros b (y & -> & Hy)%list_elem_of_fmap Hb. simpl in Hb.
    apply list_elem_of_singleton in Hb. by eapply Hfresh.
  - simpl. apply NoDup_singleton.
Qed.

Lemma updated_user_other i name email u :
  User.id u ≠ i -> Sql.updated_user i name email u = u.
Proof. intros H. unfold Sql.updated_user. by case_decide. Qed.

Lemma updated_product_other i name price stock p :
  Product.id p ≠ i -> Sql.updated_product i name price stock p = p.
Proof. intros H. unfold Sql.updated_product. by case_decide. Qed.

Lemma updated_user_ids i name email (l : list User.t) :
  User.id <$> (Sql.updated_user i name email <$> l) = User.id <$> l.
Proof.
  rewrite <-list_fmap_compose. apply list_fmap_ext. intros _ u _. simpl.
  unfold Sql.updated_user. by case_decide.
Qed.

Lemma updated_product_ids i name price stock (l : list Product.t) :
  Product.id <$> (Sql.updated_product i name price stock <$> l) = Product.id <$> l.
Proof.
  rewrite <-list_fmap_compose. apply list_fmap_ext. intros _ p _. simpl.
  unfold Sql.updated_product. by case_decide.
Qed.

(** X6. The primary key of users and the uniqueness of their emails survive
    createUser, updateUser and deleteUser, however they end. *)
Theorem users_keys_preserved (w : World) :
  users_pk (db w) -> users_email_key (db w) ->
  (∀ userData r w',
      userService.createUser userData w = (r, w') ->
      users_pk (db w') ∧ users_email_key (db w'))
  ∧ (∀ id updateData r w',
      userService.updateUser id updateData w = (r, w') ->
      users_pk (db w') ∧ users_email_key (db w'))
  ∧ (∀ id r w',
      userService.deleteUser id w = (r, w') ->
      users_pk (db w') ∧ users_email_key (db w')).
Proof.
  unfold users_pk, users_email_key. intros Hpk Hemail. split_and!.
  - intros userData r w' Hrun.
    apply createUser_inv in Hrun as [[-> _]|(i & Hfresh & -> & _)]; [done|].
    simpl. split; apply NoDup_fmap_snoc; try done; intros u Hu; simpl;
      by apply Hfresh.
  - intros id updateData r w' Hrun.
    apply updateUser_checked in Hrun
      as [[-> _]|(i & user & _ & Hhead & -> & Hunique)]; [done|].
    simpl. split; [by rewrite updated_user_ids|].
    apply (NoDup_fmap_updated User.id _ _ _ i); [done..| |].
    + intros u. apply updated_user_other.
    + intros x y Hx Hy Hxi Hyi Heq. apply Hyi, Hunique; [done|].
      rewrite <-Heq. unfold Sql.updated_user. by rewrite decide_True.
  - intros id r w' Hrun.
    apply deleteUser_inv in Hrun as [[-> _]|(i & _ & _ & -> & _)]; [done|].
    split; by apply NoDup_fmap_filter.
Qed.

(** X7. Product names stay unique under createProduct, deleteProduct and
    updateProduct, provided the update does not set the empty name: the
    empty string is falsy, so updateProduct skips its duplicate check for
    it. *)
Theorem product_names_preserved (w : World) :
  products_pk (db w) -> product_names_unique (db w) ->
  (∀ productData r w',
      productService.createProduct productData w = (r, w') ->
      product_names_unique (db w'))
  ∧ (∀ id updateData r w',
      productService.updateProduct id updateData w = (r, w') ->
      UpdateProductRequest.name updateData ≠ Some "" ->
      product_names_unique (db w'))
  ∧ (∀ id r w',
      productService.deleteProduct id w = (r, w') ->
      product_names_unique (db w')).
Proof.
  unfold products_pk, product_names_unique. intros Hpk Hnames. split_and!.
  - intros productData r w' Hrun. pose proof Hrun as Hrun'.
    apply createProduct_inv in Hrun as [[-> _]|(i & Hfresh & -> & ->)]; [done|].
    simpl. apply NoDup_fmap_snoc; [done|]. intros p Hp. simpl.
    by eapply createProduct_fresh_name.
  - intros id updateData r w' Hrun Hname.
    apply updateProduct_checked in Hrun
      as [[-> _]|(i & product & _ & Hhead & -> & Hunique)]; [done|].
    simpl. apply (NoDup_fmap_updated Product.id _ _ _ i); [done..| |].
    + intros p. apply updated_product_other.
    + intros x y Hx Hy Hxi Hyi Heq. apply Hyi, Hunique; [done..|].
      rewrite <-Heq. unfold Sql.updated_product. by rewrite decide_True.
  - intros id r w' Hrun.
    apply deleteProduct_inv in Hrun as [[-> _]|(i & _ & _ & -> & _)]; [done|].
    by apply NoDup_fmap_filter.
Qed.

(** The proviso is needed: renaming the two sample products to the empty
    name, one after the other, goes through and leaves two products of the
    same name. *)
Example empty_name_escapes_check :
  let rename := UpdateProductRequest.mk (Some "") (Some 100) None in
  let w1 := (productService.updateProduct (JS.Fin 1) rename sample_world).2 in
  let w2 := (productService.updateProduct (JS.Fin 2) rename w1).2 in
  product_names_unique (db w1) ∧ ¬ product_names_unique (db w2).
Proof.
  split.
  - apply (bool_decide_unpack _). vm_compute. exact I.
  - intros H. apply (bool_decide_pack _) in H. vm_compute in H. exact H.
Qed.

(** ** Calls on a connection without faults *)

Lemma mutation_ok w :
  faults w = [] -> Sql.mutation w = (Return (), set_mutations (S (mutations w)) w).
Proof. destruct w; simpl. intros ->. done. Qed.

Lemma int4_range id i : Sql.int4 id = Return i ↔ id = JS.Fin i ∧ -2147483648 <= i <= 2147483647.
Proof.
  split.
  - intros H. pose proof (int4_Return _ _ H) as ->. split; [done|].
    simpl in H. unfold Sql.int4_of_Z in H.
    destruct (_ && _) eqn:E; [|done].
    apply andb_true_iff in E as [?%Z.leb_le ?%Z.leb_le]. lia.
  - intros [-> Hi]. simpl. unfold Sql.int4_of_Z.
    assert ((-2147483648 <=? i) && (i <=? 2147483647) = true) as ->; [|done].
    apply andb_true_iff. split; apply Z.leb_le; lia.
Qed.

Lemma getUserById_ok id i w :
  faults w = [] -> Sql.int4 id = Return i ->
  userService.getUserById id w
  = (Return (head (filter (fun u => User.id u = i) (users (db w)))), w).
Proof.
  intros Hf Hid.
  unfold userService.getUserById, Sql.select_user_by_id, rethrow, try_catch,
    mbind, M_bind.
  rewrite roundtrip_ok by done. unfold lift. by rewrite Hid.
Qed.

Lemma getUserByEmail_ok email w :
  faults w = [] ->
  userService.getUserByEmail email w
  = (Return (head (filter (fun u => User.email u = email) (users (db w)))), w).
Proof.
  intros Hf.
  unfold userService.getUserByEmail, Sql.select_user_by_email, rethrow, try_catch,
    mbind, M_bind.
  by rewrite roundtrip_ok by done.
Qed.

Lemma userExists_ok id i w :
  faults w = [] -> Sql.int4 id = Return i ->
  userService.userExists id w
  = (Return (Sql.nonempty (filter (fun u => User.id u = i) (users (db w)))), w).
Proof.
  intros Hf Hid.
  unfold userService.userExists, Sql.select_1_from_users, rethrow, try_catch,
    mbind, M_bind.
  rewrite roundtrip_ok by done. unfold lift. rewrite Hid.
  unfold Sql.read, mret, M_ret. by rewrite nonempty_fmap.
Qed.

Lemma getProductById_ok id i w :
  faults w = [] -> Sql.int4 id = Return i ->
  productService.getProductById id w
  = (Return (head (filter (fun p => Product.id p = i) (products (db w)))), w).
Proof.
  intros Hf Hid.
  unfold productService.getProductById, Sql.select_product_by_id, rethrow, try_catch,
    mbind, M_bind.
  rewrite roundtrip_ok by done. unfold lift. by rewrite Hid.
Qed.

Lemma filter_snoc_fresh {A} (P : A -> Prop) `{!∀ x, Decision (P x)} (l : list A) x :
  (∀ y, y ∈ l -> ¬ P y) -> P x -> filter P (l ++ [x])%list = [x].
Proof.
  intros Hl Hx. rewrite filter_app, (filter_none P l Hl). simpl.
  by rewrite filter_cons_True.
Qed.

(** X8. After a successful createUser the row returned carries the
    requested name and email, and getUserById, getUserByEmail and userExists
    find it. *)
Theorem createUser_then_lookup userData w user w' :
  userService.createUser userData w = (Return user, w') ->
  faults w' = [] -> -2147483648 <= User.id user <= 2147483647 ->
  User.name user = CreateUserRequest.name userData
  ∧ User.email user = CreateUserRequest.email userData
  ∧ userService.getUserById (JS.Fin (User.id user)) w' = (Return (Some user), w')
  ∧ userService.getUserByEmail (CreateUserRequest.email userData) w'
    = (Return (Some user), w')
  ∧ userService.userExists (JS.Fin (User.id user)) w' = (Return true, w').
Proof.
  intros Hrun Hf Hrange.
  apply createUser_inv in Hrun as [[_ [e ?]]|(i & Hfresh & Hdb & ?)]; [done|].
  simplify_eq. simpl in *.
  assert (Sql.int4 (JS.Fin i) = Return i) as Hid by (by apply int4_range).
  split_and!; [done..| | |].
  - rewrite (getUserById_ok _ i), Hdb by done. simpl.
    rewrite filter_snoc_fresh; [done| |done]. intros u Hu. by apply Hfresh.
  - rewrite getUserByEmail_ok, Hdb by done. simpl.
    rewrite filter_snoc_fresh; [done| |done]. intros u Hu. by apply Hfresh.
  - rewrite (userExists_ok _ i), Hdb by done. simpl.
    rewrite filter_snoc_fresh; [done| |done]. intros u Hu. by apply Hfresh.
Qed.

(** X9. After a successful createProduct the row returned carries the
    requested name and stock, and getProductById finds it.  Nothing is said
    of the price: the column is NUMERIC(10,2), and the row carries the
    requested price as the column rounds it. *)
Theorem createProduct_then_lookup productData w product w' :
  productService.createProduct productData w = (Return product, w') ->
  faults w' = [] -> -2147483648 <= Product.id product <= 2147483647 ->
  Product.name product = CreateProductRequest.name productData
  ∧ Product.stock product = CreateProductRequest.stock productData
  ∧ productService.getProductById (JS.Fin (Product.id product)) w'
    = (Return (Some product), w').
Proof.
  intros Hrun Hf Hrange.
  apply createProduct_inv in Hrun as [[_ [e ?]]|(i & Hfresh & Hdb & ?)]; [done|].
  simplify_eq. simpl in *.
  assert (Sql.int4 (JS.Fin i) = Return i) as Hid by (by apply int4_range).
  split_and!; [done..|].
  rewrite (getProductById_ok _ i), Hdb by done. simpl.
  rewrite filter_snoc_fresh; [done| |done]. intros u Hu. by apply Hfresh.
Qed.

(** ** Update, then look up: products *)

Lemma update_product_Return name price stock id w rows w' :
  Sql.update_product name price stock id w = (Return rows, w') ->
  ∃ i, Sql.int4 id = Return i
       ∧ Sql.numeric_10_2 price = Return price
       ∧ Sql.int4_of_Z stock = Return stock.
Proof.
  unfold Sql.update_product. intros H.
  apply bind_inv in H as [([] & w1 & _ & H)|(e & _ & ?)]; [|done].
  apply bind_inv in H as [(price' & w2 & Hp & H)|(e & _ & ?)]; [|done].
  apply bind_inv in H as [(stock' & w3 & Hs & H)|(e & _ & ?)]; [|done].
  apply bind_inv in H as [(i & w4 & Hi & H)|(e & _ & ?)]; [|done].
  unfold lift in *. simplify_eq. exists i.
  repeat match goal with
         | H : Sql.numeric_10_2 _ = Return _ |- _ =>
             pose proof (numeric_10_2_Return _ _ H); subst; revert H
         | H : Sql.int4_of_Z _ = Return _ |- _ =>
             pose proof (int4_of_Z_Return _ _ H); subst; revert H
         end.
  by intros.
Qed.

Lemma getProductById_Return id w o w' :
  productService.getProductById id w = (Return o, w') ->
  ∃ i, Sql.int4 id = Return i.
Proof.
  unfold productService.getProductById, Sql.select_product_by_id. intros H.
  apply rethrow_run in H as ([a|?] & H & ?); [|done].
  apply bind_inv in H as [(rows & w1 & H & _)|(e & _ & ?)]; [|done].
  apply bind_inv in H as [([] & w2 & _ & H)|(e & _ & ?)]; [|done].
  apply bind_inv in H as [(i & w3 & H & _)|(e & _ & ?)]; [|done].
  unfold lift in H. simplify_eq. eauto.
Qed.

Lemma getUserById_Return id w o w' :
  userService.getUserById id w = (Return o, w') ->
  ∃ i, Sql.int4 id = Return i.
Proof.
  unfold userService.getUserById, Sql.select_user_by_id. intros H.
  apply rethrow_run in H as ([a|?] & H & ?); [|done].
  apply bind_inv in H as [(rows & w1 & H & _)|(e & _ & ?)]; [|done].
  apply bind_inv in H as [([] & w2 & _ & H)|(e & _ & ?)]; [|done].
  apply bind_inv in H as [(i & w3 & H & _)|(e & _ & ?)]; [|done].
  unfold lift in H. simplify_eq. eauto.
Qed.

Lemma updated_product_id i name price stock p :
  Product.id (Sql.updated_product i name price stock p) = Product.id p.
Proof. unfold Sql.updated_product. by case_decide. Qed.

Lemma head_filter_updated_product i name price stock (l : list Product.t) product :
  head (filter (fun p => Product.id p = i) l) = Some product ->
  head (filter (fun p => Product.id p = i) (Sql.updated_product i name price stock <$> l))
  = Some (Product.mk i name price stock (Product.created_at product)).
Proof.
  induction l as [|q l IH]; [done|]. rewrite fmap_cons.
  destruct (decide (Product.id q = i)) as [Hq|Hq].
  - rewrite !filter_cons_True by (by rewrite ?updated_product_id). simpl.
    intros; simplify_eq. unfold Sql.updated_product. by rewrite decide_True.
  - by rewrite !filter_cons_False by (by rewrite ?updated_product_id).
Qed.

(** A successful updateProduct, step by step. *)
Lemma updateProduct_Return id updateData w product' w' :
  productService.updateProduct id updateData w = (Return product', w') ->
  ∃ i product,
    Sql.int4 id = Return i
    ∧ head (filter (fun p => Product.id p = i) (products (db w))) = Some product
    ∧ let name := UpdateProductRequest.name updateData ?? Product.name product in
      let price := UpdateProductRequest.price updateData ?? Product.price product in
      let stock := UpdateProductRequest.stock updateData ?? Product.stock product in
      Sql.numeric_10_2 price = Return price
      ∧ Sql.int4_of_Z stock = Return stock
      ∧ db w' = set_products (Sql.updated_product i name price stock <$> products (db w))
                             (db w)
      ∧ product' = Product.mk i name price stock (Product.created_at product).
Proof.
  intros H. pose proof H as H'.
  apply updateProduct_inv in H as [[_ [e ?]]|(i & product & -> & Hhead & Hdb & Hr)];
    [done|].
  specialize (Hr _ eq_refl). exists i, product.
  unfold productService.updateProduct in H'.
  apply rethrow_run in H' as ([a|?] & H' & ?); [|done].
  apply bind_inv in H' as [(o & w1 & Hget & H')|(e & _ & ?)]; [|done].
  pose proof (getProductById_Return _ _ _ _ Hget) as [i' Hi'].
  pose proof (proj1 (int4_range _ _) Hi') as [? _]. simplify_eq.
  apply getProductById_inv in Hget as [-> Ho].
  destruct (Ho o eq_refl) as (i & ? & ->). simplify_eq. rewrite Hhead in H'.
  apply bind_inv in H' as [([] & w2 & _ & H')|(e & _ & ?)]; [|done].
  apply bind_inv in H' as [(rows & w3 & Hupd & _)|(e & _ & ?)]; [|done].
  apply update_product_Return in Hupd as (_ & _ & Hp & Hs).
  simpl. split_and!; [done..|].
  erewrite head_filter_updated_product in Hr by done. by simplify_eq.
Qed.

Lemma updated_product_idem i name price stock p :
  Sql.updated_product i name price stock (Sql.updated_product i name price stock p)
  = Sql.updated_product i name price stock p.
Proof.
  unfold Sql.updated_product. destruct (decide (Product.id p = i)) as [H|H]; simpl.
  - by rewrite decide_True.
  - by rewrite decide_False.
Qed.

Lemma updated_product_twice i name price stock (l : list Product.t) :
  Sql.updated_product i name price stock <$> (Sql.updated_product i name price stock <$> l)
  = Sql.updated_product i name price stock <$> l.
Proof.
  rewrite <-list_fmap_compose. apply list_fmap_ext. intros _ p _. simpl.
  apply updated_product_idem.
Qed.

Lemma update_product_ok name price stock id i w :
  faults w = [] -> Sql.int4 id = Return i ->
  Sql.numeric_10_2 price = Return price -> Sql.int4_of_Z stock = Return stock ->
  Sql.update_product name price stock id w
  = (let ps := Sql.updated_product i name price stock <$> products (db w) in
     (Return (filter (fun p => Product.id p = i) ps),
      set_db (set_products ps (db w)) (set_mutations (S (mutations w)) w))).
Proof.
  intros Hf Hi Hp Hs. unfold Sql.update_product, mbind, M_bind.
  rewrite mutation_ok by done. unfold lift. by rewrite Hp, Hs, Hi.
Qed.

(** X10. After a successful updateProduct the row returned carries the
    name and the stock the request provides, getProductById returns that
    row, the rows of other ids are untouched, and the same update applied
    again returns the same row and changes no table.  Nothing is said of the
    price provided: the column is NUMERIC(10,2), and the row carries it as
    the column rounds it. *)
Theorem updateProduct_then_lookup id updateData w product' w' :
  productService.updateProduct id updateData w = (Return product', w') ->
  faults w' = [] ->
  (∀ name, UpdateProductRequest.name updateData = Some name ->
           Product.name product' = name)
  ∧ (∀ stock, UpdateProductRequest.stock updateData = Some stock ->
              Product.stock product' = stock)
  ∧ productService.getProductById id w' = (Return (Some product'), w')
  ∧ (∀ q, JS.Fin (Product.id q) ≠ id ->
          q ∈ products (db w') ↔ q ∈ products (db w))
  ∧ ∃ w'', productService.updateProduct id updateData w' = (Return product', w'')
           ∧ db w'' = db w'.
Proof.
  intros Hrun Hf.
  apply updateProduct_Return in Hrun
    as (i & product & Hi & Hhead & Hp & Hs & Hdb & ->).
  pose proof (proj1 (int4_range _ _) Hi) as [-> _].
  pose proof (head_filter_updated_product i
                (UpdateProductRequest.name updateData ?? Product.name product)
                (UpdateProductRequest.price updateData ?? Product.price product)
                (UpdateProductRequest.stock updateData ?? Product.stock product)
                _ _ Hhead) as Hr.
  assert (productService.getProductById (JS.Fin i) w'
          = (Return (Some (Product.mk i
                 (UpdateProductRequest.name updateData ?? Product.name product)
                 (UpdateProductRequest.price updateData ?? Product.price product)
                 (UpdateProductRequest.stock updateData ?? Product.stock product)
                 (Product.created_at product))), w')) as Hget.
  { rewrite (getProductById_ok _ i) by done. rewrite Hdb. simpl. by rewrite Hr. }
  split_and!.
  - by intros name ->.
  - by intros stock ->.
  - done.
  - intros q Hq. rewrite Hdb. simpl. rewrite list_elem_of_fmap. split.
    + intros (q0 & -> & Hq0). unfold Sql.updated_product in *.
      destruct (decide (Product.id q0 = i)); [|done]. simpl in Hq. congruence.
    + intros Hin. exists q. split; [|done]. rewrite updated_product_other; [done|].
      congruence.
  - eexists. unfold productService.updateProduct, rethrow, try_catch, mbind, M_bind.
    rewrite Hget. simpl.
    assert (truthy_str (UpdateProductRequest.name updateData)
            && negb (bool_decide
                       (UpdateProductRequest.name updateData
                        = Some (UpdateProductRequest.name updateData
                                ?? Product.name product))) = false) as ->.
    { destruct (UpdateProductRequest.name updateData); simpl; [|done].
      rewrite bool_decide_eq_true_2 by done. apply andb_false_r. }
    unfold mret at 1, M_ret at 1.
    assert (∀ {A} (o : option A) (x : A), o ?? (o ?? x) = o ?? x) as Hnn
        by (by intros A []).
    rewrite !Hnn.
    rewrite (update_product_ok _ _ _ _ i) by done. cbv zeta.
    rewrite Hdb. simpl.
    rewrite updated_product_twice.
    destruct (filter _ (_ <$> _)) as [|p0 l] eqn:Hfil; [done|].
    simpl in Hr. simplify_eq. split; reflexivity.
Qed.

(** ** Update, then look up: users *)

Lemma updated_user_id i name email u :
  User.id (Sql.updated_user i name email u) = User.id u.
Proof. unfold Sql.updated_user. by case_decide. Qed.

Lemma head_filter_updated_user i name email (l : list User.t) user :
  head (filter (fun u => User.id u = i) l) = Some user ->
  head (filter (fun u => User.id u = i) (Sql.updated_user i name email <$> l))
  = Some (User.mk i name email (User.created_at user)).
Proof.
  induction l as [|q l IH]; [done|]. rewrite fmap_cons.
  destruct (decide (User.id q = i)) as [Hq|Hq].
  - rewrite !filter_cons_True by (by rewrite ?updated_user_id). simpl.
    intros; simplify_eq. unfold Sql.updated_user. by rewrite decide_True.
  - by rewrite !filter_cons_False by (by rewrite ?updated_user_id).
Qed.

Lemma updated_user_idem i name email u :
  Sql.updated_user i name email (Sql.updated_user i name email u)
  = Sql.updated_user i name email u.
Proof.
  unfold Sql.updated_user. destruct (decide (User.id u = i)) as [H|H]; simpl.
  - by rewrite decide_True.
  - by rewrite decide_False.
Qed.

Lemma updated_user_twice i name email (l : list User.t) :
  Sql.updated_user i name email <$> (Sql.updated_user i name email <$> l)
  = Sql.updated_user i name email <$> l.
Proof.
  rewrite <-list_fmap_compose. apply list_fmap_ext. intros _ u _. simpl.
  apply updated_user_idem.
Qed.

(** A successful updateUser, step by step. *)
Lemma updateUser_Return id updateData w user' w' :
  userService.updateUser id updateData w = (Return user', w') ->
  ∃ i user,
    Sql.int4 id = Return i
    ∧ head (filter (fun u => User.id u = i) (users (db w))) = Some user
    ∧ let name := UpdateUserRequest.name updateData ?? User.name user in
      let email := UpdateUserRequest.email updateData ?? User.email user in
      db w' = set_users (Sql.updated_user i name email <$> users (db w)) (db w)
      ∧ user' = User.mk i name email (User.created_at user)
      ∧ ∀ u, u ∈ users (db w) -> User.email u = email -> User.id u = i.
Proof.
  intros H. pose proof H as H'. pose proof H as H''.
  apply updateUser_inv in H as [[_ [e ?]]|(i & user & -> & Hhead & Hdb & Hr)];
    [done|].
  specialize (Hr _ eq_refl). exists i, user.
  apply updateUser_checked in H'' as [[_ [e ?]]|(i' & user0 & ? & Hhead' & _ & Hunique)];
    [done|].
  assert (i' = i) as -> by congruence.
  assert (user0 = user) as -> by congruence.
  unfold userService.updateUser in H'.
  apply rethrow_run in H' as ([a|?] & H' & ?); [|done].
  apply bind_inv in H' as [(o & w1 & Hget & H')|(e & _ & ?)]; [|done].
  pose proof (getUserById_Return _ _ _ _ Hget) as [j Hj].
  pose proof (proj1 (int4_range _ _) Hj) as [? _]. simplify_eq.
  simpl. split_and!; [done..| |done].
  erewrite head_filter_updated_user in Hr by done. by simplify_eq.
Qed.

Lemma update_user_ok name email id i w :
  faults w = [] -> Sql.int4 id = Return i ->
  (∀ u, u ∈ users (db w) -> User.email u = email -> User.id u = i) ->
  Sql.update_user name email id w
  = (let us := Sql.updated_user i name email <$> users (db w) in
     (Return (filter (fun u => User.id u = i) us),
      set_db (set_users us (db w)) (set_mutations (S (mutations w)) w))).
Proof.
  intros Hf Hi Hunique. unfold Sql.update_user, mbind, M_bind.
  rewrite mutation_ok by done. unfold lift. rewrite Hi. unfold Sql.exec. simpl.
  rewrite (filter_none (fun u => User.email u = email ∧ User.id u ≠ i)).
  - by rewrite andb_false_r.
  - intros u Hu [He Hne]. by apply Hne, Hunique.
Qed.

(** X11. After a successful updateUser the row returned carries every field
    the request provides, getUserById returns that row, the rows of other
    ids are untouched, and the same update applied again returns the same
    row and changes no table. *)
Theorem updateUser_then_lookup id updateData w user' w' :
  userService.updateUser id updateData w = (Return user', w') ->
  faults w' = [] ->
  (∀ name, UpdateUserRequest.name updateData = Some name -> User.name user' = name)
  ∧ (∀ email, UpdateUserRequest.email updateData = Some email ->
              User.email user' = email)
  ∧ userService.getUserById id w' = (Return (Some user'), w')
  ∧ (∀ q, JS.Fin (User.id q) ≠ id -> q ∈ users (db w') ↔ q ∈ users (db w))
  ∧ ∃ w'', userService.updateUser id updateData w' = (Return user', w'')
           ∧ db w'' = db w'.
Proof.
  intros Hrun Hf.
  apply updateUser_Return in Hrun as (i & user & Hi & Hhead & Hdb & -> & Hunique).
  pose proof (proj1 (int4_range _ _) Hi) as [-> _].
  pose proof (head_filter_updated_user i
                (UpdateUserRequest.name updateData ?? User.name user)
                (UpdateUserRequest.email updateData ?? User.email user)
                _ _ Hhead) as Hr.
  assert (userService.getUserById (JS.Fin i) w'
          = (Return (Some (User.mk i
                 (UpdateUserRequest.name updateData ?? User.name user)
                 (UpdateUserRequest.email updateData ?? User.email user)
                 (User.created_at user))), w')) as Hget.
  { rewrite (getUserById_ok _ i) by done. rewrite Hdb. simpl. by rewrite Hr. }
  split_and!.
  - by intros name ->.
  - by intros email ->.
  - done.
  - intros q Hq. rewrite Hdb. simpl. rewrite list_elem_of_fmap. split.
    + intros (q0 & -> & Hq0). unfold Sql.updated_user in *.
      destruct (decide (User.id q0 = i)); [|done]. simpl in Hq. congruence.
    + intros Hin. exists q. split; [|done]. rewrite updated_user_other; [done|].
      congruence.
  - eexists. unfold userService.updateUser, rethrow, try_catch, mbind, M_bind.
    rewrite Hget. simpl.
    assert (truthy_str (UpdateUserRequest.email updateData)
            && negb (bool_decide
                       (UpdateUserRequest.email updateData
                        = Some (UpdateUserRequest.email updateData
                                ?? User.email user))) = false) as ->.
    { destruct (UpdateUserRequest.email updateData); simpl; [|done].
      rewrite bool_decide_eq_true_2 by done. apply andb_false_r. }
    unfold mret at 1, M_ret at 1.
    assert (∀ {A} (o : option A) (x : A), o ?? (o ?? x) = o ?? x) as Hnn
        by (by intros A []).
    rewrite !Hnn.
    rewrite (update_user_ok _ _ _ i); [|done..|].
    + cbv zeta. rewrite Hdb. simpl. rewrite updated_user_twice.
      destruct (filter _ (_ <$> _)) as [|p0 l] eqn:Hfil; [done|].
      simpl in Hr. simplify_eq. split; reflexivity.
    + rewrite Hdb. simpl. intros u (u0 & -> & Hu0)%list_elem_of_fmap Hemail.
      rewrite updated_user_id.
      destruct (decide (User.id u0 = i)) as [|Hne]; [done|].
      rewrite updated_user_other in Hemail by done. by apply Hunique.
Qed.

(** ** Messages that contain a text *)

Lemma prefix_nil (s : string) : String.prefix "" s = true.
Proof. by destruct s. Qed.

Lemma prefix_app_r (sub a b : string) :
  String.prefix sub a = true -> String.prefix sub (a +:+ b) = true.
Proof.
  revert a. induction sub as [|c sub IH]; intros a; [by rewrite !prefix_nil|].
  destruct a as [|c' a]; simpl; [done|].
  destruct (Ascii.ascii_dec c c'); [apply IH|done].
Qed.

Lemma includes_app_l (a b sub : string) :
  JS.includes a sub = true -> JS.includes (a +:+ b) sub = true.
Proof.
  induction a as [|c a IH]; simpl.
  - rewrite orb_false_r. destruct sub; [|done]. intros _.
    destruct b; simpl; by rewrite ?prefix_nil.
  - intros [H|H]%orb_true_iff; apply orb_true_iff.
    + left. by apply (prefix_app_r sub (String c a) b).
    + right. by apply IH.
Qed.

Lemma includes_app_r (a b sub : string) :
  JS.includes b sub = true -> JS.includes (a +:+ b) sub = true.
Proof.
  intros H. induction a as [|c a IH]; [done|].
  simpl. apply orb_true_iff. by right.
Qed.

Lemma not_found_message (what x : string) :
  JS.includes (what +:+ x +:+ " not found") "not found" = true.
Proof. by do 2 apply includes_app_r. Qed.

(** ** Deleting *)

Lemma delete_user_ok id i w :
  faults w = [] -> Sql.int4 id = Return i ->
  Sql.delete_user id w
  = (Return (),
     let d := db w in
     let gone (o : Order.t) := bool_decide (Order.user_id o = i) in
     let dead := Order.id <$> List.filter gone (orders d) in
     set_db (mkDb (filter (fun u => User.id u ≠ i) (users d))
                  (products d)
                  (List.filter (fun o => negb (gone o)) (orders d))
                  (filter (fun it => OrderItem.order_id it ∉ dead) (order_items d))
                  (filter (fun k => k.2 ∉ dead) (order_keys d)))
            (set_mutations (S (mutations w)) w)).
Proof.
  intros Hf Hi. unfold Sql.delete_user, mbind, M_bind.
  rewrite mutation_ok by done. unfold lift. by rewrite Hi.
Qed.

Lemma delete_user_Return id w w' :
  Sql.delete_user id w = (Return (), w') ->
  ∃ i, Sql.int4 id = Return i
       ∧ users (db w') = filter (fun u => User.id u ≠ i) (users (db w))
       ∧ orders (db w')
         = List.filter (fun o => negb (bool_decide (Order.user_id o = i))) (orders (db w)).
Proof.
  unfold Sql.delete_user. intros H.
  apply bind_inv in H as [([] & w1 & Hm & H)|(e & _ & ?)]; [|done].
  apply mutation_inv in Hm as ->.
  apply bind_inv in H as [(i & w2 & Hi & H)|(e & _ & ?)]; [|done].
  unfold lift in Hi. unfold Sql.exec in H. simplify_eq. by exists i.
Qed.

Lemma deleteUser_Return id w b w' :
  userService.deleteUser id w = (Return b, w') ->
  ∃ i, Sql.int4 id = Return i
       ∧ users (db w') = filter (fun u => User.id u ≠ i) (users (db w))
       ∧ orders (db w')
         = List.filter (fun o => negb (bool_decide (Order.user_id o = i))) (orders (db w)).
Proof.
  unfold userService.deleteUser. intros H.
  apply rethrow_run in H as ([a|?] & H & ?); [|done].
  apply bind_inv in H as [(o & w1 & Hget & H)|(e & _ & ?)]; [|done].
  apply getUserById_inv in Hget as [-> _].
  destruct o; [|done].
  apply bind_inv in H as [([] & w2 & Hdel & H)|(e & _ & ?)]; [|done].
  unfold mret, M_ret in H. simplify_eq.
  apply delete_user_Return in Hdel as (i & ? & ? & ?). exists i. by split_and!.
Qed.

Lemma filter_filter_out {A} (P : A -> Prop) `{!∀ x, Decision (P x)} (l : list A) :
  filter P (filter (fun x => ¬ P x) l) = [].
Proof. apply filter_none. by intros x [? _]%list_elem_of_filter. Qed.

(** X12. After a successful deleteUser the user is gone: getUserById
    returns null, userExists returns false and a second deleteUser throws
    "not found"; the other users are untouched and no order of the user
    remains (orders reference users ON DELETE CASCADE). *)
Theorem deleteUser_then_lookup id w b w' :
  userService.deleteUser id w = (Return b, w') ->
  faults w' = [] ->
  userService.getUserById id w' = (Return None, w')
  ∧ userService.userExists id w' = (Return false, w')
  ∧ userService.deleteUser id w'
    = (Throw ("Failed to delete user: User with ID " +:+ JS.show id +:+ " not found"),
       w')
  ∧ (∀ q, JS.Fin (User.id q) ≠ id -> q ∈ users (db w') ↔ q ∈ users (db w))
  ∧ (∀ o, o ∈ orders (db w') -> JS.Fin (Order.user_id o) ≠ id).
Proof.
  intros Hrun Hf.
  apply deleteUser_Return in Hrun as (i & Hi & Husers & Horders).
  pose proof (proj1 (int4_range _ _) Hi) as [-> _].
  assert (userService.getUserById (JS.Fin i) w' = (Return None, w')) as Hget.
  { rewrite (getUserById_ok _ i), Husers by done.
    by rewrite (filter_filter_out (fun u => User.id u = i)). }
  split_and!.
  - done.
  - rewrite (userExists_ok _ i), Husers by done.
    by rewrite (filter_filter_out (fun u => User.id u = i)).
  - unfold userService.deleteUser, rethrow, try_catch, mbind, M_bind.
    by rewrite Hget.
  - intros q Hq. rewrite Husers, list_elem_of_filter. split; [tauto|].
    intros Hin. split; [congruence|done].
  - intros o Ho Hid. rewrite Horders in Ho.
    apply list_elem_of_In, filter_In in Ho as [_ Ho].
    apply negb_true_iff, bool_decide_eq_false in Ho. congruence.
Qed.

Lemma delete_product_Return id w w' :
  Sql.delete_product id w = (Return (), w') ->
  ∃ i, Sql.int4 id = Return i
       ∧ products (db w') = filter (fun p => Product.id p ≠ i) (products (db w))
       ∧ ∀ it, it ∈ order_items (db w) -> OrderItem.product_id it ≠ i.
Proof.
  unfold Sql.delete_product. intros H.
  apply bind_inv in H as [([] & w1 & Hm & H)|(e & _ & ?)]; [|done].
  apply mutation_inv in Hm as ->.
  apply bind_inv in H as [(i & w2 & Hi & H)|(e & _ & ?)]; [|done].
  unfold lift in Hi. unfold Sql.exec in H. simplify_eq. simpl in H.
  destruct (Sql.nonempty _) eqn:Hne; simplify_eq. exists i. split_and!; [done..|].
  intros it Hit.
  by apply (nonempty_filter_false (fun it => OrderItem.product_id it = i) _ Hne).
Qed.

Lemma deleteProduct_Return id w b w' :
  productService.deleteProduct id w = (Return b, w') ->
  ∃ i, Sql.int4 id = Return i
       ∧ products (db w') = filter (fun p => Product.id p ≠ i) (products (db w))
       ∧ ∀ it, it ∈ order_items (db w) -> OrderItem.product_id it ≠ i.
Proof.
  unfold productService.deleteProduct. intros H.
  apply rethrow_run in H as ([a|?] & H & ?); [|done].
  apply bind_inv in H as [(o & w1 & Hget & H)|(e & _ & ?)]; [|done].
  apply getProductById_inv in Hget as [-> _].
  destruct o; [|done].
  apply bind_inv in H as [([] & w2 & Hdel & H)|(e & _ & ?)]; [|done].
  unfold mret, M_ret in H. simplify_eq.
  apply delete_product_Return in Hdel as (i & ? & ? & ?). exists i. by split_and!.
Qed.

(** X13. After a successful deleteProduct the product is gone:
    getProductById returns null and a second deleteProduct throws "not
    found"; the other products are untouched, and no order item referred to
    the product. *)
Theorem deleteProduct_then_lookup id w b w' :
  productService.deleteProduct id w = (Return b, w') ->
  faults w' = [] ->
  productService.getProductById id w' = (Return None, w')
  ∧ productService.deleteProduct id w'
    = (Throw ("Failed to delete product: Product with ID " +:+ JS.show id
              +:+ " not found"), w')
  ∧ (∀ q, JS.Fin (Product.id q) ≠ id -> q ∈ products (db w') ↔ q ∈ products (db w))
  ∧ (∀ it, it ∈ order_items (db w) -> JS.Fin (OrderItem.product_id it) ≠ id).
Proof.
  intros Hrun Hf.
  apply deleteProduct_Return in Hrun as (i & Hi & Hproducts & Hitems).
  pose proof (proj1 (int4_range _ _) Hi) as [-> _].
  assert (productService.getProductById (JS.Fin i) w' = (Return None, w')) as Hget.
  { rewrite (getProductById_ok _ i), Hproducts by done.
    by rewrite (filter_filter_out (fun p => Product.id p = i)). }
  split_and!.
  - done.
  - unfold productService.deleteProduct, rethrow, try_catch, mbind, M_bind.
    by rewrite Hget.
  - intros q Hq. rewrite Hproducts, list_elem_of_filter. split; [tauto|].
    intros Hin. split; [congruence|done].
  - intros it Hit Hid. apply (Hitems it Hit). congruence.
Qed.

(** ** Rows that are not there *)

Lemma truthy_str_blank s : truthy_str s = false ↔ blank s.
Proof.
  unfold blank. destruct s as [s|]; simpl; [|naive_solver].
  destruct (String.eqb_spec s ""); simpl; split; intros; try done.
  - right. by subst.
  - destruct H as [?|?]; by simplify_eq.
Qed.

Lemma truthy_num_zero z : truthy_num z = false ↔ zero z.
Proof.
  unfold zero. destruct z as [z|]; simpl; [|naive_solver].
  destruct (Z.eqb_spec z 0); simpl; split; intros; try done.
  - right. by subst.
  - destruct H as [?|?]; by simplify_eq.
Qed.

Lemma updateUser_missing id i data w :
  faults w = [] -> Sql.int4 id = Return i ->
  (∀ u, u ∈ users (db w) -> User.id u ≠ i) ->
  userService.updateUser id data w
  = (Throw ("Failed to update user" +:+ ": " +:+ "User with ID " +:+ JS.show id
            +:+ " not found"), w).
Proof.
  intros Hf Hi Hnone.
  unfold userService.updateUser, rethrow, try_catch, mbind, M_bind.
  rewrite (getUserById_ok _ i) by done.
  by rewrite (filter_none (fun u => User.id u = i)).
Qed.

Lemma deleteUser_missing id i w :
  faults w = [] -> Sql.int4 id = Return i ->
  (∀ u, u ∈ users (db w) -> User.id u ≠ i) ->
  userService.deleteUser id w
  = (Throw ("Failed to delete user" +:+ ": " +:+ "User with ID " +:+ JS.show id
            +:+ " not found"), w).
Proof.
  intros Hf Hi Hnone.
  unfold userService.deleteUser, rethrow, try_catch, mbind, M_bind.
  rewrite (getUserById_ok _ i) by done.
  by rewrite (filter_none (fun u => User.id u = i)).
Qed.

Lemma updateProduct_missing id i data w :
  faults w = [] -> Sql.int4 id = Return i ->
  (∀ p, p ∈ products (db w) -> Product.id p ≠ i) ->
  productService.updateProduct id data w
  = (Throw ("Failed to update product" +:+ ": " +:+ "Product with ID " +:+ JS.show id
            +:+ " not found"), w).
Proof.
  intros Hf Hi Hnone.
  unfold productService.updateProduct, rethrow, try_catch, mbind, M_bind.
  rewrite (getProductById_ok _ i) by done.
  by rewrite (filter_none (fun p => Product.id p = i)).
Qed.

Lemma deleteProduct_missing id i w :
  faults w = [] -> Sql.int4 id = Return i ->
  (∀ p, p ∈ products (db w) -> Product.id p ≠ i) ->
  productService.deleteProduct id w
  = (Throw ("Failed to delete product" +:+ ": " +:+ "Product with ID " +:+ JS.show id
            +:+ " not found"), w).
Proof.
  intros Hf Hi Hnone.
  unfold productService.deleteProduct, rethrow, try_catch, mbind, M_bind.
  rewrite (getProductById_ok _ i) by done.
  by rewrite (filter_none (fun p => Product.id p = i)).
Qed.

Lemma includes_not_found (what thing x : string) :
  JS.includes (what +:+ ": " +:+ thing +:+ x +:+ " not found") "not found" = true.
Proof. by do 4 apply includes_app_r. Qed.

(** X14. A well-formed id with no row behind it is answered 404 by GET, by
    DELETE and by a PUT with something to update, and the world is left as
    it was. *)
Theorem missing_row_answered_404 (id : string) (i : Z) (w : World) :
  JS.parseInt id (Some 10) = JS.Fin i -> -2147483648 <= i <= 2147483647 ->
  faults w = [] ->
  ((∀ u, u ∈ users (db w) -> User.id u ≠ i) ->
   router (GET_users_id id) w = (error 404 "User not found", w)
   ∧ router (DELETE_users_id id) w
     = (error 404 ("Failed to delete user: User with ID " +:+ pretty i +:+ " not found"),
        w)
   ∧ ∀ body,
       ¬ (blank (UpdateUserRequest.name body) ∧ blank (UpdateUserRequest.email body)) ->
       router (PUT_users_id id body) w
       = (error 404 ("Failed to update user: User with ID " +:+ pretty i +:+ " not found"),
          w))
  ∧ ((∀ p, p ∈ products (db w) -> Product.id p ≠ i) ->
     router (GET_products_id id) w = (error 404 "Product not found", w)
     ∧ router (DELETE_products_id id) w
       = (error 404 ("Failed to delete product: Product with ID " +:+ pretty i
                     +:+ " not found"), w)
     ∧ ∀ body,
         ¬ (blank (UpdateProductRequest.name body)
            ∧ zero (UpdateProductRequest.price body)
            ∧ zero (UpdateProductRequest.stock body)) ->
         router (PUT_products_id id body) w
         = (error 404 ("Failed to update product: Product with ID " +:+ pretty i
                       +:+ " not found"), w)).
Proof.
  intros Hparse Hrange Hf.
  assert (Sql.int4 (JS.Fin i) = Return i) as Hi by (by apply int4_range).
  split; intros Hnone; split_and!.
  - cbv [router envelope userController.getUserById try_service]. rewrite Hparse.
    change (JS.isNaN (JS.Fin i)) with false. cbv beta iota zeta.
    rewrite (getUserById_ok _ i) by done.
    by rewrite (filter_none (fun u => User.id u = i)).
  - cbv [router envelope userController.deleteUser try_service]. rewrite Hparse.
    change (JS.isNaN (JS.Fin i)) with false. cbv beta iota zeta.
    rewrite (deleteUser_missing _ i) by done.
    by rewrite includes_not_found.
  - intros body Hbody.
    cbv [router envelope userController.updateUser try_service]. rewrite Hparse.
    change (JS.isNaN (JS.Fin i)) with false. cbv beta iota zeta.
    destruct (negb (truthy_str (UpdateUserRequest.name body))
              && negb (truthy_str (UpdateUserRequest.email body))) eqn:Hb.
    { exfalso. apply Hbody.
      apply andb_true_iff in Hb as [?%negb_true_iff ?%negb_true_iff].
      by rewrite <-!truthy_str_blank. }
    rewrite (updateUser_missing _ i) by done.
    by rewrite includes_not_found.
  - cbv [router envelope productController.getProductById try_service]. rewrite Hparse.
    change (JS.isNaN (JS.Fin i)) with false. cbv beta iota zeta.
    rewrite (getProductById_ok _ i) by done.
    by rewrite (filter_none (fun p => Product.id p = i)).
  - cbv [router envelope productController.deleteProduct try_service]. rewrite Hparse.
    change (JS.isNaN (JS.Fin i)) with false. cbv beta iota zeta.
    rewrite (deleteProduct_missing _ i) by done.
    by rewrite includes_not_found.
  - intros body Hbody.
    cbv [router envelope productController.updateProduct try_service]. rewrite Hparse.
    change (JS.isNaN (JS.Fin i)) with false. cbv beta iota zeta.
    destruct (negb (truthy_str (UpdateProductRequest.name body))
              && negb (truthy_num (UpdateProductRequest.price body))
              && negb (truthy_num (UpdateProductRequest.stock body))) eqn:Hb.
    { exfalso. apply Hbody.
      apply andb_true_iff in Hb as [[?%negb_true_iff ?%negb_true_iff]%andb_true_iff
                                      ?%negb_true_iff].
      by rewrite <-truthy_str_blank, <-!truthy_num_zero. }
    rewrite (updateProduct_missing _ i) by done.
    by rewrite includes_not_found.
Qed.

(** ** Conflicts, by the text of their message *)

Lemma updateProduct_conflict id i updateData name product q w :
  faults w = [] -> Sql.int4 id = Return i ->
  head (filter (fun p => Product.id p = i) (products (db w))) = Some product ->
  UpdateProductRequest.name updateData = Some name ->
  name ≠ "" -> name ≠ Product.name product ->
  q ∈ products (db w) -> Product.name q = name -> Product.id q ≠ i ->
  productService.updateProduct id updateData w
  = (Throw ("Failed to update product" +:+ ": " +:+ "Name " +:+ name
            +:+ " is already in use"), w).
Proof.
  intros Hf Hi Hhead Hname Hne Hdiff Hq Hqn Hqi.
  unfold productService.updateProduct, rethrow, try_catch, mbind, M_bind.
  rewrite (getProductById_ok _ i), Hhead, Hname by done. simpl.
  destruct (String.eqb_spec name ""); [done|]. simpl.
  rewrite bool_decide_eq_false_2 by congruence. simpl.
  unfold Sql.select_other_product_ids_by_name, mbind, M_bind.
  rewrite roundtrip_ok by done. unfold lift. rewrite Hi.
  unfold Sql.read. rewrite nonempty_fmap.
  assert (Sql.nonempty
            (filter (fun p => Product.name p = name ∧ Product.id p ≠ i)
                    (products (db w))) = true) as ->; [|done].
  apply nonempty_filter. eauto.
Qed.

Lemma updateUser_conflict id i updateData email user q w :
  faults w = [] -> Sql.int4 id = Return i ->
  head (filter (fun u => User.id u = i) (users (db w))) = Some user ->
  UpdateUserRequest.email updateData = Some email ->
  email ≠ "" -> email ≠ User.email user ->
  q ∈ users (db w) -> User.email q = email -> User.id q ≠ i ->
  userService.updateUser id updateData w
  = (Throw ("Failed to update user" +:+ ": " +:+ "Email " +:+ email
            +:+ " is already in use"), w).
Proof.
  intros Hf Hi Hhead Hemail Hne Hdiff Hq Hqn Hqi.
  unfold userService.updateUser, rethrow, try_catch, mbind, M_bind.
  rewrite (getUserById_ok _ i), Hhead, Hemail by done. simpl.
  destruct (String.eqb_spec email ""); [done|]. simpl.
  rewrite bool_decide_eq_false_2 by congruence. simpl.
  unfold Sql.select_other_user_ids_by_email, mbind, M_bind.
  rewrite roundtrip_ok by done. unfold lift. rewrite Hi.
  unfold Sql.read. rewrite nonempty_fmap.
  assert (Sql.nonempty
            (filter (fun u => User.email u = email ∧ User.id u ≠ i)
                    (users (db w))) = true) as ->; [|done].
  apply nonempty_filter. eauto.
Qed.

Ltac case_chars :=
  repeat match goal with
         | |- context [Ascii.ascii_dec ?a ?v] =>
             is_var v; destruct (Ascii.ascii_dec a v); [|reflexivity]
         end.

Ltac push_append :=
  repeat match goal with
         | |- context [String ?c ?x +:+ ?s] =>
             change (String c x +:+ s) with (String c (x +:+ s))
         | |- context [EmptyString +:+ ?s] => change (EmptyString +:+ s) with s
         end.

Lemma prefix_in_use (x : string) :
  String.prefix "not found" (x +:+ " is already in use") = String.prefix "not found" x.
Proof.
  do 9 (destruct x as [|? x];
        [push_append; cbn [String.prefix]; case_chars; reflexivity|]).
  push_append. cbn [String.prefix]. case_chars. by rewrite !prefix_nil.
Qed.

Lemma includes_in_use (x : string) :
  JS.includes (x +:+ " is already in use") "not found" = JS.includes x "not found".
Proof.
  induction x as [|c x IH]; [reflexivity|].
  change (JS.includes (String c x +:+ " is already in use") "not found")
    with (String.prefix "not found" (String c x +:+ " is already in use")
          || JS.includes (x +:+ " is already in use") "not found").
  by rewrite prefix_in_use, IH.
Qed.

Lemma includes_skip c s sub :
  String.prefix sub (String c s) = false ->
  JS.includes (String c s) sub = JS.includes s sub.
Proof.
  intros H. change (JS.includes (String c s) sub)
    with (String.prefix sub (String c s) || JS.includes s sub). by rewrite H.
Qed.

Lemma includes_update_product_conflict (x : string) :
  JS.includes ("Failed to update product" +:+ ": " +:+ "Name " +:+ x
               +:+ " is already in use") "not found"
  = JS.includes x "not found".
Proof.
  push_append. repeat (rewrite includes_skip by reflexivity). apply includes_in_use.
Qed.

Lemma includes_update_user_conflict (x : string) :
  JS.includes ("Failed to update user" +:+ ": " +:+ "Email " +:+ x
               +:+ " is already in use") "not found"
  = JS.includes x "not found".
Proof.
  push_append. repeat (rewrite includes_skip by reflexivity). apply includes_in_use.
Qed.

(** X15. A PUT that runs into a name, or an email, taken by another row is
    answered 400, unless the name or email itself contains the text "not
    found": the catch block then takes the conflict for a missing row and
    answers 404. *)
Theorem conflict_answered_by_text (id : string) (i : Z) (w : World) :
  JS.parseInt id (Some 10) = JS.Fin i -> -2147483648 <= i <= 2147483647 ->
  faults w = [] ->
  (∀ body product name q,
      head (filter (fun p => Product.id p = i) (products (db w))) = Some product ->
      UpdateProductRequest.name body = Some name ->
      name ≠ "" -> name ≠ Product.name product ->
      q ∈ products (db w) -> Product.name q = name -> Product.id q ≠ i ->
      router (PUT_products_id id body) w
      = (error (if JS.includes name "not found" then 404 else 400)
               ("Failed to update product: Name " +:+ name +:+ " is already in use"), w))
  ∧ (∀ body user email q,
      head (filter (fun u => User.id u = i) (users (db w))) = Some user ->
      UpdateUserRequest.email body = Some email ->
      email ≠ "" -> email ≠ User.email user ->
      q ∈ users (db w) -> User.email q = email -> User.id q ≠ i ->
      router (PUT_users_id id body) w
      = (error (if JS.includes email "not found" then 404 else 400)
               ("Failed to update user: Email " +:+ email +:+ " is already in use"), w)).
Proof.
  intros Hparse Hrange Hf.
  assert (Sql.int4 (JS.Fin i) = Return i) as Hi by (by apply int4_range).
  split.
  - intros body product name q Hhead Hname Hne Hdiff Hq Hqn Hqi.
    cbv [router envelope productController.updateProduct try_service]. rewrite Hparse.
    change (JS.isNaN (JS.Fin i)) with false. cbv beta iota zeta.
    assert (truthy_str (UpdateProductRequest.name body) = true) as ->.
    { rewrite Hname. simpl. by destruct (String.eqb_spec name ""). }
    change (negb true && ?b && ?c) with false. cbv beta iota zeta.
    rewrite (updateProduct_conflict _ i _ name product q) by done.
    rewrite includes_update_product_conflict.
    by destruct (JS.includes name "not found").
  - intros body user email q Hhead Hemail Hne Hdiff Hq Hqn Hqi.
    cbv [router envelope userController.updateUser try_service]. rewrite Hparse.
    change (JS.isNaN (JS.Fin i)) with false. cbv beta iota zeta.
    assert (truthy_str (UpdateUserRequest.email body) = true) as ->.
    { rewrite Hemail. simpl. by destruct (String.eqb_spec email ""). }
    rewrite andb_false_r.
    rewrite (updateUser_conflict _ i _ email user q)
      by (destruct body; simpl in *; done).
    rewrite includes_update_user_conflict.
    by destruct (JS.includes email "not found").
Qed.

(** ** ORDER BY *)

Lemma insert_desc_perm {A} (key : A -> Z) x (l : list A) :
  Sql.insert_desc key x l ≡ₚ x :: l.
Proof.
  induction l as [|y l IH]; simpl; [done|].
  destruct (key y <=? key x); [done|]. rewrite IH. apply Permutation_swap.
Qed.

Lemma order_by_desc_perm {A} (key : A -> Z) (l : list A) :
  Sql.order_by_desc key l ≡ₚ l.
Proof.
  unfold Sql.order_by_desc. induction l as [|x l IH]; simpl; [done|].
  by rewrite insert_desc_perm, IH.
Qed.

Lemma insert_desc_sorted {A} (key : A -> Z) x (l : list A) :
  newest_first key l -> newest_first key (Sql.insert_desc key x l).
Proof.
  unfold newest_first. induction 1 as [|y l Hl IH Hy]; simpl.
  - by repeat constructor.
  - destruct (key y <=? key x) eqn:E.
    + apply Z.leb_le in E. constructor; [by constructor|].
      constructor; [done|]. eapply Forall_impl; [exact Hy|]. simpl. intros; lia.
    + apply Z.leb_gt in E. constructor; [done|].
      rewrite insert_desc_perm. constructor; [lia|done].
Qed.

Lemma order_by_desc_sorted {A} (key : A -> Z) (l : list A) :
  newest_first key (Sql.order_by_desc key l).
Proof.
  unfold Sql.order_by_desc. induction l as [|x l IH]; simpl.
  - constructor.
  - by apply insert_desc_sorted.
Qed.

Lemma newest_first_sublist {A} (key : A -> Z) (l1 l2 : list A) :
  l1 `sublist_of` l2 -> newest_first key l2 -> newest_first key l1.
Proof.
  unfold newest_first. induction 1 as [|x l1 l2 Hsub IH|x l1 l2 Hsub IH].
  - done.
  - intros [H1 H2]%StronglySorted_inv. constructor; [by apply IH|].
    rewrite Forall_forall in *. intros y Hy. apply H2. by eapply elem_of_sublist.
  - intros [H1 H2]%StronglySorted_inv. by apply IH.
Qed.

(** ** Exact arithmetic below 2^53 *)

Lemma of_Z_exact n : Z.abs n < 2 ^ 53 -> JS.of_Z n = JS.Fin n.
Proof.
  intros Hn. unfold JS.of_Z. destruct (Z.eqb_spec n 0) as [->|Hne]; [done|].
  assert (JS.round53 (Z.abs n) = Z.abs n) as ->.
  { unfold JS.round53.
    assert ((Z.log2 (Z.abs n) + 1 <=? 53) = true) as ->; [|done].
    apply Z.leb_le. assert (Z.log2 (Z.abs n) < 53); [|lia].
    apply Z.log2_lt_pow2; lia. }
  assert ((1024 <=? Z.log2 (Z.abs n)) = false) as ->.
  { apply Z.leb_gt. assert (Z.log2 (Z.abs n) < 53); [|lia].
    apply Z.log2_lt_pow2; lia. }
  f_equal. destruct n; simpl; lia.
Qed.

Lemma row_count_Return clause x n :
  Sql.row_count clause x = Return n -> ∃ z, x = JS.Fin z ∧ 0 <= z ∧ n = Z.to_nat z.
Proof.
  destruct x as [| |z|]; simpl; try done.
  destruct (Z.ltb_spec z 0); [done|]. case_match; [|done].
  intros; simplify_eq. by exists z.
Qed.

Lemma row_count_ok clause z :
  0 <= z <= 9223372036854775807 -> Sql.row_count clause (JS.Fin z) = Return (Z.to_nat z).
Proof.
  intros Hz. simpl. destruct (Z.ltb_spec z 0); [lia|].
  destruct (Z.leb_spec z 9223372036854775807); [done|lia].
Qed.

(** ** The list services *)

Lemma getAllProducts_Return page limit w listed total w' :
  productService.getAllProducts page limit w = (Return (listed, total), w') ->
  total = Z.of_nat (length (products (db w)))
  ∧ ∃ l o,
      Sql.row_count "LIMIT" limit = Return l
      ∧ Sql.row_count "OFFSET" (JS.mul (JS.sub page (JS.Fin 1)) limit) = Return o
      ∧ listed = take l (drop o (Sql.order_by_desc Product.created_at
                                   (products (db w)))).
Proof.
  unfold productService.getAllProducts. intros H.
  apply rethrow_run in H as ([a|?] & H & ?); [|done]. simplify_eq.
  apply bind_inv in H as [(countResult & w1 & Hc & H)|(e & _ & ?)]; [|done].
  apply bind_inv in H as [(rows & w2 & Hs & H)|(e & _ & ?)]; [|done].
  unfold mret, M_ret in H. simplify_eq.
  unfold Sql.count_products in Hc.
  apply bind_inv in Hc as [([] & w3 & Hrt & Hc)|(e & _ & ?)]; [|done].
  apply roundtrip_inv in Hrt as ->. unfold Sql.read in Hc. simplify_eq.
  unfold Sql.select_products_page in Hs.
  apply bind_inv in Hs as [([] & w3 & Hrt & Hs)|(e & _ & ?)]; [|done].
  apply roundtrip_inv in Hrt as ->.
  apply bind_inv in Hs as [(l & w4 & Hl & Hs)|(e & _ & ?)]; [|done].
  apply bind_inv in Hs as [(o & w5 & Ho & Hs)|(e & _ & ?)]; [|done].
  unfold lift, Sql.read in *. simplify_eq. simpl. split; [done|]. by exists l, o.
Qed.

Lemma getAllUsers_Return page limit w listed total w' :
  userService.getAllUsers page limit w = (Return (listed, total), w') ->
  total = Z.of_nat (length (users (db w)))
  ∧ ∃ l o,
      Sql.row_count "LIMIT" limit = Return l
      ∧ Sql.row_count "OFFSET" (JS.mul (JS.sub page (JS.Fin 1)) limit) = Return o
      ∧ listed = take l (drop o (Sql.order_by_desc User.created_at
                                   (users (db w)))).
Proof.
  unfold userService.getAllUsers. intros H.
  apply rethrow_run in H as ([a|?] & H & ?); [|done]. simplify_eq.
  apply bind_inv in H as [(countResult & w1 & Hc & H)|(e & _ & ?)]; [|done].
  apply bind_inv in H as [(rows & w2 & Hs & H)|(e & _ & ?)]; [|done].
  unfold mret, M_ret in H. simplify_eq.
  unfold Sql.count_users in Hc.
  apply bind_inv in Hc as [([] & w3 & Hrt & Hc)|(e & _ & ?)]; [|done].
  apply roundtrip_inv in Hrt as ->. unfold Sql.read in Hc. simplify_eq.
  unfold Sql.select_users_page in Hs.
  apply bind_inv in Hs as [([] & w3 & Hrt & Hs)|(e & _ & ?)]; [|done].
  apply roundtrip_inv in Hrt as ->.
  apply bind_inv in Hs as [(l & w4 & Hl & Hs)|(e & _ & ?)]; [|done].
  apply bind_inv in Hs as [(o & w5 & Ho & Hs)|(e & _ & ?)]; [|done].
  unfold lift, Sql.read in *. simplify_eq. simpl. split; [done|]. by exists l, o.
Qed.

(** What a page of rows cut out of a table satisfies. *)
Lemma page_cut {A} (key : A -> Z) (table : list A) (l o : nat) :
  let rows := take l (drop o (Sql.order_by_desc key table)) in
  (length rows <= l)%nat ∧ (∀ row, row ∈ rows -> row ∈ table) ∧ newest_first key rows.
Proof.
  assert (take l (drop o (Sql.order_by_desc key table))
          `sublist_of` Sql.order_by_desc key table) as Hsub.
  { etrans; [apply sublist_take|apply sublist_drop]. }
  simpl. split_and!.
  - rewrite length_take. lia.
  - intros row Hrow. rewrite <-(order_by_desc_perm key table).
    by eapply elem_of_sublist.
  - eapply newest_first_sublist; [done|]. apply order_by_desc_sorted.
Qed.

Lemma ceil_div_pages total l :
  0 <= total < 2 ^ 53 -> 1 <= l ->
  ∃ n, JS.ceil_div (JS.Fin total) (JS.Fin l) = JS.Fin n
       ∧ (n - 1) * l < total <= n * l.
Proof.
  intros Ht Hl. simpl. destruct (Z.eqb_spec l 0); [lia|].
  exists (- (- total / l)).
  assert (0 <= - (- total / l) <= total) as Hn.
  { pose proof (Z.div_mod (- total) l ltac:(lia)).
    pose proof (Z.mod_pos_bound (- total) l ltac:(lia)). nia. }
  split; [apply of_Z_exact; lia|].
  pose proof (Z.div_mod (- total) l ltac:(lia)).
  pose proof (Z.mod_pos_bound (- total) l ltac:(lia)). nia.
Qed.

(** X16. A successful list response holds at most [limit] rows, with
    [limit] between 1 and 100, all of them rows of the table, newest first;
    [total] is the size of the table and [totalPages] is the least number
    of pages of that limit that hold [total] rows. *)
Theorem listed_page (query_page query_limit : JS.QueryValue) (w : World) :
  (Z.of_nat (length (products (db w))) < 2 ^ 53 ->
   ∀ pg, data (productController.getAllProducts query_page query_limit w).1 = Some pg ->
     ∃ l n,
       limit pg = JS.Fin l ∧ 1 <= l <= 100
       ∧ Z.of_nat (length (rows pg)) <= l
       ∧ (∀ row, row ∈ rows pg -> row ∈ products (db w))
       ∧ newest_first Product.created_at (rows pg)
       ∧ total pg = Z.of_nat (length (products (db w)))
       ∧ totalPages pg = JS.Fin n ∧ (n - 1) * l < total pg <= n * l)
  ∧ (Z.of_nat (length (users (db w))) < 2 ^ 53 ->
     ∀ pg, data (userController.getAllUsers query_page query_limit w).1 = Some pg ->
       ∃ l n,
         limit pg = JS.Fin l ∧ 1 <= l <= 100
         ∧ Z.of_nat (length (rows pg)) <= l
         ∧ (∀ row, row ∈ rows pg -> row ∈ users (db w))
         ∧ newest_first User.created_at (rows pg)
         ∧ total pg = Z.of_nat (length (users (db w)))
         ∧ totalPages pg = JS.Fin n ∧ (n - 1) * l < total pg <= n * l).
Proof.
  destruct (limit_param_range query_limit) as (l & Hl & Hrange).
  split; intros Hsize pg.
  - unfold productController.getAllProducts, try_service.
    destruct (productService.getAllProducts _ _ w) as [[[listed total]|e] w'] eqn:Hrun;
      simpl; [|done].
    intros ?; simplify_eq. simpl.
    apply getAllProducts_Return in Hrun as (-> & l' & o & Hl' & _ & ->).
    rewrite Hl in *. apply row_count_Return in Hl' as (z & ? & Hz & ->). simplify_eq.
    destruct (ceil_div_pages (Z.of_nat (length (products (db w)))) z)
      as (n & Hn & Hbounds); [lia..|].
    destruct (page_cut Product.created_at (products (db w)) (Z.to_nat z) o)
      as (Hlen & Hin & Hsorted).
    exists z, n. split_and!; try done; lia.
  - unfold userController.getAllUsers, try_service.
    destruct (userService.getAllUsers _ _ w) as [[[listed total]|e] w'] eqn:Hrun;
      simpl; [|done].
    intros ?; simplify_eq. simpl.
    apply getAllUsers_Return in Hrun as (-> & l' & o & Hl' & _ & ->).
    rewrite Hl in *. apply row_count_Return in Hl' as (z & ? & Hz & ->). simplify_eq.
    destruct (ceil_div_pages (Z.of_nat (length (users (db w)))) z)
      as (n & Hn & Hbounds); [lia..|].
    destruct (page_cut User.created_at (users (db w)) (Z.to_nat z) o)
      as (Hlen & Hin & Hsorted).
    exists z, n. split_and!; try done; lia.
Qed.

(** ** Pages end to end *)

Lemma offset_exact p l :
  1 <= p -> 1 <= l -> p * l < 2 ^ 53 ->
  JS.mul (JS.sub (JS.Fin p) (JS.Fin 1)) (JS.Fin l) = JS.Fin ((p - 1) * l).
Proof.
  intros Hp Hl Hpl. cbn [JS.sub]. rewrite of_Z_exact by nia.
  cbn [JS.mul]. apply of_Z_exact. nia.
Qed.

Lemma getAllProducts_ok p l w :
  faults w = [] -> 1 <= p -> 1 <= l -> p * l < 2 ^ 53 ->
  productService.getAllProducts (JS.Fin p) (JS.Fin l) w
  = (Return (take (Z.to_nat l)
               (drop (Z.to_nat ((p - 1) * l))
                  (Sql.order_by_desc Product.created_at (products (db w)))),
             Z.of_nat (length (products (db w)))), w).
Proof.
  intros Hf Hp Hl Hpl.
  unfold productService.getAllProducts, Sql.count_products, Sql.select_products_page,
    rethrow, try_catch, mbind, M_bind.
  rewrite offset_exact by done.
  rewrite roundtrip_ok by done. unfold Sql.read, lift.
  rewrite roundtrip_ok by done.
  rewrite !row_count_ok by nia. done.
Qed.

Lemma getAllUsers_ok p l w :
  faults w = [] -> 1 <= p -> 1 <= l -> p * l < 2 ^ 53 ->
  userService.getAllUsers (JS.Fin p) (JS.Fin l) w
  = (Return (take (Z.to_nat l)
               (drop (Z.to_nat ((p - 1) * l))
                  (Sql.order_by_desc User.created_at (users (db w)))),
             Z.of_nat (length (users (db w)))), w).
Proof.
  intros Hf Hp Hl Hpl.
  unfold userService.getAllUsers, Sql.count_users, Sql.select_users_page,
    rethrow, try_catch, mbind, M_bind.
  rewrite offset_exact by done.
  rewrite roundtrip_ok by done. unfold Sql.read, lift.
  rewrite roundtrip_ok by done.
  rewrite !row_count_ok by nia. done.
Qed.

(** Consecutive slices of a list, put end to end. *)
Lemma slices_concat {A} (f : nat -> list A) (s : list A) (L k : nat) :
  (∀ p, (1 <= p <= k)%nat -> f p = take L (drop ((p - 1) * L) s)) ->
  concat (f <$> seq 1 k) = take (k * L) s.
Proof.
  induction k as [|k IH]; intros Hf; [done|].
  rewrite seq_S, fmap_app, concat_app, IH by (intros; apply Hf; lia).
  simpl. rewrite app_nil_r, Hf by lia.
  replace ((S k - 1) * L)%nat with (k * L)%nat by lia.
  rewrite take_take_drop. f_equal. lia.
Qed.

(** Rows with distinct keys have one arrangement by descending key. *)
Lemma newest_first_unique {A} (key : A -> Z) (s t : list A) :
  NoDup (key <$> s) -> s ≡ₚ t -> newest_first key s -> newest_first key t -> s = t.
Proof.
  intros Hnd Hperm Hs Ht.
  apply (StronglySorted_unique_strong (fun a b => key b <= key a)); [|done..].
  intros x1 x2 H1 H2 H12 H21. rewrite <- Hperm in H2.
  assert (key x1 = key x2) as Hkey by lia. clear H12 H21 Hperm Hs Ht.
  induction s as [|y s IH]; [by apply elem_of_nil in H1|].
  rewrite fmap_cons in Hnd. apply NoDup_cons in Hnd as [Hy Hnd].
  apply elem_of_cons in H1 as [->|H1], H2 as [->|H2]; [done| | |by apply IH].
  - exfalso. apply Hy. rewrite Hkey. by apply list_elem_of_fmap_2.
  - exfalso. apply Hy. rewrite <- Hkey. by apply list_elem_of_fmap_2.
Qed.

Lemma order_by_desc_listing {A} (key : A -> Z) (table listing : list A) :
  NoDup (key <$> table) -> listing ≡ₚ table -> newest_first key listing ->
  Sql.order_by_desc key table = listing.
Proof.
  intros Hnd Hperm Hsorted. apply (newest_first_unique key).
  - by rewrite (order_by_desc_perm key table).
  - by rewrite order_by_desc_perm.
  - apply order_by_desc_sorted.
  - done.
Qed.

(** X17. On a table whose rows have distinct created_at, pages 1 to k of a
    list service, put end to end, are the first k * limit rows of the table
    arranged newest first; once k * limit reaches the size of the table,
    every row is listed exactly once.  (Rows of equal created_at are left
    out: the server may order them differently from one query to the
    next.) *)
Theorem pages_tile (l : Z) (k : nat) (w : World) :
  faults w = [] -> 1 <= l -> Z.of_nat k * l < 2 ^ 53 ->
  (NoDup (Product.created_at <$> products (db w)) ->
   (∀ listing, listing ≡ₚ products (db w) ->
               newest_first Product.created_at listing ->
               concat (products_listed l w <$> seq 1 k)
               = take (k * Z.to_nat l) listing)
   ∧ (Z.of_nat (length (products (db w))) <= Z.of_nat k * l ->
      concat (products_listed l w <$> seq 1 k) ≡ₚ products (db w)))
  ∧ (NoDup (User.created_at <$> users (db w)) ->
     (∀ listing, listing ≡ₚ users (db w) ->
                 newest_first User.created_at listing ->
                 concat (users_listed l w <$> seq 1 k)
                 = take (k * Z.to_nat l) listing)
     ∧ (Z.of_nat (length (users (db w))) <= Z.of_nat k * l ->
        concat (users_listed l w <$> seq 1 k) ≡ₚ users (db w))).
Proof.
  intros Hf Hl Hk.
  assert (concat (products_listed l w <$> seq 1 k)
          = take (k * Z.to_nat l)
              (Sql.order_by_desc Product.created_at (products (db w)))) as Hp.
  { apply slices_concat. intros p Hpk. unfold products_listed.
    rewrite getAllProducts_ok by (try done; nia).
    do 2 f_equal. rewrite Z2Nat.inj_mul by lia. f_equal. lia. }
  assert (concat (users_listed l w <$> seq 1 k)
          = take (k * Z.to_nat l)
              (Sql.order_by_desc User.created_at (users (db w)))) as Hu.
  { apply slices_concat. intros p Hpk. unfold users_listed.
    rewrite getAllUsers_ok by (try done; nia).
    do 2 f_equal. rewrite Z2Nat.inj_mul by lia. f_equal. lia. }
  split; intros Hnd; split.
  - intros listing Hperm Hsorted.
    by rewrite Hp, (order_by_desc_listing _ _ listing).
  - intros Hall. rewrite Hp, take_ge; [apply order_by_desc_perm|].
    rewrite (Permutation_length (order_by_desc_perm _ _)). nia.
  - intros listing Hperm Hsorted.
    by rewrite Hu, (order_by_desc_listing _ _ listing).
  - intros Hall. rewrite Hu, take_ge; [apply order_by_desc_perm|].
    rewrite (Permutation_length (order_by_desc_perm _ _)). nia.
Qed.

(** ** Routes and their tables; duplicate emails; the configuration *)

(** X1. A GET request never writes: whatever the query values or the id,
    and whether the connection answers or not, the four read routes leave
    the tables, the sequences, the clock and the count of INSERT, UPDATE and
    DELETE statements as they were. *)
Theorem reads_change_nothing (w : World) :
  (∀ page limit, stored (router (GET_users page limit) w).2 = stored w)
  ∧ (∀ id, stored (router (GET_users_id id) w).2 = stored w)
  ∧ (∀ page limit, stored (router (GET_products page limit) w).2 = stored w)
  ∧ (∀ id, stored (router (GET_products_id id) w).2 = stored w).
Proof.
  destruct reads_keep_stored as (Hu & Hus & _ & _ & Hp & Hps).
  split_and!; intros; simpl; apply answers_keeping_envelope.
  - by apply answers_keeping_try_service.
  - unfold userController.getUserById. case_match;
      [apply answers_keeping_answer|by apply answers_keeping_try_service].
  - by apply answers_keeping_try_service.
  - unfold productController.getProductById. case_match;
      [apply answers_keeping_answer|by apply answers_keeping_try_service].
Qed.

(** X2. Every route keeps to its table, however the request ends: a
    product route leaves users, orders, order items and key records
    untouched; a user route leaves the products untouched, and all user
    routes but DELETE leave the orders, order items and key records
    untouched as well. *)
Theorem routes_keep_to_their_table (req : ApiRequest) (w : World) :
  untouched req w (router req w).2.
Proof.
  destruct products_services_keep as (Hpc & Hpu & Hpd & Hpg & Hpl).
  destruct users_services_keep as (Huc & Huu & Hud & Hug & Hul).
  destruct req; simpl;
    first [ apply (answers_keeping_envelope beside_users)
          | apply (answers_keeping_envelope beside_products)
          | apply (answers_keeping_envelope (fun w => products (db w))) ];
    cbv [userController.createUser userController.getUserById
         userController.getAllUsers userController.updateUser
         userController.deleteUser
         productController.createProduct productController.getProductById
         productController.getAllProducts productController.updateProduct
         productController.deleteProduct];
    repeat case_match;
    first [apply answers_keeping_answer|by apply answers_keeping_try_service].
Qed.

(** X5. createUser with an email already on record throws after its first
    SELECT and never sends the INSERT: the world only loses the round trip,
    and the message names the email, or is the driver's when that round
    trip fails. *)
Theorem createUser_existing_email (userData : CreateUserRequest.t) (w : World) :
  (∃ u, u ∈ users (db w) ∧ User.email u = CreateUserRequest.email userData) ->
  userService.createUser userData w
  = (Throw ("Failed to create user: "
            +:+ match head (faults w) with
                | Some (Some e) => e
                | _ => "Email " +:+ CreateUserRequest.email userData
                       +:+ " is already in use"
                end),
     set_faults (tail (faults w)) w).
Proof.
  intros Hex%(nonempty_filter (fun u => User.email u = _)).
  unfold userService.createUser, Sql.select_user_ids_by_email, rethrow, try_catch,
    mbind, M_bind, Sql.roundtrip, Sql.read.
  destruct (head (faults w)) as [[e|]|]; try done.
  all: rewrite nonempty_fmap; simpl; by rewrite Hex.
Qed.

(** X22. The configuration loads exactly when DATABASE_URL is set and not
    empty.  The port is then 3000 when PORT is unset or empty, and
    parseInt of PORT otherwise, which is NaN exactly when PORT does not
    start with a digit. *)
Theorem config_loads (process_env : string -> option string) :
  match env.config process_env with
  | Return c =>
      (∃ url, process_env "DATABASE_URL" = Some url ∧ url ≠ ""
              ∧ env.database_url c = url)
      ∧ (blank (process_env "PORT") -> env.server_port c = JS.Fin 3000)
      ∧ (∀ port, process_env "PORT" = Some port -> port ≠ "" ->
                 env.server_port c = JS.parseInt port (Some 10)
                 ∧ (env.server_port c = JS.NaN ↔ leading_digit port = false))
      ∧ (blank (process_env "HOST") -> env.server_host c = "localhost")
  | Throw message =>
      blank (process_env "DATABASE_URL")
      ∧ message = "Missing required environment variables: DATABASE_URL"
  end.
Proof.
  unfold env.config, env.requiredEnvVars. simpl.
  destruct (truthy_str (process_env "DATABASE_URL")) eqn:Hurl; simpl.
  - split_and!.
    + destruct (process_env "DATABASE_URL") as [url|]; [|done]. exists url.
      split_and!; [done| |done]. intros ->. done.
    + intros Hb%truthy_str_blank. unfold env.or_default. by rewrite Hb.
    + intros port Hport Hne. unfold env.or_default. rewrite Hport. simpl.
      destruct (String.eqb_spec port ""); [done|]. simpl. split; [done|].
      pose proof (parseInt_10_NaN port) as Hnan.
      destruct (JS.parseInt port (Some 10)), (leading_digit port); simpl in *;
        split; congruence.
    + intros Hb%truthy_str_blank. unfold env.or_default. by rewrite Hb.
  - split; [by apply truthy_str_blank|done].
Qed.

(** ** The migration runner *)

Section MigrationSteps.

Context {S : Type} (query : string -> S -> Outcome string S).

Lemma script_bind_inv {A B} (m : migrate.Script S A) (k : A -> migrate.Script S B)
    st r st' :
  (m ≫= k) st = (r, st') ->
  (∃ a st1, m st = (Return a, st1) ∧ k a st1 = (r, st'))
  ∨ (∃ e, m st = (Throw e, st') ∧ r = Throw e).
Proof.
  unfold mbind, migrate.Script_bind. destruct (m st) as [[a|e] st1]; intros H.
  - left. by exists a, st1.
  - right. exists e. by simplify_eq.
Qed.

Lemma migrate_roundtrip_inv (st : migrate.Server S) r st' :
  migrate.roundtrip st = (r, st') ->
  migrate.schema st' = migrate.schema st
  ∧ migrate.schema_migrations st' = migrate.schema_migrations st.
Proof. unfold migrate.roundtrip. intros H. by repeat case_match; simplify_eq. Qed.

Lemma migrate_roundtrip_ok (st : migrate.Server S) :
  migrate.faults st = [] -> migrate.roundtrip st = (Return (), st).
Proof. destruct st; simpl. intros ->. done. Qed.

Lemma sql_query_inv statement st r st' :
  migrate.sql_query query statement st = (r, st') ->
  migrate.schema_migrations st' = migrate.schema_migrations st.
Proof.
  unfold migrate.sql_query. intros H.
  apply script_bind_inv in H as [([] & st1 & Hrt & H)|(e & Hrt & _)];
    apply migrate_roundtrip_inv in Hrt as [_ Hrt]; [|done].
  unfold migrate.server in H. by repeat case_match; simplify_eq.
Qed.

Lemma run_statements_inv stmts st r st' :
  migrate.run_statements query stmts st = (r, st') ->
  migrate.schema_migrations st' = migrate.schema_migrations st.
Proof.
  revert st. induction stmts as [|stmt stmts IH]; intros st; simpl.
  - unfold mret, migrate.Script_ret. by intros; simplify_eq.
  - intros H. apply script_bind_inv in H as [([] & st1 & Hq & H)|(e & Hq & _)];
      apply sql_query_inv in Hq; [|done].
    apply IH in H. congruence.
Qed.

Lemma insert_migration_inv name (st : migrate.Server S) r st' :
  migrate.insert_migration name st = (r, st') ->
  (migrate.schema_migrations st' = migrate.schema_migrations st ∧ ∃ e, r = Throw e)
  ∨ (r = Return ()
     ∧ migrate.schema_migrations st'
       = if bool_decide (name ∈ migrate.schema_migrations st)
         then migrate.schema_migrations st
         else (migrate.schema_migrations st ++ [name])%list).
Proof.
  unfold migrate.insert_migration. intros H.
  apply script_bind_inv in H as [([] & st1 & Hrt & H)|(e & Hrt & ->)];
    apply migrate_roundtrip_inv in Hrt as [_ Hrt]; [|left; split; [done|by eexists]].
  right. unfold migrate.server in H. rewrite <-Hrt.
  by case_bool_decide; simplify_eq.
Qed.

Lemma runMigration_inv name content st r st' :
  migrate.runMigration query name content st = (r, st') ->
  (migrate.schema_migrations st' = migrate.schema_migrations st ∧ ∃ e, r = Throw e)
  ∨ (r = Return ()
     ∧ migrate.schema_migrations st'
       = if bool_decide (name ∈ migrate.schema_migrations st)
         then migrate.schema_migrations st
         else (migrate.schema_migrations st ++ [name])%list).
Proof.
  unfold migrate.runMigration. intros H.
  apply script_bind_inv in H as [([] & st1 & Hs & H)|(e & Hs & ->)];
    apply run_statements_inv in Hs; [|left; split; [done|by eexists]].
  apply insert_migration_inv in H as [[H ?]|[? H]]; [left|right]; by rewrite <-Hs.
Qed.

(** The loop records the pending names one after the other, and all of them
    when it gets to its end. *)
Lemma run_pending_inv executed migrations count st r st' :
  migrate.run_pending query executed migrations count st = (r, st') ->
  let pending := filter (fun file => file ∉ executed) (migrate.name <$> migrations) in
  NoDup (migrate.name <$> migrations) ->
  (∀ file, file ∈ pending -> file ∉ migrate.schema_migrations st) ->
  ∃ k, migrate.schema_migrations st'
       = (migrate.schema_migrations st ++ take k pending)%list
       ∧ ∀ n, r = Return n ->
              n = (count + length pending)%nat
              ∧ migrate.schema_migrations st'
                = (migrate.schema_migrations st ++ pending)%list.
Proof.
  revert count st. induction migrations as [|m ms IH]; intros count st H; simpl.
  - intros _ _. exists 0%nat. simpl in H. unfold mret, migrate.Script_ret in H.
    simplify_eq. simpl. rewrite app_nil_r. split; [done|].
    intros n ?; simplify_eq. split; [lia|]. by rewrite filter_nil, app_nil_r.
  - intros [Hm Hms]%NoDup_cons Hfresh. simpl in H.
    destruct (decide (migrate.name m ∈ executed)) as [Hin|Hnotin].
    + rewrite bool_decide_eq_true_2 in H by done. simpl in H.
      rewrite filter_cons_False by (by intros ?).
      rewrite filter_cons_False in Hfresh by (by intros ?).
      by apply IH in H.
    + rewrite bool_decide_eq_false_2 in H by done. simpl in H.
      rewrite filter_cons_True by done.
      rewrite filter_cons_True in Hfresh by done.
      apply script_bind_inv in H as [([] & st1 & Hrun & H)|(e & Hrun & ->)].
      * apply runMigration_inv in Hrun as [[_ [e ?]]|[_ Hst1]]; [done|].
        rewrite bool_decide_eq_false_2 in Hst1 by (apply Hfresh; left).
        apply IH in H as (k & Hk & Hall); [|done|].
        -- exists (Datatypes.S k). split.
           ++ by rewrite Hk, Hst1, <-app_assoc.
           ++ intros n Hn. destruct (Hall n Hn) as [-> ->]. simpl.
              rewrite Hst1, <-app_assoc. split; [simpl; by rewrite Nat.add_succ_r|done].
        -- intros file Hfile. rewrite Hst1. intros [Hold| ->%list_elem_of_singleton]%elem_of_app.
           ++ by apply (Hfresh file); [right|].
           ++ apply list_elem_of_filter in Hfile as [_ Hfile]. done.
      * apply runMigration_inv in Hrun as [[Hst' _]|[? _]]; [|done].
        exists 0%nat. simpl. rewrite app_nil_r. split; [done|]. by intros n ?.
Qed.

End MigrationSteps.

(** ** The migrations of a directory *)

Lemma string_leb_total : Total (fun a b : string => Is_true (String.leb a b)).
Proof.
  intros a b. destruct (String.leb_total a b) as [H|H]; [left|right];
    by apply Is_true_true.
Qed.

Lemma elem_of_migration_files dir file :
  file ∈ migration_files dir
  ↔ (∃ content, dir !! file = Some content) ∧ migrate.endsWith file ".sql" = true.
Proof.
  unfold migration_files, migrate.sort, migrate.readdirSync.
  rewrite merge_sort_Permutation, list_elem_of_In, filter_In, <-list_elem_of_In.
  rewrite list_elem_of_fmap. split.
  - intros [([f c] & -> & Hin) He]. apply elem_of_map_to_list in Hin. eauto.
  - intros [[c Hc] He]. split; [|done]. exists (file, c). split; [done|].
    by apply elem_of_map_to_list.
Qed.

Lemma migration_files_NoDup dir : NoDup (migration_files dir).
Proof.
  unfold migration_files, migrate.sort, migrate.readdirSync.
  rewrite merge_sort_Permutation.
  apply NoDup_ListNoDup, List.NoDup_filter, NoDup_ListNoDup, NoDup_fst_map_to_list.
Qed.

Lemma migration_files_sorted dir :
  Sorted (fun a b : string => Is_true (String.leb a b)) (migration_files dir).
Proof. apply @Sorted_merge_sort, string_leb_total. Qed.

Lemma read_all_Return dir files :
  (∀ file, file ∈ files -> ∃ content, dir !! file = Some content) ->
  ∃ migrations,
    migrate.read_all dir files = Return migrations
    ∧ migrate.name <$> migrations = files
    ∧ ∀ m, m ∈ migrations -> dir !! migrate.name m = Some (migrate.content m).
Proof.
  induction files as [|file files IH]; intros Hfiles; simpl.
  - exists []. split_and!; [done..|]. by intros m ?%elem_of_nil.
  - destruct (Hfiles file) as [content Hc]; [left|].
    destruct IH as (ms & -> & Hnames & Hcontents).
    { intros f Hf. apply Hfiles. by right. }
    unfold migrate.readFileSync. rewrite Hc. eexists. split; [done|]. split.
    + by rewrite fmap_cons, Hnames.
    + intros m [->|Hm]%elem_of_cons; [done|by apply Hcontents].
Qed.

Lemma getMigrations_Return dir :
  ∃ migrations,
    migrate.getMigrations dir = Return migrations
    ∧ migrate.name <$> migrations = migration_files dir
    ∧ ∀ m, m ∈ migrations -> dir !! migrate.name m = Some (migrate.content m).
Proof.
  apply read_all_Return. intros file Hfile.
  by apply (elem_of_migration_files dir file) in Hfile as [? _].
Qed.

Section MigrationRuns.

Context {S : Type} (query : string -> S -> Outcome string S).

Lemma runMigrations_inv (dir : migrate.Directory) (st : migrate.Server S) r st' :
  migrate.runMigrations query dir st = (r, st') ->
  (∃ k, migrate.schema_migrations st'
        = (migrate.schema_migrations st ++ take k (pending_migrations dir st))%list)
  ∧ (∀ n, r = migrate.Completed n ->
          n = length (pending_migrations dir st)
          ∧ migration_files dir ≠ []
          ∧ migrate.schema_migrations st'
            = (migrate.schema_migrations st ++ pending_migrations dir st)%list)
  ∧ (r = migrate.NoMigrations -> migration_files dir = []).
Proof.
  unfold migrate.runMigrations. intros H.
  assert (∀ X (x : X), (migrate.schema_migrations st ++ take 0 (pending_migrations dir st))%list
                       = migrate.schema_migrations st) as Hzero
      by (intros; simpl; apply app_nil_r).
  destruct (getMigrations_Return dir) as (ms & Hms & Hnames & _).
  match type of H with
  | match ?m st with _ => _ end = _ => destruct (m st) as [[r0|e] st0] eqn:Hrun
  end; simplify_eq.
  - apply script_bind_inv in Hrun as [([] & st1 & Hrt & Hrun)|(e & _ & ?)]; [|done].
    apply migrate_roundtrip_inv in Hrt as [_ Hst1].
    apply script_bind_inv in Hrun as [(ms' & st2 & Hget & Hrun)|(e & _ & ?)]; [|done].
    unfold migrate.server in Hget. rewrite Hms in Hget. simplify_eq.
    apply script_bind_inv in Hrun as [(executed & st3 & Hex & Hrun)|(e & _ & ?)];
      [|done].
    unfold migrate.getExecutedMigrations in Hex.
    apply script_bind_inv in Hex as [([] & st4 & Hrt & Hex)|(e & _ & ?)]; [|done].
    apply migrate_roundtrip_inv in Hrt as [_ Hst4].
    unfold migrate.server in Hex. simplify_eq.
    destruct ms' as [|m ms'].
    + unfold mret, migrate.Script_ret in Hrun. simplify_eq.
      simpl in Hnames. split_and!; [|done|done].
      exists 0%nat. rewrite (Hzero _ tt). congruence.
    + apply script_bind_inv in Hrun as [(n & st5 & Hloop & Hrun)|(e & _ & ?)]; [|done].
      unfold mret, migrate.Script_ret in Hrun. simplify_eq.
      apply run_pending_inv in Hloop as (k & Hk & Hall).
      * unfold pending_migrations. rewrite <-Hnames, <-Hst1, <-Hst4.
        split_and!; [by exists k| |done].
        intros n' ?. simplify_eq. destruct (Hall n' eq_refl) as [-> ?].
        by split_and!.
      * rewrite Hnames. apply migration_files_NoDup.
      * intros file [Hfile _]%list_elem_of_filter. done.
  - assert (∃ k, migrate.schema_migrations st'
                 = (migrate.schema_migrations st
                    ++ take k (pending_migrations dir st))%list) as Hk; [|by split_and!].
    apply script_bind_inv in Hrun as [([] & st1 & Hrt & Hrun)|(e' & Hrt & ?)];
      apply migrate_roundtrip_inv in Hrt as [_ Hst1];
      [|exists 0%nat; by rewrite (Hzero _ tt)].
    apply script_bind_inv in Hrun as [(ms' & st2 & Hget & Hrun)|(e' & Hget & ?)];
      unfold migrate.server in Hget; rewrite Hms in Hget; simplify_eq.
    apply script_bind_inv in Hrun as [(executed & st3 & Hex & Hrun)|(e' & Hex & ?)];
      unfold migrate.getExecutedMigrations in Hex.
    + apply script_bind_inv in Hex as [([] & st4 & Hrt & Hex)|(e' & _ & ?)]; [|done].
      apply migrate_roundtrip_inv in Hrt as [_ Hst4].
      unfold migrate.server in Hex. simplify_eq.
      destruct ms' as [|m ms']; [done|].
      apply script_bind_inv in Hrun as [(n & st5 & Hloop & Hrun)|(e' & Hloop & ?)];
        [done|].
      apply run_pending_inv in Hloop as (k & Hk & _).
      * exists k. unfold pending_migrations. by rewrite <-Hnames, <-Hst1, <-Hst4.
      * rewrite Hnames. apply migration_files_NoDup.
      * intros file [Hfile _]%list_elem_of_filter. done.
    + apply script_bind_inv in Hex as [([] & st4 & Hrt & Hex)|(e'' & Hrt & ?)].
      * by unfold migrate.server in Hex.
      * apply migrate_roundtrip_inv in Hrt as [_ Hst4].
        exists 0%nat. rewrite (Hzero _ tt). congruence.
Qed.

End MigrationRuns.

(** ** String methods of the migration runner *)

Lemma endsWith_spec s suffix :
  migrate.endsWith s suffix = true ↔ ∃ base, s = base +:+ suffix.
Proof.
  split.
  - induction s as [|c s IH].
    + change (migrate.endsWith "" suffix) with (String.eqb "" suffix || false).
      rewrite orb_false_r. intros <-%String.eqb_eq. by exists "".
    + change (migrate.endsWith (String c s) suffix)
        with (String.eqb (String c s) suffix || migrate.endsWith s suffix).
      intros [<-%String.eqb_eq|H]%orb_true_iff; [by exists ""|].
      destruct (IH H) as [base ->]. by exists (String c base).
  - intros [base ->]. induction base as [|c base IH].
    + change ("" +:+ suffix) with suffix.
      destruct suffix as [|c suffix].
      * done.
      * change (migrate.endsWith (String c suffix) (String c suffix))
          with (String.eqb (String c suffix) (String c suffix)
                || migrate.endsWith suffix (String c suffix)).
        by rewrite String.eqb_refl.
    + change (migrate.endsWith (String c base +:+ suffix) suffix)
        with (String.eqb (String c (base +:+ suffix)) suffix
              || migrate.endsWith (base +:+ suffix) suffix).
      rewrite IH. apply orb_true_r.
Qed.

Lemma split_nonempty sep s : migrate.split sep s ≠ [].
Proof.
  destruct s as [|c s]; simpl; [done|].
  destruct (Ascii.eqb c sep); [done|]. by destruct (migrate.split sep s).
Qed.

Lemma split_concat sep s :
  String.concat (String sep "") (migrate.split sep s) = s.
Proof.
  induction s as [|c s IH]; [done|]. simpl.
  pose proof (split_nonempty sep s) as Hne.
  destruct (Ascii.eqb_spec c sep) as [->|Hc].
  - destruct (migrate.split sep s) as [|p ps]; [done|]. simpl in *. by rewrite IH.
  - destruct (migrate.split sep s) as [|p ps]; [done|]. simpl in *.
    destruct ps; simpl in *; by rewrite <-IH.
Qed.

Lemma split_pieces sep s piece :
  piece ∈ migrate.split sep s -> sep ∉ code_units piece.
Proof.
  revert piece. induction s as [|c s IH]; intros piece; simpl.
  - intros ->%list_elem_of_singleton. by intros ?%elem_of_nil.
  - destruct (Ascii.eqb_spec c sep) as [->|Hne].
    + intros [->|H]%elem_of_cons; [by intros ?%elem_of_nil|by apply IH].
    + destruct (migrate.split sep s) as [|p ps] eqn:E.
      * intros ->%list_elem_of_singleton. simpl.
        intros [?|?%elem_of_nil]%elem_of_cons; [congruence|done].
      * intros [->|H]%elem_of_cons.
        -- simpl. intros [?|H]%elem_of_cons; [congruence|].
           by apply (IH p); [left|].
        -- apply IH. by right.
Qed.

Lemma trim_start_units s c : c ∈ code_units (JS.trim_start s) -> c ∈ code_units s.
Proof.
  induction s as [|a s IH]; simpl; [done|].
  destruct (JS.is_white_space a); [|done]. intros H. right. by apply IH.
Qed.

Lemma trim_end_units s c : c ∈ code_units (migrate.trim_end s) -> c ∈ code_units s.
Proof.
  induction s as [|a s IH]; simpl; [done|].
  destruct (migrate.trim_end s) as [|b t] eqn:E.
  - destruct (JS.is_white_space a); simpl; [by intros ?%elem_of_nil|].
    intros [->|?%elem_of_nil]%elem_of_cons; [left|done].
  - intros [->|H]%elem_of_cons; [left|]. right. by apply IH.
Qed.

Lemma trim_start_head s c rest :
  JS.trim_start s = String c rest -> JS.is_white_space c = false.
Proof.
  induction s as [|a s IH]; simpl; [done|].
  destruct (JS.is_white_space a) eqn:E; [done|]. by intros; simplify_eq.
Qed.

Lemma trim_end_head s c rest :
  migrate.trim_end s = String c rest -> ∃ rest', s = String c rest'.
Proof.
  destruct s as [|a s]; simpl; [done|].
  destruct (migrate.trim_end s); [destruct (JS.is_white_space a)|];
    intros; simplify_eq; eauto.
Qed.

Lemma append_nil (s : string) : "" +:+ s = s.
Proof. reflexivity. Qed.

Lemma append_cons c (s t : string) : String c s +:+ t = String c (s +:+ t).
Proof. reflexivity. Qed.

Lemma trim_end_last s init c :
  migrate.trim_end s = init +:+ String c "" -> JS.is_white_space c = false.
Proof.
  revert init. induction s as [|a s IH]; intros init; simpl.
  - destruct init; by rewrite ?append_nil, ?append_cons.
  - destruct (migrate.trim_end s) as [|b t] eqn:E.
    + destruct (JS.is_white_space a) eqn:Ha;
        [destruct init; by rewrite ?append_nil, ?append_cons|].
      destruct init as [|i init]; rewrite ?append_nil, ?append_cons;
        [by intros; simplify_eq|].
      intros; simplify_eq. destruct init; by rewrite ?append_nil, ?append_cons in *.
    + destruct init as [|i init]; rewrite ?append_nil, ?append_cons;
        [intros; simplify_eq|].
      intros; simplify_eq. by eapply IH.
Qed.

(** X18. Every statement runMigration sends is non-empty, holds no
    semicolon, starts and ends with a character that is not white space,
    and is the trimmed form of a piece of the content between semicolons;
    joining the pieces with semicolons gives the content back. *)
Theorem statements_clean (content stmt : string) :
  In stmt (migrate.statements content) ->
  stmt ≠ ""
  ∧ ((";" : ascii) ∉ code_units stmt)
  ∧ (∀ c rest, stmt = String c rest -> JS.is_white_space c = false)
  ∧ (∀ init c, stmt = init +:+ String c "" -> JS.is_white_space c = false)
  ∧ (∃ piece, piece ∈ migrate.split ";" content ∧ stmt = migrate.trim piece)
  ∧ String.concat ";" (migrate.split ";" content) = content.
Proof.
  unfold migrate.statements. intros [Hin Hlen]%filter_In.
  apply list_elem_of_In, list_elem_of_fmap in Hin as (piece & -> & Hpiece).
  split_and!.
  - intros E. by rewrite E in Hlen.
  - intros H. apply trim_end_units, trim_start_units in H.
    by apply (split_pieces _ _ _ Hpiece).
  - intros c rest H. unfold migrate.trim in H.
    apply trim_end_head in H as [rest' H]. by eapply trim_start_head.
  - intros init c H. by eapply trim_end_last.
  - by exists piece.
  - apply split_concat.
Qed.

Section MigrationReruns.

Context {S : Type} (query : string -> S -> Outcome string S).

Lemma run_pending_skip executed migrations count (st : migrate.Server S) :
  (∀ m, m ∈ migrations -> migrate.name m ∈ executed) ->
  migrate.run_pending query executed migrations count st = (Return count, st).
Proof.
  induction migrations as [|m ms IH]; intros H; simpl; [done|].
  rewrite bool_decide_eq_true_2 by (apply H; left). simpl.
  apply IH. intros m' Hm'. apply H. by right.
Qed.

(** X19. getMigrations never fails on a directory it has listed: it
    returns the files whose name ends in ".sql", each once and with its
    content, in ascending order of name. *)
Theorem getMigrations_sorted_sql (dir : migrate.Directory) :
  ∃ migrations,
    migrate.getMigrations dir = Return migrations
    ∧ Sorted (fun a b : string => Is_true (String.leb a b)) (migrate.name <$> migrations)
    ∧ NoDup (migrate.name <$> migrations)
    ∧ ∀ file content,
        migrate.mkMigration file content ∈ migrations
        ↔ dir !! file = Some content ∧ ∃ base, file = base +:+ ".sql".
Proof.
  destruct (getMigrations_Return dir) as (ms & Hms & Hnames & Hcontents).
  exists ms. split_and!; [done| | |].
  - rewrite Hnames. apply migration_files_sorted.
  - rewrite Hnames. apply migration_files_NoDup.
  - intros file content. rewrite <-endsWith_spec. split.
    + intros Hin. pose proof (Hcontents _ Hin) as Hc. simpl in Hc. split; [done|].
      assert (file ∈ migration_files dir) as Hfile.
      { rewrite <-Hnames. apply list_elem_of_fmap. by eexists (migrate.mkMigration _ _). }
      by apply elem_of_migration_files in Hfile as [_ ?].
    + intros [Hc He].
      assert (file ∈ migrate.name <$> ms) as (m & -> & Hm)%list_elem_of_fmap.
      { rewrite Hnames. apply elem_of_migration_files. eauto. }
      pose proof (Hcontents _ Hm) as Hc'. destruct m as [f c]. simpl in *.
      by simplify_eq.
Qed.

(** X20. A run of the migration script only appends to schema_migrations:
    it adds the first k pending migrations in their order, each a ".sql"
    file of the directory that was not recorded before, and keeps the
    recorded names distinct; when it completes it has recorded every
    migration of the directory and counted the new ones. *)
Theorem migrations_recorded (dir : migrate.Directory) (st : migrate.Server S) r st' :
  migrate.runMigrations query dir st = (r, st') ->
  NoDup (migrate.schema_migrations st) ->
  NoDup (migrate.schema_migrations st')
  ∧ (∃ k, migrate.schema_migrations st'
          = (migrate.schema_migrations st ++ take k (pending_migrations dir st))%list)
  ∧ (∀ file, file ∈ migrate.schema_migrations st' ->
             file ∈ migrate.schema_migrations st
             ∨ (∃ content, dir !! file = Some content) ∧ ∃ base, file = base +:+ ".sql")
  ∧ (∀ n, r = migrate.Completed n ->
          n = length (pending_migrations dir st)
          ∧ ∀ file, file ∈ migrate.schema_migrations st'
                    ↔ file ∈ migrate.schema_migrations st ∨ file ∈ migration_files dir).
Proof.
  intros Hrun Hnodup.
  apply runMigrations_inv in Hrun as ([k Hk] & Hall & _).
  split_and!.
  - rewrite Hk. apply NoDup_app. split_and!; [done| |].
    + intros file Hold Hnew%elem_of_take.
      destruct Hnew as (i & Hnew & _).
      apply list_elem_of_lookup_2, list_elem_of_filter in Hnew as [Hnew _]. done.
    + eapply sublist_NoDup; [|apply sublist_take].
      apply NoDup_filter, migration_files_NoDup.
  - by exists k.
  - intros file. rewrite Hk. intros [?|Hnew]%elem_of_app; [by left|right].
    apply elem_of_take in Hnew as (i & Hnew & _).
    apply list_elem_of_lookup_2, list_elem_of_filter in Hnew as [_ Hnew].
    apply elem_of_migration_files in Hnew as [? ?]. by rewrite <-endsWith_spec.
  - intros n Hn. destruct (Hall n Hn) as (-> & _ & Hst'). split; [done|].
    intros file. rewrite Hst', elem_of_app. unfold pending_migrations.
    rewrite list_elem_of_filter.
    destruct (decide (file ∈ migrate.schema_migrations st)); tauto.
Qed.

(** X21. Running the migration script again after a completed run, on a
    connection without faults, applies nothing and changes nothing. *)
Theorem migrations_rerun (dir : migrate.Directory) (st : migrate.Server S) n st' :
  migrate.runMigrations query dir st = (migrate.Completed n, st') ->
  migrate.faults st' = [] ->
  migrate.runMigrations query dir st' = (migrate.Completed 0, st').
Proof.
  intros Hrun Hf.
  apply runMigrations_inv in Hrun as (_ & Hall & _).
  destruct (Hall n eq_refl) as (_ & Hfiles & Hst').
  destruct (getMigrations_Return dir) as (ms & Hms & Hnames & _).
  unfold migrate.runMigrations, migrate.createMigrationsTable,
    migrate.getExecutedMigrations, mbind, migrate.Script_bind.
  rewrite migrate_roundtrip_ok by done. unfold migrate.server at 1. rewrite Hms.
  rewrite migrate_roundtrip_ok by done. unfold migrate.server at 1.
  destruct ms as [|m ms]; [by rewrite <-Hnames in Hfiles|].
  rewrite run_pending_skip; [done|].
  intros m' Hm'. rewrite Hst', elem_of_app. unfold pending_migrations.
  rewrite list_elem_of_filter, <-Hnames.
  assert (migrate.name m' ∈ migrate.name <$> m :: ms) by (by apply list_elem_of_fmap_2).
  destruct (decide (migrate.name m' ∈ migrate.schema_migrations st)); tauto.
Qed.

End MigrationReruns.

(** * Worked instances *)

(** C10 at work: a second "Laptop Pro" on the sample tables. *)
Lemma createProduct_existing_name_witness :
  (∃ p, p ∈ products (db sample_world) ∧ Product.name p = "Laptop Pro")
  ∧ (∃ msg w',
        productService.createProduct (CreateProductRequest.mk "Laptop Pro" 100 1)
                                     sample_world = (Throw msg, w')
        ∧ db w' = db sample_world ∧ mutations w' = mutations sample_world)
  ∧ (∀ name1 name2 price stock v e,
        (Sql.insert_product name1 price stock v).1 = Throw e
        ↔ (Sql.insert_product name2 price stock v).1 = Throw e).
Proof.
  assert (∃ p, p ∈ products (db sample_world) ∧ Product.name p = "Laptop Pro") as H.
  { exists (Product.mk 1 "Laptop Pro" 99999 10 0). split; [simpl; left|reflexivity]. }
  split; [exact H|].
  exact (createProduct_existing_name (CreateProductRequest.mk "Laptop Pro" 100 1)
           sample_world H).
Defined.

(** C9 at work: the price of product 1 alone, the name of user 2 alone. *)
Lemma update_keeps_omitted_fields_witness :
  (productService.updateProduct (JS.Fin 1) sample_price_update sample_world
   = sample_price_updated
   ∧ match sample_price_updated with
     | (Return product', w') =>
         ∃ i product,
           JS.Fin 1 = JS.Fin i
           ∧ head (filter (fun p => Product.id p = i) (products (db sample_world)))
             = Some product
           ∧ ∀ row,
               row = product' ∨ (row ∈ products (db w') ∧ Product.id row = i) ->
               (UpdateProductRequest.name sample_price_update = None ->
                Product.name row = Product.name product)
               ∧ (UpdateProductRequest.price sample_price_update = None ->
                  Product.price row = Product.price product)
               ∧ (UpdateProductRequest.stock sample_price_update = None ->
                  Product.stock row = Product.stock product)
     | _ => False
     end)
  ∧ (userService.updateUser (JS.Fin 2) sample_name_update sample_world
     = sample_name_updated
     ∧ match sample_name_updated with
       | (Return user', w') =>
           ∃ i user,
             JS.Fin 2 = JS.Fin i
             ∧ head (filter (fun u => User.id u = i) (users (db sample_world)))
               = Some user
             ∧ ∀ row,
                 row = user' ∨ (row ∈ users (db w') ∧ User.id row = i) ->
                 (UpdateUserRequest.name sample_name_update = None ->
                  User.name row = User.name user)
                 ∧ (UpdateUserRequest.email sample_name_update = None ->
                    User.email row = User.email user)
       | _ => False
       end).
Proof.
  split.
  - split; [vm_compute; reflexivity|].
    unfold sample_price_updated; cbv beta iota.
    apply (proj1 update_keeps_omitted_fields). vm_compute. reflexivity.
  - split; [vm_compute; reflexivity|].
    unfold sample_name_updated; cbv beta iota.
    apply (proj2 update_keeps_omitted_fields). vm_compute. reflexivity.
Defined.

(** C4 at work: an order without items. *)
Lemma placeOrder_validation_witness :
  (CreateOrderRequest.items sample_empty_order = []
   ∨ (∃ it, it ∈ CreateOrderRequest.items sample_empty_order
            ∧ OrderItemInput.quantity it <= 0)
   ∨ (∀ u, u ∈ users (db sample_world)
           -> User.id u ≠ CreateOrderRequest.user_id sample_empty_order))
  ∧ ∃ msg w',
      orderService.placeOrder sample_empty_order sample_world
      = (Throw (ValidationError msg), w')
      ∧ kind (ValidationError msg) = validation_error
      ∧ db w' = db sample_world ∧ mutations w' = mutations sample_world
      ∧ w' = sample_world.
Proof.
  assert (CreateOrderRequest.items sample_empty_order = []) as H by reflexivity.
  split; [left; exact H|].
  exact (placeOrder_validation sample_empty_order sample_world (or_introl H)).
Defined.

(** C3 at work: the sample order, total 259996 for two laptops and two
    monitors. *)
Lemma placeOrder_total_witness :
  orderService.placeOrder sample_order sample_world = sample_placed
  ∧ match sample_placed with
    | (Return po, w') =>
        (PlacedOrder.order po ∉ orders (db sample_world))
        ∧ Order.total_amount (PlacedOrder.order po) = items_total (PlacedOrder.items po)
        ∧ Forall (fun row =>
                    price_of (OrderItem.product_id row) (db sample_world)
                    = Some (OrderItem.price row))
                 (PlacedOrder.items po)
        ∧ ∀ t, orderService.placeOrder (with_client_total t sample_order) sample_world
               = (Return po, w')
    | _ => False
    end.
Proof.
  split; [vm_compute; reflexivity|].
  unfold sample_placed; cbv beta iota.
  assert (∀ o : Order.t, o ∉ orders (db sample_world)) as Hnew.
  { intros o Hin. simpl in Hin. inversion Hin. }
  split; [apply Hnew|].
  apply (placeOrder_total sample_order sample_world); [|apply Hnew].
  vm_compute. reflexivity.
Defined.

(** C6 at work: the sample order placed, then replayed. *)
Lemma placeOrder_idempotent_witness :
  CreateOrderRequest.idempotencyKey sample_order = Some "order-001"
  ∧ references_orders (db sample_world)
  ∧ orderService.placeOrder sample_order sample_world = sample_placed
  ∧ match sample_placed with
    | (Return po, w1) =>
        ∀ w2, db w2 = db w1 ->
              orderService.placeOrder sample_order w2 = (Return po, w2)
    | _ => False
    end.
Proof.
  assert (references_orders (db sample_world)) as Href.
  { split; intros x Hin; simpl in Hin; inversion Hin. }
  split; [reflexivity|]. split; [exact Href|].
  split; [vm_compute; reflexivity|].
  unfold sample_placed; cbv beta iota.
  apply (placeOrder_idempotent sample_order "order-001" sample_world);
    [reflexivity|exact Href|vm_compute; reflexivity].
Defined.

(** C2 (amended) at work: a product out of stock created, a stock set to
    zero, the sample order placed. *)
Lemma stock_stays_nonnegative_witness :
  stocks_nonneg (db sample_world)
  ∧ products_pk (db sample_world)
  ∧ stocks_nonneg
      (db (productService.createProduct (CreateProductRequest.mk "USB-C Cable" 999 0)
                                        sample_world).2)
  ∧ stocks_nonneg
      (db (productService.updateProduct
             (JS.Fin 2) (UpdateProductRequest.mk None None (Some 0)) sample_world).2)
  ∧ stocks_nonneg (db (orderService.placeOrder sample_order sample_world).2).
Proof.
  assert (stocks_nonneg (db sample_world)) as Hnn.
  { apply stocks_nonneg_Forall. simpl.
    repeat (apply Forall_cons; split; [simpl; lia|]). apply Forall_nil_2. }
  assert (products_pk (db sample_world)) as Hpk.
  { unfold products_pk. simpl. apply (bool_decide_unpack _). vm_compute. exact I. }
  destruct (stock_stays_nonnegative sample_world Hnn) as (Hcreate & Hupdate & Hplace).
  split; [exact Hnn|]. split; [exact Hpk|]. split_and!.
  - eapply Hcreate; [apply surjective_pairing|simpl; lia].
  - eapply Hupdate; [apply surjective_pairing|].
    simpl. intros s Hs. injection Hs as <-. lia.
  - eapply Hplace; [apply surjective_pairing|exact Hpk].
Defined.

(** C7 at work: seven clients, five monitors. *)
Lemma concurrent_unit_placements_witness :
  faults sample_world = []
  ∧ sequences_ahead sample_world
  ∧ stock_of 2 (db sample_world) = Some 5
  ∧ 0 <= 5
  ∧ Forall (unit_request 2 (users (db sample_world))) sample_rush
  ∧ (∃ n st, Concurrent.run n (Concurrent.init sample_world sample_rush) st
             ∧ Concurrent.terminal st)
  ∧ ∀ n st,
      Concurrent.run n (Concurrent.init sample_world sample_rush) st ->
      (n <= 3 * length sample_rush)%nat
      ∧ (Concurrent.terminal st ->
         Forall finished (Concurrent.clients st)
         ∧ Z.of_nat (Concurrent.successes st) = Z.min (Z.of_nat (length sample_rush)) 5
         ∧ Z.of_nat (Concurrent.stock_failures st)
           = Z.of_nat (length sample_rush) - Z.min (Z.of_nat (length sample_rush)) 5
         ∧ stock_of 2 (db (Concurrent.world st))
           = Some (5 - Z.min (Z.of_nat (length sample_rush)) 5)).
Proof.
  assert (sequences_ahead sample_world) as Hseq.
  { split; intros x Hin; simpl in Hin; inversion Hin. }
  assert (Forall (unit_request 2 (users (db sample_world))) sample_rush) as Hreqs.
  { unfold sample_rush. apply Forall_replicate. split_and!; [reflexivity..|].
    exists (User.mk 2 "Bob" "bob@example.com" 0).
    split; [simpl; right; left|reflexivity]. }
  assert (0 <= 5) as H5 by lia.
  split; [reflexivity|]. split; [exact Hseq|]. split; [reflexivity|].
  split; [exact H5|]. split; [exact Hreqs|].
  exact (concurrent_unit_placements 2 5 sample_world sample_rush
           eq_refl Hseq eq_refl H5 Hreqs).
Defined.

(** X3 at work: the ids "abc" and " 12abc". *)
Lemma invalid_id_refused_witness :
  leading_digit "abc" = false
  ∧ leading_digit " 12abc" = true
  ∧ (router (GET_users_id "abc") sample_world = (error 400 "Invalid user ID", sample_world)
     ∧ (∀ body, router (PUT_users_id "abc" body) sample_world
                = (error 400 "Invalid user ID", sample_world))
     ∧ router (DELETE_users_id "abc") sample_world
       = (error 400 "Invalid user ID", sample_world)
     ∧ router (GET_products_id "abc") sample_world
       = (error 400 "Invalid product ID", sample_world)
     ∧ (∀ body, router (PUT_products_id "abc" body) sample_world
                = (error 400 "Invalid product ID", sample_world))
     ∧ router (DELETE_products_id "abc") sample_world
       = (error 400 "Invalid product ID", sample_world))
  ∧ (statusCode (router (GET_users_id " 12abc") sample_world).1 ≠ 400
     ∧ statusCode (router (GET_products_id " 12abc") sample_world).1 ≠ 400).
Proof.
  split; [reflexivity|]. split; [reflexivity|]. split.
  - apply (proj1 (invalid_id_refused "abc" sample_world)). reflexivity.
  - apply (proj2 (invalid_id_refused " 12abc" sample_world)). reflexivity.
Defined.

(** X4 at work: a user without email, a product out of stock, and two
    updates that change nothing. *)
Lemma blank_fields_refused_witness :
  (blank (UpdateUserRequest.name (UpdateUserRequest.mk (Some "Cy") None))
   ∨ blank (UpdateUserRequest.email (UpdateUserRequest.mk (Some "Cy") None)))
  ∧ router (POST_users (UpdateUserRequest.mk (Some "Cy") None)) sample_world
    = (error 400 "Name and email are required", sample_world)
  ∧ zero (UpdateProductRequest.stock (UpdateProductRequest.mk (Some "Pen") (Some 100) (Some 0)))
  ∧ router (POST_products (UpdateProductRequest.mk (Some "Pen") (Some 100) (Some 0)))
           sample_world
    = (error 400 "Name, price and stock are required", sample_world)
  ∧ leading_digit "1" = true
  ∧ blank (UpdateUserRequest.name (UpdateUserRequest.mk None (Some "")))
  ∧ blank (UpdateUserRequest.email (UpdateUserRequest.mk None (Some "")))
  ∧ router (PUT_users_id "1" (UpdateUserRequest.mk None (Some ""))) sample_world
    = (error 400 "At least one field (name or email) must be provided for update",
       sample_world)
  ∧ zero (UpdateProductRequest.price (UpdateProductRequest.mk None None (Some 0)))
  ∧ router (PUT_products_id "1" (UpdateProductRequest.mk None None (Some 0))) sample_world
    = (error 400 "At least one field (name, price or stock) must be provided for update",
       sample_world).
Proof.
  destruct (blank_fields_refused sample_world) as (Hpu & Hpp & Huu & Hup).
  assert (blank None) as Hnone by (left; reflexivity).
  assert (blank (Some "")) as Hempty by (right; reflexivity).
  assert (zero None) as Hz by (left; reflexivity).
  assert (zero (Some 0)) as Hz0 by (right; reflexivity).
  split; [right; exact Hnone|]. split; [apply Hpu; right; exact Hnone|].
  split; [exact Hz0|]. split; [apply Hpp; right; right; exact Hz0|].
  split; [reflexivity|]. split; [exact Hnone|]. split; [exact Hempty|].
  split; [apply Huu; [reflexivity|exact Hnone|exact Hempty]|].
  split; [exact Hz|]. apply Hup; [reflexivity|exact Hnone|exact Hz|exact Hz0].
Defined.

(** X5 at work: a second user with the email of Ann. *)
Lemma createUser_existing_email_witness :
  (∃ u, u ∈ users (db sample_world) ∧ User.email u = "ann@example.com")
  ∧ userService.createUser (CreateUserRequest.mk "Anna" "ann@example.com") sample_world
    = (Throw "Failed to create user: Email ann@example.com is already in use",
       sample_world).
Proof.
  assert (∃ u, u ∈ users (db sample_world) ∧ User.email u = "ann@example.com") as H.
  { exists (User.mk 1 "Ann" "ann@example.com" 0). split; [simpl; left|reflexivity]. }
  split; [exact H|].
  exact (createUser_existing_email (CreateUserRequest.mk "Anna" "ann@example.com")
           sample_world H).
Defined.

(** X6 at work: a user created, renamed to a taken email, deleted. *)
Lemma users_keys_preserved_witness :
  users_pk (db sample_world)
  ∧ users_email_key (db sample_world)
  ∧ (let w' := (userService.createUser (CreateUserRequest.mk "Cy" "cy@example.com")
                                       sample_world).2 in
     users_pk (db w') ∧ users_email_key (db w'))
  ∧ (let w' := (userService.updateUser
                  (JS.Fin 2) (UpdateUserRequest.mk None (Some "ann@example.com"))
                  sample_world).2 in
     users_pk (db w') ∧ users_email_key (db w'))
  ∧ (let w' := (userService.deleteUser (JS.Fin 1) sample_world).2 in
     users_pk (db w') ∧ users_email_key (db w')).
Proof.
  assert (users_pk (db sample_world)) as Hpk.
  { unfold users_pk. simpl. apply (bool_decide_unpack _). vm_compute. exact I. }
  assert (users_email_key (db sample_world)) as Hemail.
  { unfold users_email_key. simpl. apply (bool_decide_unpack _). vm_compute. exact I. }
  destruct (users_keys_preserved sample_world Hpk Hemail) as (Hc & Hu & Hd).
  split; [exact Hpk|]. split; [exact Hemail|]. split_and!.
  - eapply Hc. apply surjective_pairing.
  - eapply Hu. apply surjective_pairing.
  - eapply Hd. apply surjective_pairing.
Defined.

(** X7 at work: a product created, renamed, deleted. *)
Lemma product_names_preserved_witness :
  products_pk (db sample_world)
  ∧ product_names_unique (db sample_world)
  ∧ product_names_unique
      (db (productService.createProduct (CreateProductRequest.mk "USB-C Cable" 999 100)
                                        sample_world).2)
  ∧ UpdateProductRequest.name (UpdateProductRequest.mk (Some "Laptop Pro") None None)
    ≠ Some ""
  ∧ product_names_unique
      (db (productService.updateProduct
             (JS.Fin 2) (UpdateProductRequest.mk (Some "Laptop Pro") None None)
             sample_world).2)
  ∧ product_names_unique (db (productService.deleteProduct (JS.Fin 1) sample_world).2).
Proof.
  assert (products_pk (db sample_world)) as Hpk.
  { unfold products_pk. simpl. apply (bool_decide_unpack _). vm_compute. exact I. }
  assert (product_names_unique (db sample_world)) as Hnames.
  { unfold product_names_unique. simpl. apply (bool_decide_unpack _). vm_compute.
    exact I. }
  assert (UpdateProductRequest.name (UpdateProductRequest.mk (Some "Laptop Pro") None None)
          ≠ Some "") as Hne by (simpl; discriminate).
  destruct (product_names_preserved sample_world Hpk Hnames) as (Hc & Hu & Hd).
  split; [exact Hpk|]. split; [exact Hnames|]. split_and!.
  - eapply Hc. apply surjective_pairing.
  - exact Hne.
  - eapply Hu; [apply surjective_pairing|exact Hne].
  - eapply Hd. apply surjective_pairing.
Defined.

(** X8 at work: Cy signs up. *)
Lemma createUser_then_lookup_witness :
  userService.createUser (CreateUserRequest.mk "Cy" "cy@example.com") sample_world
  = sample_user_created
  ∧ match sample_user_created with
    | (Return user, w') =>
        faults w' = []
        ∧ -2147483648 <= User.id user <= 2147483647
        ∧ User.name user = "Cy"
        ∧ User.email user = "cy@example.com"
        ∧ userService.getUserById (JS.Fin (User.id user)) w' = (Return (Some user), w')
        ∧ userService.getUserByEmail "cy@example.com" w' = (Return (Some user), w')
        ∧ userService.userExists (JS.Fin (User.id user)) w' = (Return true, w')
    | _ => False
    end.
Proof.
  split; [vm_compute; reflexivity|].
  unfold sample_user_created; cbv beta iota.
  split; [reflexivity|]. split; [simpl; lia|].
  apply (createUser_then_lookup (CreateUserRequest.mk "Cy" "cy@example.com")
           sample_world); [vm_compute; reflexivity|reflexivity|simpl; lia].
Defined.

(** X9 at work: a cable enters the catalogue. *)
Lemma createProduct_then_lookup_witness :
  productService.createProduct (CreateProductRequest.mk "USB-C Cable" 999 100)
                               sample_world
  = sample_product_created
  ∧ match sample_product_created with
    | (Return product, w') =>
        faults w' = []
        ∧ -2147483648 <= Product.id product <= 2147483647
        ∧ Product.name product = "USB-C Cable"
        ∧ Product.stock product = 100
        ∧ productService.getProductById (JS.Fin (Product.id product)) w'
          = (Return (Some product), w')
    | _ => False
    end.
Proof.
  split; [vm_compute; reflexivity|].
  unfold sample_product_created; cbv beta iota.
  split; [reflexivity|]. split; [simpl; lia|].
  apply (createProduct_then_lookup (CreateProductRequest.mk "USB-C Cable" 999 100)
           sample_world); [vm_compute; reflexivity|reflexivity|simpl; lia].
Defined.

(** X10 at work: product 1 renamed and restocked. *)
Lemma updateProduct_then_lookup_witness :
  productService.updateProduct (JS.Fin 1) sample_restock sample_world
  = sample_restocked
  ∧ match sample_restocked with
    | (Return product', w') =>
        faults w' = []
        ∧ (∀ name, UpdateProductRequest.name sample_restock = Some name ->
                   Product.name product' = name)
        ∧ (∀ stock, UpdateProductRequest.stock sample_restock = Some stock ->
                    Product.stock product' = stock)
        ∧ productService.getProductById (JS.Fin 1) w' = (Return (Some product'), w')
        ∧ (∀ q, JS.Fin (Product.id q) ≠ JS.Fin 1 ->
                q ∈ products (db w') ↔ q ∈ products (db sample_world))
        ∧ ∃ w'', productService.updateProduct (JS.Fin 1) sample_restock w'
                 = (Return product', w'')
                 ∧ db w'' = db w'
    | _ => False
    end.
Proof.
  split; [vm_compute; reflexivity|].
  unfold sample_restocked; cbv beta iota.
  split; [reflexivity|].
  apply (updateProduct_then_lookup (JS.Fin 1) sample_restock sample_world);
    [vm_compute; reflexivity|reflexivity].
Defined.

(** X11 at work: user 2 renamed. *)
Lemma updateUser_then_lookup_witness :
  userService.updateUser (JS.Fin 2) sample_name_update sample_world
  = sample_name_updated
  ∧ match sample_name_updated with
    | (Return user', w') =>
        faults w' = []
        ∧ (∀ name, UpdateUserRequest.name sample_name_update = Some name ->
                   User.name user' = name)
        ∧ (∀ email, UpdateUserRequest.email sample_name_update = Some email ->
                    User.email user' = email)
        ∧ userService.getUserById (JS.Fin 2) w' = (Return (Some user'), w')
        ∧ (∀ q, JS.Fin (User.id q) ≠ JS.Fin 2 ->
                q ∈ users (db w') ↔ q ∈ users (db sample_world))
        ∧ ∃ w'', userService.updateUser (JS.Fin 2) sample_name_update w'
                 = (Return user', w'')
                 ∧ db w'' = db w'
    | _ => False
    end.
Proof.
  split; [vm_compute; reflexivity|].
  unfold sample_name_updated; cbv beta iota.
  split; [reflexivity|].
  apply (updateUser_then_lookup (JS.Fin 2) sample_name_update sample_world);
    [vm_compute; reflexivity|reflexivity].
Defined.

(** X12 at work: user 2 deleted. *)
Lemma deleteUser_then_lookup_witness :
  userService.deleteUser (JS.Fin 2) sample_world = sample_user_deleted
  ∧ match sample_user_deleted with
    | (Return b, w') =>
        faults w' = []
        ∧ userService.getUserById (JS.Fin 2) w' = (Return None, w')
        ∧ userService.userExists (JS.Fin 2) w' = (Return false, w')
        ∧ userService.deleteUser (JS.Fin 2) w'
          = (Throw ("Failed to delete user: User with ID " +:+ JS.show (JS.Fin 2)
                    +:+ " not found"), w')
        ∧ (∀ q, JS.Fin (User.id q) ≠ JS.Fin 2 ->
                q ∈ users (db w') ↔ q ∈ users (db sample_world))
        ∧ (∀ o, o ∈ orders (db w') -> JS.Fin (Order.user_id o) ≠ JS.Fin 2)
    | _ => False
    end.
Proof.
  split; [vm_compute; reflexivity|].
  unfold sample_user_deleted; cbv beta iota.
  split; [reflexivity|].
  apply (deleteUser_then_lookup (JS.Fin 2) sample_world true);
    [vm_compute; reflexivity|reflexivity].
Defined.

(** X13 at work: product 2 deleted. *)
Lemma deleteProduct_then_lookup_witness :
  productService.deleteProduct (JS.Fin 2) sample_world = sample_product_deleted
  ∧ match sample_product_deleted with
    | (Return b, w') =>
        faults w' = []
        ∧ productService.getProductById (JS.Fin 2) w' = (Return None, w')
        ∧ productService.deleteProduct (JS.Fin 2) w'
          = (Throw ("Failed to delete product: Product with ID " +:+ JS.show (JS.Fin 2)
                    +:+ " not found"), w')
        ∧ (∀ q, JS.Fin (Product.id q) ≠ JS.Fin 2 ->
                q ∈ products (db w') ↔ q ∈ products (db sample_world))
        ∧ (∀ it, it ∈ order_items (db sample_world) ->
                 JS.Fin (OrderItem.product_id it) ≠ JS.Fin 2)
    | _ => False
    end.
Proof.
  split; [vm_compute; reflexivity|].
  unfold sample_product_deleted; cbv beta iota.
  split; [reflexivity|].
  apply (deleteProduct_then_lookup (JS.Fin 2) sample_world true);
    [vm_compute; reflexivity|reflexivity].
Defined.

(** X14 at work: user 99 and product 99 are not on record. *)
Lemma missing_row_answered_404_witness :
  JS.parseInt "99" (Some 10) = JS.Fin 99
  ∧ -2147483648 <= 99 <= 2147483647
  ∧ faults sample_world = []
  ∧ (∀ u, u ∈ users (db sample_world) -> User.id u ≠ 99)
  ∧ (∀ p, p ∈ products (db sample_world) -> Product.id p ≠ 99)
  ∧ (router (GET_users_id "99") sample_world = (error 404 "User not found", sample_world)
     ∧ router (DELETE_users_id "99") sample_world
       = (error 404 "Failed to delete user: User with ID 99 not found", sample_world)
     ∧ router (PUT_users_id "99" (UpdateUserRequest.mk (Some "Zed") None)) sample_world
       = (error 404 "Failed to update user: User with ID 99 not found", sample_world))
  ∧ (router (GET_products_id "99") sample_world
     = (error 404 "Product not found", sample_world)
     ∧ router (DELETE_products_id "99") sample_world
       = (error 404 "Failed to delete product: Product with ID 99 not found",
          sample_world)
     ∧ router (PUT_products_id "99" (UpdateProductRequest.mk None (Some 100) None))
              sample_world
       = (error 404 "Failed to update product: Product with ID 99 not found",
          sample_world)).
Proof.
  assert (JS.parseInt "99" (Some 10) = JS.Fin 99) as Hparse by (vm_compute; reflexivity).
  assert (-2147483648 <= 99 <= 2147483647) as Hrange by lia.
  assert (faults sample_world = []) as Hf by reflexivity.
  assert (∀ u, u ∈ users (db sample_world) -> User.id u ≠ 99) as Hu.
  { intros u Hin. simpl in Hin.
    repeat (apply elem_of_cons in Hin as [->|Hin]; [simpl; lia|]).
    by apply elem_of_nil in Hin. }
  assert (∀ p, p ∈ products (db sample_world) -> Product.id p ≠ 99) as Hp.
  { intros p Hin. simpl in Hin.
    repeat (apply elem_of_cons in Hin as [->|Hin]; [simpl; lia|]).
    by apply elem_of_nil in Hin. }
  destruct (missing_row_answered_404 "99" 99 sample_world Hparse Hrange Hf)
    as [Husers Hproducts].
  destruct (Husers Hu) as (H1 & H2 & H3). destruct (Hproducts Hp) as (H4 & H5 & H6).
  split; [exact Hparse|]. split; [exact Hrange|]. split; [exact Hf|].
  split; [exact Hu|]. split; [exact Hp|]. split.
  - split; [exact H1|]. split; [exact H2|].
    apply (H3 (UpdateUserRequest.mk (Some "Zed") None)).
    intros [[H|H] _]; simpl in H; discriminate H.
  - split; [exact H4|]. split; [exact H5|].
    apply (H6 (UpdateProductRequest.mk None (Some 100) None)).
    intros (_ & [H|H] & _); simpl in H; discriminate H.
Defined.

(** X15 at work: product 1 renamed to the name of the sign, user 2 given
    the email of Ann. *)
Lemma conflict_answered_by_text_witness :
  JS.parseInt "1" (Some 10) = JS.Fin 1
  ∧ JS.parseInt "2" (Some 10) = JS.Fin 2
  ∧ faults sample_world_odd = []
  ∧ router (PUT_products_id "1"
              (UpdateProductRequest.mk (Some "Sign: page not found") None None))
           sample_world_odd
    = (error 404 "Failed to update product: Name Sign: page not found is already in use",
       sample_world_odd)
  ∧ router (PUT_users_id "2" (UpdateUserRequest.mk None (Some "ann@example.com")))
           sample_world
    = (error 400 "Failed to update user: Email ann@example.com is already in use",
       sample_world).
Proof.
  assert (JS.parseInt "1" (Some 10) = JS.Fin 1) as Hparse1 by (vm_compute; reflexivity).
  assert (JS.parseInt "2" (Some 10) = JS.Fin 2) as Hparse2 by (vm_compute; reflexivity).
  split; [exact Hparse1|]. split; [exact Hparse2|]. split; [reflexivity|]. split.
  - apply (proj1 (conflict_answered_by_text "1" 1 sample_world_odd Hparse1
                    ltac:(lia) eq_refl)
             (UpdateProductRequest.mk (Some "Sign: page not found") None None)
             (Product.mk 1 "Laptop Pro" 99999 10 0) "Sign: page not found"
             (Product.mk 2 "Sign: page not found" 1999 3 0)).
    + vm_compute. reflexivity.
    + reflexivity.
    + discriminate.
    + simpl. discriminate.
    + simpl. right. left.
    + reflexivity.
    + simpl. lia.
  - apply (proj2 (conflict_answered_by_text "2" 2 sample_world Hparse2
                    ltac:(lia) eq_refl)
             (UpdateUserRequest.mk None (Some "ann@example.com"))
             (User.mk 2 "Bob" "bob@example.com" 0) "ann@example.com"
             (User.mk 1 "Ann" "ann@example.com" 0)).
    + vm_compute. reflexivity.
    + reflexivity.
    + discriminate.
    + simpl. discriminate.
    + simpl. left.
    + reflexivity.
    + simpl. lia.
Defined.

(** X16 at work: GET /products without query values. *)
Lemma listed_page_witness :
  Z.of_nat (length (products (db sample_world))) < 2 ^ 53
  ∧ productController.getAllProducts JS.QUndefined JS.QUndefined sample_world
    = sample_products_page
  ∧ match data sample_products_page.1 with
    | Some pg =>
        ∃ l n,
          limit pg = JS.Fin l ∧ 1 <= l <= 100
          ∧ Z.of_nat (length (rows pg)) <= l
          ∧ (∀ row, row ∈ rows pg -> row ∈ products (db sample_world))
          ∧ newest_first Product.created_at (rows pg)
          ∧ total pg = Z.of_nat (length (products (db sample_world)))
          ∧ totalPages pg = JS.Fin n ∧ (n - 1) * l < total pg <= n * l
    | None => False
    end.
Proof.
  assert (Z.of_nat (length (products (db sample_world))) < 2 ^ 53) as Hsize
      by (vm_compute; reflexivity).
  split; [exact Hsize|]. split; [vm_compute; reflexivity|].
  unfold sample_products_page; cbv beta iota delta [fst data].
  apply (proj1 (listed_page JS.QUndefined JS.QUndefined sample_world) Hsize).
  vm_compute. reflexivity.
Defined.

(** X17 at work: two dated rows a table, listed one row a page. *)
Lemma pages_tile_witness :
  faults sample_world_dated = []
  ∧ 1 <= 1
  ∧ Z.of_nat 2 * 1 < 2 ^ 53
  ∧ NoDup (Product.created_at <$> products (db sample_world_dated))
  ∧ NoDup (User.created_at <$> users (db sample_world_dated))
  ∧ rev (products (db sample_world_dated)) ≡ₚ products (db sample_world_dated)
  ∧ newest_first Product.created_at (rev (products (db sample_world_dated)))
  ∧ rev (users (db sample_world_dated)) ≡ₚ users (db sample_world_dated)
  ∧ newest_first User.created_at (rev (users (db sample_world_dated)))
  ∧ Z.of_nat (length (products (db sample_world_dated))) <= Z.of_nat 2 * 1
  ∧ Z.of_nat (length (users (db sample_world_dated))) <= Z.of_nat 2 * 1
  ∧ concat (products_listed 1 sample_world_dated <$> seq 1 2)
    = take (2 * Z.to_nat 1) (rev (products (db sample_world_dated)))
  ∧ concat (products_listed 1 sample_world_dated <$> seq 1 2)
    ≡ₚ products (db sample_world_dated)
  ∧ concat (users_listed 1 sample_world_dated <$> seq 1 2)
    = take (2 * Z.to_nat 1) (rev (users (db sample_world_dated)))
  ∧ concat (users_listed 1 sample_world_dated <$> seq 1 2)
    ≡ₚ users (db sample_world_dated).
Proof.
  assert (Z.of_nat 2 * 1 < 2 ^ 53) as Hk by (vm_compute; reflexivity).
  assert (NoDup (Product.created_at <$> products (db sample_world_dated))) as Hpd
      by (apply (bool_decide_unpack _); vm_compute; exact I).
  assert (NoDup (User.created_at <$> users (db sample_world_dated))) as Hud
      by (apply (bool_decide_unpack _); vm_compute; exact I).
  assert (rev (products (db sample_world_dated)) ≡ₚ products (db sample_world_dated))
    as Hpp by (simpl; apply perm_swap).
  assert (newest_first Product.created_at (rev (products (db sample_world_dated))))
    as Hps by (simpl; repeat constructor; simpl; lia).
  assert (rev (users (db sample_world_dated)) ≡ₚ users (db sample_world_dated))
    as Hup by (simpl; apply perm_swap).
  assert (newest_first User.created_at (rev (users (db sample_world_dated))))
    as Hus by (simpl; repeat constructor; simpl; lia).
  assert (Z.of_nat (length (products (db sample_world_dated))) <= Z.of_nat 2 * 1)
    as Hp by (simpl; lia).
  assert (Z.of_nat (length (users (db sample_world_dated))) <= Z.of_nat 2 * 1)
    as Hu by (simpl; lia).
  destruct (pages_tile 1 2 sample_world_dated eq_refl ltac:(lia) Hk)
    as [Hproducts Husers].
  destruct (Hproducts Hpd) as [Hp1 Hp2]. destruct (Husers Hud) as [Hu1 Hu2].
  split; [reflexivity|]. split; [lia|]. split; [exact Hk|]. split; [exact Hpd|].
  split; [exact Hud|]. split; [exact Hpp|]. split; [exact Hps|].
  split; [exact Hup|]. split; [exact Hus|]. split; [exact Hp|]. split; [exact Hu|].
  split; [exact (Hp1 _ Hpp Hps)|]. split; [exact (Hp2 Hp)|].
  split; [exact (Hu1 _ Hup Hus)|exact (Hu2 Hu)].
Defined.

(** X18 at work: a migration of two statements. *)
Lemma statements_clean_witness :
  In "CREATE INDEX idx ON products (id)"
     (migrate.statements
        "CREATE TABLE products (id SERIAL);  CREATE INDEX idx ON products (id); ")
  ∧ "CREATE INDEX idx ON products (id)" ≠ ""
  ∧ ((";" : ascii) ∉ code_units "CREATE INDEX idx ON products (id)")
  ∧ (∀ c rest, "CREATE INDEX idx ON products (id)" = String c rest ->
               JS.is_white_space c = false)
  ∧ (∀ init c, "CREATE INDEX idx ON products (id)" = init +:+ String c "" ->
               JS.is_white_space c = false)
  ∧ (∃ piece,
        piece ∈ migrate.split ";"
                  "CREATE TABLE products (id SERIAL);  CREATE INDEX idx ON products (id); "
        ∧ "CREATE INDEX idx ON products (id)" = migrate.trim piece)
  ∧ String.concat ";"
      (migrate.split ";"
         "CREATE TABLE products (id SERIAL);  CREATE INDEX idx ON products (id); ")
    = "CREATE TABLE products (id SERIAL);  CREATE INDEX idx ON products (id); ".
Proof.
  assert (In "CREATE INDEX idx ON products (id)"
            (migrate.statements
               "CREATE TABLE products (id SERIAL);  CREATE INDEX idx ON products (id); "))
    as H by (vm_compute; right; left; reflexivity).
  split; [exact H|].
  exact (statements_clean _ _ H).
Defined.

(** X20 at work: a first run on an empty server. *)
Lemma migrations_recorded_witness :
  migrate.runMigrations sample_query sample_dir sample_server = sample_migrated
  ∧ NoDup (migrate.schema_migrations sample_server)
  ∧ (let '(r, st') := sample_migrated in
     NoDup (migrate.schema_migrations st')
     ∧ (∃ k, migrate.schema_migrations st'
             = (migrate.schema_migrations sample_server
                ++ take k (pending_migrations sample_dir sample_server))%list)
     ∧ (∀ file, file ∈ migrate.schema_migrations st' ->
                file ∈ migrate.schema_migrations sample_server
                ∨ (∃ content, sample_dir !! file = Some content)
                  ∧ ∃ base, file = base +:+ ".sql")
     ∧ (∀ n, r = migrate.Completed n ->
             n = length (pending_migrations sample_dir sample_server)
             ∧ ∀ file, file ∈ migrate.schema_migrations st'
                       ↔ file ∈ migrate.schema_migrations sample_server
                         ∨ file ∈ migration_files sample_dir)).
Proof.
  assert (NoDup (migrate.schema_migrations sample_server)) as Hnodup
      by (simpl; apply NoDup_nil_2).
  split; [vm_compute; reflexivity|]. split; [exact Hnodup|].
  unfold sample_migrated; cbv beta iota.
  apply (migrations_recorded sample_query sample_dir sample_server);
    [vm_compute; reflexivity|exact Hnodup].
Defined.

(** X21 at work: the script run a second time. *)
Lemma migrations_rerun_witness :
  migrate.runMigrations sample_query sample_dir sample_server = sample_migrated
  ∧ match sample_migrated with
    | (migrate.Completed n, st') =>
        migrate.faults st' = []
        ∧ migrate.runMigrations sample_query sample_dir st' = (migrate.Completed 0, st')
    | _ => False
    end.
Proof.
  split; [vm_compute; reflexivity|].
  unfold sample_migrated; cbv beta iota.
  split; [reflexivity|].
  apply (migrations_rerun sample_query sample_dir sample_server 2);
    [vm_compute; reflexivity|reflexivity].
Defined.

(** X22 at work: the sample environment. *)
Lemma config_loads_witness :
  match env.config sample_env with
  | Return c =>
      (∃ url, sample_env "DATABASE_URL" = Some url ∧ url ≠ ""
              ∧ env.database_url c = url)
      ∧ (blank (sample_env "PORT") -> env.server_port c = JS.Fin 3000)
      ∧ (∀ port, sample_env "PORT" = Some port -> port ≠ "" ->
                 env.server_port c = JS.parseInt port (Some 10)
                 ∧ (env.server_port c = JS.NaN ↔ leading_digit port = false))
      ∧ (blank (sample_env "HOST") -> env.server_host c = "localhost")
  | Throw message =>
      blank (sample_env "DATABASE_URL")
      ∧ message = "Missing required environment variables: DATABASE_URL"
  end.
Proof. exact (config_loads sample_env). Defined.
